(** * A shallow embedding of the mm_alloc memory allocator

    The allocator of [mm_alloc.c] / [mm_alloc.h] threads two doubly-linked
    chains through block headers that live in raw memory.  We model

    - [size_t] values as [Z] in [0, 2^64) with the wrap-around written out
      (LP64: 64-bit [size_t] and pointers, 32-bit [int]);
    - pointers as [Z] addresses, [NULL] being [0];
    - memory as a finite map from addresses to the headers written there,
      plus a byte store for the payload that [memset] and [memcpy] touch;
    - the operating system (program break, anonymous mappings) as a small
      state whose fallible primitives are decided by a policy;
    - every C function as a computation in a state-and-failure monad,
      statement by statement, so that aliasing between the pointers that a
      function dereferences is handled by the store and not by the model. *)

From Stdlib Require Import ZArith Lia Bool List.
From stdpp Require Import base option list gmap.

Local Open Scope Z_scope.

(** ** Machine integers *)

Definition SIZE_WIDTH : Z := 64.
Definition SIZE_MOD : Z := 2 ^ SIZE_WIDTH.
Definition SIZE_MAX : Z := SIZE_MOD - 1.

(** Reduction of an integer to an unsigned [size_t]. *)
Definition wrap (z : Z) : Z := z mod SIZE_MOD.

(** Reinterpretation of a [size_t] as the signed [ssize_t]. *)
Definition to_ssize (z : Z) : Z :=
  if wrap z <? 2 ^ (SIZE_WIDTH - 1) then wrap z else wrap z - SIZE_MOD.

Definition size_add (x y : Z) : Z := wrap (x + y).
Definition size_sub (x y : Z) : Z := wrap (x - y).

(** ** Constants of [mm_alloc.h] *)

Definition ALIGNMENT : Z := 16.

(** [#define ALIGN_UP(x) (((x) + (ALIGNMENT-1)) & ~(ALIGNMENT-1))]; the
    [int] mask [~15] is converted to [size_t] before the conjunction. *)
Definition ALIGN_UP (x : Z) : Z :=
  Z.land (size_add x (ALIGNMENT - 1)) (wrap (Z.lnot (ALIGNMENT - 1))).

Definition MMAP_THRESHOLD : Z := 128 * 1024.
Definition MIN_SPLIT_SIZE : Z := 32.

(** ** Block headers *)

Definition ptr : Type := Z.
Definition NULL : ptr := 0.

Record block_hdr_t : Type := mk_hdr {
  size : Z;            (* payload size *)
  is_free : bool;      (* 1 if free *)
  is_mmap : bool;      (* 1 if block allocated via mmap *)
  next : ptr;          (* next block in overall list *)
  prev : ptr;          (* prev block in overall list *)
  next_free : ptr;     (* free-list pointers (doubly linked) *)
  prev_free : ptr
}.

(** [sizeof(block_hdr_t)] under LP64: an 8-byte [size_t], two 4-byte
    [int]s and four 8-byte pointers, with no padding. *)
Definition sizeof_block_hdr_t : Z := 8 + 4 + 4 + 4 * 8.

Definition hdr_size : Z := ALIGN_UP sizeof_block_hdr_t.

(** [(void * )(hdr + 1)] and [((block_hdr_t * )ptr) - 1]. *)
Definition payload_of (hdr : ptr) : ptr := hdr + sizeof_block_hdr_t.
Definition header_of (user : ptr) : ptr := user - sizeof_block_hdr_t.

Definition blank_hdr : block_hdr_t := mk_hdr 0 false false NULL NULL NULL NULL.

Definition with_size (v : Z) (h : block_hdr_t) : block_hdr_t :=
  mk_hdr v (is_free h) (is_mmap h) (next h) (prev h) (next_free h) (prev_free h).
Definition with_is_free (v : bool) (h : block_hdr_t) : block_hdr_t :=
  mk_hdr (size h) v (is_mmap h) (next h) (prev h) (next_free h) (prev_free h).
Definition with_is_mmap (v : bool) (h : block_hdr_t) : block_hdr_t :=
  mk_hdr (size h) (is_free h) v (next h) (prev h) (next_free h) (prev_free h).
Definition with_next (v : ptr) (h : block_hdr_t) : block_hdr_t :=
  mk_hdr (size h) (is_free h) (is_mmap h) v (prev h) (next_free h) (prev_free h).
Definition with_prev (v : ptr) (h : block_hdr_t) : block_hdr_t :=
  mk_hdr (size h) (is_free h) (is_mmap h) (next h) v (next_free h) (prev_free h).
Definition with_next_free (v : ptr) (h : block_hdr_t) : block_hdr_t :=
  mk_hdr (size h) (is_free h) (is_mmap h) (next h) (prev h) v (prev_free h).
Definition with_prev_free (v : ptr) (h : block_hdr_t) : block_hdr_t :=
  mk_hdr (size h) (is_free h) (is_mmap h) (next h) (prev h) (next_free h) v.

(** ** The operating system *)

(** The program break, the live anonymous mappings (base address to
    length) and a count of the system calls made so far. *)
Record os_state : Type := mk_os {
  cur_brk : Z;
  maps : gmap Z Z;
  os_clock : nat
}.

(** What the kernel decides: whether a break adjustment is granted and
    where (if anywhere) a new mapping is placed.  The decisions may depend
    on the whole OS state, call count included. *)
Record os_policy : Type := mk_policy {
  sbrk_ok : os_state -> Z -> bool;
  brk_ok : os_state -> Z -> bool;
  mmap_pick : os_state -> Z -> option Z
}.

Definition tick (o : os_state) : os_state :=
  mk_os (cur_brk o) (maps o) (S (os_clock o)).

(** [sbrk(delta)]: on success the break moves by [delta] and the previous
    break is returned; [None] stands for [(void * )-1]. *)
Definition os_sbrk (pol : os_policy) (delta : Z) (o : os_state)
  : option Z * os_state :=
  if sbrk_ok pol o delta
  then (Some (cur_brk o), mk_os (cur_brk o + delta) (maps o) (S (os_clock o)))
  else (None, tick o).

(** [brk(addr)]: [true] stands for the return value [0]. *)
Definition os_brk (pol : os_policy) (addr : Z) (o : os_state)
  : bool * os_state :=
  if brk_ok pol o addr
  then (true, mk_os addr (maps o) (S (os_clock o)))
  else (false, tick o).

(** [mmap(NULL, len, ...)]: [None] stands for [MAP_FAILED]. *)
Definition os_mmap (pol : os_policy) (len : Z) (o : os_state)
  : option Z * os_state :=
  match mmap_pick pol o len with
  | Some a => (Some a, mk_os (cur_brk o) (<[a := len]> (maps o)) (S (os_clock o)))
  | None => (None, tick o)
  end.

(** [munmap(addr, len)]: a mapping based at [addr] disappears when [len]
    covers it, and otherwise loses its first [len] bytes. *)
Definition os_munmap (addr len : Z) (o : os_state) : os_state :=
  match maps o !! addr with
  | Some l =>
      if l <=? len
      then mk_os (cur_brk o) (delete addr (maps o)) (S (os_clock o))
      else mk_os (cur_brk o) (<[addr + len := l - len]> (delete addr (maps o)))
                 (S (os_clock o))
  | None => tick o
  end.

(** ** Allocator state *)

Record state : Type := mk_state {
  mem : gmap Z block_hdr_t;   (* the headers held in memory, by address *)
  all_head : ptr;             (* head of overall block list *)
  all_tail : ptr;             (* tail of overall block list *)
  free_head : ptr;            (* head of free list *)
  bytes : Z -> Z;             (* payload bytes *)
  os : os_state
}.

Definition with_mem (m : gmap Z block_hdr_t) (st : state) : state :=
  mk_state m (all_head st) (all_tail st) (free_head st) (bytes st) (os st).
Definition with_all_head (p : ptr) (st : state) : state :=
  mk_state (mem st) p (all_tail st) (free_head st) (bytes st) (os st).
Definition with_all_tail (p : ptr) (st : state) : state :=
  mk_state (mem st) (all_head st) p (free_head st) (bytes st) (os st).
Definition with_free_head (p : ptr) (st : state) : state :=
  mk_state (mem st) (all_head st) (all_tail st) p (bytes st) (os st).
Definition with_bytes (f : Z -> Z) (st : state) : state :=
  mk_state (mem st) (all_head st) (all_tail st) (free_head st) f (os st).
Definition with_os (o : os_state) (st : state) : state :=
  mk_state (mem st) (all_head st) (all_tail st) (free_head st) (bytes st) o.

(** ** The monad of allocator code

    A computation either gets stuck ([None]: it read a header from memory
    that never held one, or a loop ran out of fuel) or returns a value and
    the next state. *)

Definition M (A : Type) : Type := state -> option (A * state).

Definition ret {A} (a : A) : M A := fun st => Some (a, st).
Definition bind {A B} (m : M A) (k : A -> M B) : M B :=
  fun st => match m st with
            | Some (a, st') => k a st'
            | None => None
            end.
Definition stuck {A} : M A := fun _ => None.

Declare Scope alloc_scope.
Delimit Scope alloc_scope with alloc.
Notation "'let*' x ':=' m 'in' k" := (bind m (fun x => k))
  (at level 10, x name, m at level 100, k at level 200) : alloc_scope.
Notation "m ';;' k" := (bind m (fun _ => k))
  (at level 100, k at level 200, right associativity) : alloc_scope.
Local Open Scope alloc_scope.

(** [p->f] as an rvalue. *)
Definition rd {A} (f : block_hdr_t -> A) (p : ptr) : M A :=
  fun st => match mem st !! p with
            | Some h => Some (f h, st)
            | None => None
            end.

(** The header at [p], all-zero where nothing was ever written. *)
Definition hdr_at (m : gmap Z block_hdr_t) (p : ptr) : block_hdr_t :=
  default blank_hdr (m !! p).

(** [p->f = v]: a field store.  The only stores to memory that holds no
    header yet are those of [request_space_sbrk], [request_mmap] and
    [split_block], each of which assigns all seven fields. *)
Definition wr_state (upd : block_hdr_t -> block_hdr_t) (p : ptr) (st : state)
  : state :=
  with_mem (<[p := upd (hdr_at (mem st) p)]> (mem st)) st.

Definition get {A} (f : state -> A) : M A := fun st => Some (f st, st).
Definition put (upd : state -> state) : M unit := fun st => Some (tt, upd st).

Definition wr (upd : block_hdr_t -> block_hdr_t) (p : ptr) : M unit :=
  put (wr_state upd p).

Definition when (c : bool) (m : M unit) : M unit := if c then m else ret tt.

Definition nonnull (p : ptr) : bool := negb (p =? NULL).

(** ** Helpers of [mm_alloc.c] *)

Definition insert_free (b : ptr) : M unit :=
  wr (with_is_free true) b ;;
  let* fh := get free_head in
  wr (with_next_free fh) b ;;
  wr (with_prev_free NULL) b ;;
  let* fh := get free_head in
  when (nonnull fh) (wr (with_prev_free b) fh) ;;
  put (with_free_head b).

Definition remove_free (b : ptr) : M unit :=
  if negb (nonnull b) then ret tt else
  let* pf := rd prev_free b in
  (if nonnull pf
   then let* nf := rd next_free b in wr (with_next_free nf) pf
   else let* nf := rd next_free b in put (with_free_head nf)) ;;
  let* nf := rd next_free b in
  when (nonnull nf) (let* pf := rd prev_free b in wr (with_prev_free pf) nf) ;;
  wr (with_prev_free NULL) b ;;
  wr (with_next_free NULL) b ;;
  wr (with_is_free false) b.

(** coalesce b with next if next exists and is free *)
Definition coalesce_with_next (b : ptr) : M unit :=
  let* n := rd next b in
  if negb (nonnull n) then ret tt else
  let* nfree := rd is_free n in
  if negb nfree then ret tt else
  let* nmap := rd is_mmap n in
  if nmap then ret tt else
  remove_free n ;;
  let* bs := rd size b in
  let* ns := rd size n in
  wr (with_size (size_add bs (size_add hdr_size ns))) b ;;
  let* nn := rd next n in
  wr (with_next nn) b ;;
  let* nn := rd next n in
  if nonnull nn
  then wr (with_prev b) nn
  else put (with_all_tail b).

(** coalesce b with prev if prev exists and is free *)
Definition coalesce_with_prev (b : ptr) : M ptr :=
  let* p := rd prev b in
  if negb (nonnull p) then ret b else
  let* pfree := rd is_free p in
  if negb pfree then ret b else
  let* pmap := rd is_mmap p in
  if pmap then ret b else
  remove_free b ;;
  remove_free p ;;
  let* ps := rd size p in
  let* bs := rd size b in
  wr (with_size (size_add ps (size_add hdr_size bs))) p ;;
  let* bn := rd next b in
  wr (with_next bn) p ;;
  let* bn := rd next b in
  (if nonnull bn
   then wr (with_prev p) bn
   else put (with_all_tail p)) ;;
  insert_free p ;;
  ret p.

(** find first-fit free block; [fuel] bounds the iterations of the loop *)
Fixpoint find_free_loop (fuel : nat) (sz : Z) (curr : ptr) : M ptr :=
  match fuel with
  | O => stuck
  | S fuel' =>
      if negb (nonnull curr) then ret NULL else
      let* cs := rd size curr in
      if cs >=? sz then ret curr else
      let* nf := rd next_free curr in
      find_free_loop fuel' sz nf
  end.

Definition find_free_block (fuel : nat) (sz : Z) : M ptr :=
  let* curr := get free_head in
  find_free_loop fuel sz curr.

(** split a big block into two: first part of [sz], leftover becomes a
    free block *)
Definition split_block (b : ptr) (sz : Z) : M unit :=
  let* bs := rd size b in
  if bs <? size_add (size_add sz hdr_size) MIN_SPLIT_SIZE then ret tt else
  let payload := payload_of b in
  let new_hdr := payload + sz in
  let* bs := rd size b in
  wr (with_size (size_sub (size_sub bs sz) hdr_size)) new_hdr ;;
  wr (with_is_free true) new_hdr ;;
  wr (with_is_mmap false) new_hdr ;;
  let* bn := rd next b in
  wr (with_next bn) new_hdr ;;
  wr (with_prev b) new_hdr ;;
  let* bn := rd next b in
  (if nonnull bn
   then wr (with_prev new_hdr) bn
   else put (with_all_tail new_hdr)) ;;
  wr (with_next new_hdr) b ;;
  wr (with_size sz) b ;;
  wr (with_prev_free NULL) new_hdr ;;
  wr (with_next_free NULL) new_hdr ;;
  insert_free new_hdr.


Definition memcpy (dst src : ptr) (n : Z) : M unit :=
  put (fun st => with_bytes
         (fun a => if (dst <=? a) && (a <? dst + n)
                   then bytes st (src + (a - dst)) else bytes st a) st).

Section Code.

Variable pol : os_policy.

Definition sbrk (delta : Z) : M (option Z) :=
  fun st => let '(r, o) := os_sbrk pol delta (os st) in Some (r, with_os o st).
Definition brk (addr : Z) : M bool :=
  fun st => let '(r, o) := os_brk pol addr (os st) in Some (r, with_os o st).
Definition mmap (len : Z) : M (option Z) :=
  fun st => let '(r, o) := os_mmap pol len (os st) in Some (r, with_os o st).
Definition munmap (addr len : Z) : M unit :=
  put (fun st => with_os (os_munmap addr len (os st)) st).

(** request memory from OS via sbrk and append to all list *)
Definition request_space_sbrk (sz : Z) : M ptr :=
  let total := size_add hdr_size sz in
  let* p := sbrk total in
  match p with
  | None => ret NULL
  | Some hdr =>
      wr (with_size sz) hdr ;;
      wr (with_is_free false) hdr ;;
      wr (with_is_mmap false) hdr ;;
      wr (with_next NULL) hdr ;;
      let* t := get all_tail in
      wr (with_prev t) hdr ;;
      wr (with_prev_free NULL) hdr ;;
      wr (with_next_free NULL) hdr ;;
      let* h := get all_head in
      when (negb (nonnull h)) (put (with_all_head hdr)) ;;
      let* t := get all_tail in
      when (nonnull t) (wr (with_next hdr) t) ;;
      put (with_all_tail hdr) ;;
      ret hdr
  end.

(** allocate via mmap *)
Definition request_mmap (sz : Z) : M ptr :=
  let total := size_add hdr_size sz in
  let* p := mmap total in
  match p with
  | None => ret NULL
  | Some hdr =>
      wr (with_size sz) hdr ;;
      wr (with_is_free false) hdr ;;
      wr (with_is_mmap true) hdr ;;
      wr (with_prev NULL) hdr ;;
      wr (with_next NULL) hdr ;;
      wr (with_prev_free NULL) hdr ;;
      wr (with_next_free NULL) hdr ;;
      ret hdr
  end.

(** The guard of the tail-release loop:
    [all_tail && all_tail->is_free && !all_tail->is_mmap]. *)
Definition tail_releasable : M bool :=
  let* t := get all_tail in
  if negb (nonnull t) then ret false else
  let* tfree := rd is_free t in
  if negb tfree then ret false else
  let* tmap := rd is_mmap t in
  ret (negb tmap).

(** The body of the tail-release loop. *)
Definition release_tail : M unit :=
  let* t := get all_tail in
  remove_free t ;;
  let* ts := rd size t in
  let total := size_add hdr_size ts in
  let* tp := rd prev t in
  put (with_all_tail tp) ;;
  let* at' := get all_tail in
  (if nonnull at'
   then wr (with_next NULL) at'
   else put (with_all_head NULL)) ;;
  let* ok := brk t in
  if ok then ret tt
  else (sbrk (0 - to_ssize total) ;; ret tt).

(** shrink heap if the last block(s) are free *)
Fixpoint try_release_memory_to_os (fuel : nat) : M unit :=
  match fuel with
  | O => stuck
  | S fuel' =>
      let* go := tail_releasable in
      if go then release_tail ;; try_release_memory_to_os fuel'
      else ret tt
  end.

(** ** API functions (the global lock is elided: one thread) *)

Definition mm_malloc (fuel : nat) (sz : Z) : M ptr :=
  if sz =? 0 then ret NULL else
  let sz := ALIGN_UP sz in
  if sz >=? MMAP_THRESHOLD then
    let* hdr := request_mmap sz in
    if negb (nonnull hdr) then ret NULL
    else ret (payload_of hdr)
  else
  let* b := find_free_block fuel sz in
  if nonnull b then
    remove_free b ;;
    wr (with_is_free false) b ;;
    split_block b sz ;;
    ret (payload_of b)
  else
  let* hdr := request_space_sbrk sz in
  if negb (nonnull hdr) then ret NULL
  else ret (payload_of hdr).

Definition mm_free (fuel : nat) (p : ptr) : M unit :=
  if negb (nonnull p) then ret tt else
  let hdr := header_of p in
  let* hmap := rd is_mmap hdr in
  if hmap then
    let* hs := rd size hdr in
    let total := size_add hdr_size hs in
    munmap hdr total
  else
  insert_free hdr ;;
  coalesce_with_next hdr ;;
  let* hdr := coalesce_with_prev hdr in
  try_release_memory_to_os fuel.


Definition mm_realloc (fuel : nat) (p : ptr) (sz : Z) : M ptr :=
  if negb (nonnull p) then mm_malloc fuel sz else
  if sz =? 0 then mm_free fuel p ;; ret NULL else
  let sz := ALIGN_UP sz in
  let hdr := header_of p in
  let* hmap := rd is_mmap hdr in
  if hmap then
    let* hs := rd size hdr in
    if hs >=? sz then ret p
    else
      let* newp := mm_malloc fuel sz in
      if negb (nonnull newp) then ret NULL else
      let* hs := rd size hdr in
      memcpy newp p hs ;;
      mm_free fuel p ;;
      ret newp
  else
  let* hs := rd size hdr in
  if hs >=? sz then
    split_block hdr sz ;;
    ret p
  else
  let* nx := rd next hdr in
  let* absorb :=
    (if negb (nonnull nx) then ret false else
     let* nfree := rd is_free nx in
     if negb nfree then ret false else
     let* nmap := rd is_mmap nx in
     if nmap then ret false else
     let* hs := rd size hdr in
     let* ns := rd size nx in
     ret (size_add (size_add hs hdr_size) ns >=? sz)) in
  if absorb then
    remove_free nx ;;
    let* hs := rd size hdr in
    let* ns := rd size nx in
    wr (with_size (size_add hs (size_add hdr_size ns))) hdr ;;
    let* nn := rd next nx in
    wr (with_next nn) hdr ;;
    let* nn := rd next nx in
    (if nonnull nn
     then wr (with_prev hdr) nn
     else put (with_all_tail hdr)) ;;
    split_block hdr sz ;;
    ret p
  else
  let* newp := mm_malloc fuel sz in
  if negb (nonnull newp) then ret NULL else
  let* hs := rd size hdr in
  memcpy newp p hs ;;
  mm_free fuel p ;;
  ret newp.

End Code.

(** ** Abstraction: the two chains as lists of addresses *)

Definition in_mem (st : state) (p : ptr) : Prop := is_Some (mem st !! p).

(** The header of block [p] in state [st]. *)
Definition hdr (st : state) (p : ptr) : block_hdr_t := hdr_at (mem st) p.

(** [seg N p l q]: following the link [N] from [p] visits exactly the
    blocks of [l], in order, and arrives at [q]. *)
Fixpoint seg (N : ptr -> ptr) (p : ptr) (l : list ptr) (q : ptr) : Prop :=
  match l with
  | [] => p = q
  | a :: l' => p = a /\ a <> NULL /\ seg N (N a) l' q
  end.

(** [back P from l]: the back link of every block of [l] names the block
    before it, the first one naming [from]. *)
Fixpoint back (P : ptr -> ptr) (from : ptr) (l : list ptr) : Prop :=
  match l with
  | [] => True
  | a :: l' => P a = from /\ back P a l'
  end.

(** The spatial chain of [st] is [l]: [all_head] leads through [l] to
    [NULL] along [next], [prev] leads back, and [all_tail] is the last. *)
Definition spatial_chain (st : state) (l : list ptr) : Prop :=
  seg (fun a => next (hdr st a)) (all_head st) l NULL /\
  back (fun a => prev (hdr st a)) NULL l /\
  all_tail st = List.last l NULL /\
  Forall (in_mem st) l.

(** The free chain of [st] is [l]. *)
Definition free_chain (st : state) (l : list ptr) : Prop :=
  seg (fun a => next_free (hdr st a)) (free_head st) l NULL /\
  back (fun a => prev_free (hdr st a)) NULL l /\
  Forall (in_mem st) l.

(** The first block of [l] whose size is at least [n], or [NULL]. *)
Fixpoint first_fit (st : state) (n : Z) (l : list ptr) : ptr :=
  match l with
  | [] => NULL
  | a :: l' => if size (hdr st a) >=? n then a else first_fit st n l'
  end.

(** Two blocks that follow each other on the chain [l]. *)
Definition adjacent (l : list ptr) (a b : ptr) : Prop :=
  exists l1 l2, l = l1 ++ a :: b :: l2.

(** Invariant I4 on a chain: no two neighbours are both free. *)
Definition no_adjacent_free (st : state) (l : list ptr) : Prop :=
  forall a b, adjacent l a b ->
    ~ (is_free (hdr st a) = true /\ is_free (hdr st b) = true).

(** Invariant I6 on a chain: sizes are multiples of [ALIGNMENT], at least
    [ALIGNMENT]. *)
Definition sizes_aligned (st : state) (l : list ptr) : Prop :=
  forall a, a ∈ l ->
    size (hdr st a) mod ALIGNMENT = 0 /\ ALIGNMENT <= size (hdr st a).

(** Invariant I5 on a chain: no block on it is a mapped block. *)
Definition none_mapped (st : state) (l : list ptr) : Prop :=
  forall a, a ∈ l -> is_mmap (hdr st a) = false.

(** Only the free-chain bookkeeping differs between [st] and [st']. *)
Record links_only (st st' : state) : Prop := mk_links_only {
  lo_all_head : all_head st' = all_head st;
  lo_all_tail : all_tail st' = all_tail st;
  lo_bytes : bytes st' = bytes st;
  lo_os : os st' = os st;
  lo_size : forall a, size (hdr st' a) = size (hdr st a);
  lo_is_mmap : forall a, is_mmap (hdr st' a) = is_mmap (hdr st a);
  lo_next : forall a, next (hdr st' a) = next (hdr st a);
  lo_prev : forall a, prev (hdr st' a) = prev (hdr st a);
  lo_in_mem : forall a, in_mem st a -> in_mem st' a
}.

(** [l] without the block [x]. *)
Definition without (x : ptr) (l : list ptr) : list ptr :=
  filter (fun a => a <> x) l.

(** ** Concrete kernels and heaps *)

(** A kernel that grants every request; mappings are placed far above the
    heap, one page apart. *)
Definition pol_ok : os_policy :=
  mk_policy (fun _ _ => true) (fun _ _ => true)
            (fun o _ => Some (2 ^ 40 + 4096 * Z.of_nat (os_clock o))).


(** The allocator before its first use, with the break at 4096. *)
Definition st_empty : state :=
  mk_state ∅ NULL NULL NULL (fun _ => 0) (mk_os 4096 ∅ 0).

(** The state and the value of a run, for runs that are known to end. *)
Definition final_state {A} (r : option (A * state)) : state :=
  match r with Some (_, s) => s | None => st_empty end.

(** [a = malloc(160); b = malloc(16); c = malloc(16); free(b)]: a live
    block of 160 bytes, a free block of 16 and a live block of 16. *)
Definition shrink_setup : M ptr :=
  let* a := mm_malloc pol_ok 4 160 in
  let* b := mm_malloc pol_ok 4 16 in
  let* c := mm_malloc pol_ok 4 16 in
  mm_free pol_ok 4 b ;;
  ret a.

Definition st_heap3 : state := final_state (shrink_setup st_empty).

(** Two free blocks, of 64 bytes at 4096 and of 32 bytes at 4272, the
    larger one first on the free chain; live blocks after each. *)
Definition st_two_free : state :=
  mk_state
    (<[4096 := mk_hdr 64 true false 4208 NULL 4272 NULL]>
       (<[4208 := mk_hdr 16 false false 4272 4096 NULL NULL]>
          (<[4272 := mk_hdr 32 true false 4352 4208 NULL 4096]>
             (<[4352 := mk_hdr 16 false false NULL 4272 NULL NULL]> ∅))))
    4096 4352 4096 (fun _ => 0) (mk_os 4416 ∅ 0).

(** Two neighbouring free blocks, the second one just pushed onto the
    free chain, as inside [mm_free]; a live block after them. *)
Definition st_merge : state :=
  mk_state
    (<[4096 := mk_hdr 16 true false 4160 NULL NULL 4160]>
       (<[4160 := mk_hdr 16 true false 4224 4096 4096 NULL]>
          (<[4224 := mk_hdr 16 false false NULL 4160 NULL NULL]> ∅)))
    4096 4224 4160 (fun _ => 0) (mk_os 4288 ∅ 0).

(** A live block followed by a free tail of 32 bytes. *)
Definition st_free_tail : state :=
  mk_state
    (<[4096 := mk_hdr 16 false false 4160 NULL NULL NULL]>
       (<[4160 := mk_hdr 32 true false NULL 4096 NULL NULL]> ∅))
    4096 4160 4160 (fun _ => 0) (mk_os 4240 ∅ 0).

(** Is there a pair of neighbours on [l] that are both free? *)
Fixpoint adjacent_free_pair (st : state) (l : list ptr) : bool :=
  match l with
  | [] => false
  | a :: l' =>
      match l' with
      | [] => false
      | b :: _ =>
          (is_free (hdr st a) && is_free (hdr st b)) || adjacent_free_pair st l'
      end
  end.

(** ** Well-formed heaps *)

(** The largest [ssize_t]: [sbrk] takes its increment as a signed word. *)
Definition SSIZE_MAX : Z := 2 ^ (SIZE_WIDTH - 1) - 1.

(** [adj_all R l]: every two neighbours of [l] are related by [R]. *)
Fixpoint adj_all (R : ptr -> ptr -> Prop) (l : list ptr) : Prop :=
  match l with
  | [] => True
  | a :: l' =>
      match l' with
      | [] => True
      | b :: _ => R a b
      end /\ adj_all R l'
  end.

(** The first address past block [a]: header, then payload. *)
Definition block_end (st : state) (a : ptr) : Z :=
  a + hdr_size + size (hdr st a).

(** A well-formed heap: [l] is the spatial chain and [fl] the free chain;
    the free chain holds exactly the blocks of the spatial chain whose
    flag is set; no block of the heap is a mapped one; the blocks lie in
    address order below the program break without overlapping, and the
    break is an address that [sbrk] can name. *)
Record heap_ok (st : state) (l fl : list ptr) : Prop := mk_heap_ok {
  ok_spatial : spatial_chain st l;
  ok_free : free_chain st fl;
  ok_flags : forall a, a ∈ fl <-> a ∈ l /\ is_free (hdr st a) = true;
  ok_unmapped : none_mapped st l;
  ok_size : forall a, a ∈ l -> 0 <= size (hdr st a);
  ok_low : forall a, a ∈ l -> 0 < a;
  ok_order : adj_all (fun a b => block_end st a <= b) l;
  ok_brk : forall a, a ∈ l -> block_end st a <= cur_brk (os st);
  ok_top : 0 < cur_brk (os st) <= SSIZE_MAX
}.

(** Not both free: what invariant I4 asks of two neighbours. *)
Definition not_both_free (st : state) (a c : ptr) : Prop :=
  ~ (is_free (hdr st a) = true /\ is_free (hdr st c) = true).

(** A block of the heap that is in use. *)
Definition live (st : state) (l : list ptr) (a : ptr) : Prop :=
  a ∈ l /\ is_free (hdr st a) = false.

(** Addresses and sizes of the heap are multiples of [ALIGNMENT], and so
    is the break. *)
Definition heap_aligned (st : state) (l : list ptr) : Prop :=
  (forall a, a ∈ l -> a mod ALIGNMENT = 0) /\
  sizes_aligned st l /\
  cur_brk (os st) mod ALIGNMENT = 0.

(** What the allocator relies on from the kernel: a granted [sbrk] keeps
    the break within [SSIZE_MAX], and a new mapping is placed at or above
    the break, clear of the heap. *)
Record os_sane (pol : os_policy) : Prop := mk_os_sane {
  sbrk_top : forall o d, sbrk_ok pol o d = true -> 0 <= d ->
               cur_brk o + d <= SSIZE_MAX;
  mmap_above : forall o len a, mmap_pick pol o len = Some a -> cur_brk o <= a
}.

(** A kernel that grants what keeps the break in range, and maps above
    both the break and 2^40. *)
Definition pol_sane : os_policy :=
  mk_policy (fun o d => (0 <? cur_brk o + d) && (cur_brk o + d <=? SSIZE_MAX))
            (fun _ _ => true)
            (fun o _ => Some (Z.max (cur_brk o) (2 ^ 40) + 4096 * Z.of_nat (os_clock o))).

(** A kernel that refuses every request. *)
Definition pol_none : os_policy :=
  mk_policy (fun _ _ => false) (fun _ _ => false) (fun _ _ => None).

(** ** Debug: print lists

    What [mm_print_state] writes to the standard output, line by line;
    each line carries the values that its [printf] formats. *)

Inductive out_line : Type :=
  | out_all_blocks                       (* "All blocks:" *)
  | out_block (b : ptr) (sz : Z) (free mapped : bool) (nx pv : ptr)
                                         (* "  [%p] size=%zu free=%d mmap=%d next=%p prev=%p" *)
  | out_free_list                        (* "Free list:" *)
  | out_free_block (b : ptr) (sz : Z).   (* "  [%p] size=%zu" *)

(** The first loop of [mm_print_state], from block [b] on. *)
Fixpoint print_all_loop (fuel : nat) (b : ptr) : M (list out_line) :=
  match fuel with
  | O => stuck
  | S fuel' =>
      if negb (nonnull b) then ret [] else
      let* sz := rd size b in
      let* fr := rd is_free b in
      let* mm := rd is_mmap b in
      let* nx := rd next b in
      let* pv := rd prev b in
      let* b' := rd next b in
      let* rest := print_all_loop fuel' b' in
      ret (out_block b sz fr mm nx pv :: rest)
  end.

(** The second loop of [mm_print_state], from block [b] on. *)
Fixpoint print_free_loop (fuel : nat) (b : ptr) : M (list out_line) :=
  match fuel with
  | O => stuck
  | S fuel' =>
      if negb (nonnull b) then ret [] else
      let* sz := rd size b in
      let* b' := rd next_free b in
      let* rest := print_free_loop fuel' b' in
      ret (out_free_block b sz :: rest)
  end.

(** Debug: print lists *)
Definition mm_print_state (fuel : nat) : M (list out_line) :=
  let* b := get all_head in
  let* blocks := print_all_loop fuel b in
  let* b := get free_head in
  let* frees := print_free_loop fuel b in
  ret (out_all_blocks :: blocks ++ out_free_list :: frees).

(** The lines for the blocks of a chain. *)
Definition block_line (st : state) (b : ptr) : out_line :=
  out_block b (size (hdr st b)) (is_free (hdr st b)) (is_mmap (hdr st b))
            (next (hdr st b)) (prev (hdr st b)).
Definition free_line (st : state) (b : ptr) : out_line :=
  out_free_block b (size (hdr st b)).

(** * Proofs *)

(** * Machine arithmetic *)

Lemma SIZE_MOD_val : SIZE_MOD = 18446744073709551616.
Proof. reflexivity. Qed.

Lemma wrap_small z : 0 <= z <= SIZE_MAX -> wrap z = z.
Proof. unfold wrap, SIZE_MAX. intros. apply Z.mod_small. lia. Qed.

Lemma wrap_range z : 0 <= wrap z <= SIZE_MAX.
Proof.
  unfold wrap, SIZE_MAX. pose proof (Z.mod_pos_bound z SIZE_MOD).
  rewrite SIZE_MOD_val in *. lia.
Qed.

Lemma land_align_mask v :
  Z.land (wrap v) (wrap (Z.lnot (ALIGNMENT - 1))) = wrap v - wrap v mod 16.
Proof.
  assert (Hm : wrap (Z.lnot (ALIGNMENT - 1)) = Z.shiftl (Z.ones 60) 4) by reflexivity.
  assert (Hr : wrap v - wrap v mod 16 = Z.shiftl (Z.shiftr (wrap v) 4) 4).
  { rewrite Z.shiftl_mul_pow2, Z.shiftr_div_pow2 by lia.
    change (2 ^ 4) with 16. pose proof (Z.div_mod (wrap v) 16). lia. }
  rewrite Hm, Hr. apply Z.bits_inj'. intros n Hn.
  rewrite Z.land_spec, !Z.shiftl_spec by lia.
  destruct (Z.ltb_spec n 4) as [Hlt|Hge].
  - rewrite !(Z.testbit_neg_r _ (n - 4)) by lia. apply andb_false_r.
  - rewrite Z.shiftr_spec by lia. replace (n - 4 + 4) with n by lia.
    destruct (Z.ltb_spec n 64) as [Hlt|Hge'].
    + rewrite Z.ones_spec_low by lia. apply andb_true_r.
    + rewrite Z.ones_spec_high by lia. rewrite andb_false_r.
      unfold wrap. change SIZE_MOD with (2 ^ 64).
      symmetry. apply Z.mod_pow2_bits_high. lia.
Qed.

Lemma ALIGN_UP_eq x :
  ALIGN_UP x = wrap (x + 15) - wrap (x + 15) mod 16.
Proof. unfold ALIGN_UP, size_add. change (ALIGNMENT - 1) with 15 at 1. apply land_align_mask. Qed.

(** Without wrap-around, [ALIGN_UP] rounds up to the next multiple of 16. *)
Lemma ALIGN_UP_nowrap x :
  0 <= x -> x + 15 <= SIZE_MAX ->
  ALIGN_UP x mod 16 = 0 /\ x <= ALIGN_UP x < x + 16.
Proof.
  intros H0 H1. rewrite ALIGN_UP_eq, wrap_small by lia.
  pose proof (Z.mod_pos_bound (x + 15) 16).
  pose proof (Z.div_mod (x + 15) 16).
  split; [|lia].
  replace (x + 15 - (x + 15) mod 16) with (((x + 15) / 16) * 16) by lia.
  apply Z.mod_mul. lia.
Qed.

Lemma ALIGN_UP_mod x : ALIGN_UP x mod 16 = 0.
Proof.
  rewrite ALIGN_UP_eq.
  pose proof (Z.div_mod (wrap (x + 15)) 16).
  replace (wrap (x + 15) - wrap (x + 15) mod 16) with ((wrap (x + 15) / 16) * 16) by lia.
  apply Z.mod_mul. lia.
Qed.

Lemma ALIGN_UP_range x : 0 <= ALIGN_UP x <= SIZE_MAX.
Proof.
  rewrite ALIGN_UP_eq. pose proof (wrap_range (x + 15)).
  pose proof (Z.mod_pos_bound (wrap (x + 15)) 16).
  pose proof (Z.mod_le (wrap (x + 15)) 16). lia.
Qed.

Lemma hdr_size_val : hdr_size = 48.
Proof. reflexivity. Qed.

Lemma hdr_size_sizeof : hdr_size = sizeof_block_hdr_t.
Proof. reflexivity. Qed.

(** * Memory views *)

Lemma nonnull_true p : nonnull p = true <-> p <> NULL.
Proof. unfold nonnull, NULL. destruct (Z.eqb_spec p 0); simpl; split; intros; congruence. Qed.

Lemma nonnull_false p : nonnull p = false <-> p = NULL.
Proof. unfold nonnull, NULL. destruct (Z.eqb_spec p 0); simpl; split; intros; congruence. Qed.

Lemma nonnull_case p : (p = NULL /\ nonnull p = false) \/ (p <> NULL /\ nonnull p = true).
Proof. unfold nonnull, NULL. destruct (Z.eqb_spec p 0); simpl; auto. Qed.

Lemma hdr_at_insert (m : gmap Z block_hdr_t) p h a :
  hdr_at (<[p := h]> m) a = if decide (p = a) then h else hdr_at m a.
Proof. unfold hdr_at. rewrite lookup_insert. destruct (decide (p = a)); reflexivity. Qed.

Lemma hdr_at_lookup (m : gmap Z block_hdr_t) p h : m !! p = Some h -> hdr_at m p = h.
Proof. unfold hdr_at. intros ->. reflexivity. Qed.

Lemma hdr_lookup st p h : mem st !! p = Some h -> hdr st p = h.
Proof. apply hdr_at_lookup. Qed.

Lemma in_mem_lookup st p : in_mem st p -> mem st !! p = Some (hdr st p).
Proof. intros [h Hh]. unfold hdr. rewrite (hdr_at_lookup _ _ _ Hh). exact Hh. Qed.

Lemma in_mem_insert (m : gmap Z block_hdr_t) st p h a :
  mem st = <[p := h]> m -> (a = p \/ is_Some (m !! a)) -> in_mem st a.
Proof.
  unfold in_mem. intros -> [->|H].
  - rewrite lookup_insert_eq. eauto.
  - rewrite lookup_insert. destruct (decide (p = a)); eauto.
Qed.

(** * Running monadic code *)

Lemma rd_run {A} (f : block_hdr_t -> A) p st :
  in_mem st p -> rd f p st = Some (f (hdr st p), st).
Proof. intros H. unfold rd. rewrite (in_mem_lookup _ _ H). reflexivity. Qed.

Lemma bind_run {A B} (m : M A) (k : A -> M B) st a st1 :
  m st = Some (a, st1) -> bind m k st = k a st1.
Proof. unfold bind. intros ->. reflexivity. Qed.

Lemma bind_Some {A B} (m : M A) (k : A -> M B) st b st2 :
  bind m k st = Some (b, st2) ->
  exists a st1, m st = Some (a, st1) /\ k a st1 = Some (b, st2).
Proof.
  unfold bind. destruct (m st) as [[a st1]|]; [|discriminate]. eauto.
Qed.

(** * Chains as lists *)

Lemma seg_app (N : ptr -> ptr) p l1 l2 q :
  seg N p (l1 ++ l2) q <-> exists r, seg N p l1 r /\ seg N r l2 q.
Proof.
  revert p. induction l1 as [|a l1 IH]; intros p; simpl.
  - split; [eauto|]. intros (r & -> & H). exact H.
  - rewrite IH. split.
    + intros (-> & Ha & r & H1 & H2). eauto.
    + intros (r & (-> & Ha & H1) & H2). eauto.
Qed.

Lemma seg_frame (N N' : ptr -> ptr) p l q :
  (forall a, a ∈ l -> N' a = N a) -> seg N p l q -> seg N' p l q.
Proof.
  revert p. induction l as [|a l IH]; intros p Hf; simpl; [auto|].
  intros (-> & Ha & H). split; [reflexivity|]. split; [exact Ha|].
  rewrite (Hf a) by constructor. apply IH; [|exact H].
  intros b Hb. apply Hf. by constructor.
Qed.

Lemma seg_length_inj (N : ptr -> ptr) p l1 l2 :
  seg N p l1 NULL -> seg N p l2 NULL -> l1 = l2.
Proof.
  revert p l2. induction l1 as [|a l1 IH]; intros p [|b l2]; simpl.
  - reflexivity.
  - intros -> (Hb & Hn & _). congruence.
  - intros (Ha & Hn & _) Hp. congruence.
  - intros (-> & _ & H1) (<- & _ & H2). f_equal. eapply IH; eauto.
Qed.

(** A chain that reaches [NULL] never visits a block twice. *)
Lemma seg_NoDup (N : ptr -> ptr) p l : seg N p l NULL -> NoDup l.
Proof.
  revert p. induction l as [|a l IH]; intros p; simpl.
  - constructor.
  - intros (-> & Ha & H). constructor; [|eapply IH; eauto].
    intros Hin. apply list_elem_of_split in Hin as (l1 & l2 & ->).
    pose proof H as H'.
    apply seg_app in H as (r & _ & H2). simpl in H2.
    destruct H2 as (-> & _ & H2).
    pose proof (seg_length_inj _ _ _ _ H' H2) as Heq.
    apply (f_equal length) in Heq. rewrite length_app in Heq. simpl in Heq. lia.
Qed.

Lemma seg_head (N : ptr -> ptr) p a l q : seg N p (a :: l) q -> p = a /\ a <> NULL.
Proof. simpl. tauto. Qed.

Lemma seg_not_null (N : ptr -> ptr) p l q a : seg N p l q -> a ∈ l -> a <> NULL.
Proof.
  revert p. induction l as [|b l IH]; intros p; simpl.
  - intros _ Hin. inversion Hin.
  - intros (-> & Hb & H) Hin. apply elem_of_cons in Hin as [->|Hin]; eauto.
Qed.

Lemma last_cons_default {A} (l : list A) a d :
  List.last (a :: l) d = List.last l a.
Proof.
  revert a d. induction l as [|b l IH]; intros a d; [reflexivity|].
  change (List.last (a :: b :: l) d) with (List.last (b :: l) d).
  rewrite (IH b d), (IH b a). reflexivity.
Qed.

Lemma last_app_cons {A} (l1 : list A) a l2 d :
  List.last (l1 ++ a :: l2) d = List.last l2 a.
Proof.
  revert d. induction l1 as [|b l1 IH]; intros d.
  - apply last_cons_default.
  - change ((b :: l1) ++ a :: l2) with (b :: (l1 ++ a :: l2)).
    rewrite last_cons_default. apply IH.
Qed.

Lemma back_app (P : ptr -> ptr) from l1 l2 :
  back P from (l1 ++ l2) <-> back P from l1 /\ back P (List.last l1 from) l2.
Proof.
  revert from. induction l1 as [|a l1 IH]; intros from.
  - simpl. tauto.
  - change ((a :: l1) ++ l2) with (a :: (l1 ++ l2)).
    cbn [back]. rewrite IH.
    rewrite last_cons_default. tauto.
Qed.

Lemma back_frame (P P' : ptr -> ptr) from l :
  (forall a, a ∈ l -> P' a = P a) -> back P from l -> back P' from l.
Proof.
  revert from. induction l as [|a l IH]; intros from Hf; simpl; [auto|].
  intros (Ha & H). split.
  - rewrite Hf by constructor. exact Ha.
  - apply IH; [|exact H]. intros b Hb. apply Hf. by constructor.
Qed.

(** * Stores, field by field *)

Lemma hdr_wr_state u p st a :
  hdr (wr_state u p st) a = if decide (p = a) then u (hdr st p) else hdr st a.
Proof. unfold hdr, wr_state. cbn [mem with_mem]. apply hdr_at_insert. Qed.

(** A store that leaves field [f] alone. *)
Lemma fld_wr_same {A} (f : block_hdr_t -> A) u p st a :
  (forall h, f (u h) = f h) -> f (hdr (wr_state u p st) a) = f (hdr st a).
Proof. intros Hf. rewrite hdr_wr_state. case_decide; [subst; apply Hf|reflexivity]. Qed.

(** A store that sets field [f] to [v]. *)
Lemma fld_wr_set {A} (f : block_hdr_t -> A) u v p st a :
  (forall h, f (u h) = v) ->
  f (hdr (wr_state u p st) a) = if decide (a = p) then v else f (hdr st a).
Proof.
  intros Hf. rewrite hdr_wr_state.
  destruct (decide (a = p)) as [->|Hne].
  - rewrite decide_True by reflexivity. apply Hf.
  - rewrite decide_False by congruence. reflexivity.
Qed.

Lemma in_mem_wr_state u p st a : in_mem (wr_state u p st) a <-> a = p \/ in_mem st a.
Proof.
  unfold in_mem, wr_state. cbn [mem with_mem]. rewrite lookup_insert.
  case_decide; subst.
  - split; [auto|]. intros _. by eexists.
  - split; [auto|]. intros [->|Hin]; [congruence|exact Hin].
Qed.

Lemma in_mem_wr_keep u p st a : in_mem st a -> in_mem (wr_state u p st) a.
Proof. intros H. apply in_mem_wr_state. auto. Qed.

Lemma in_mem_wr_here u p st : in_mem (wr_state u p st) p.
Proof. apply in_mem_wr_state. auto. Qed.

Lemma in_mem_with_free_head st p a : in_mem st a -> in_mem (with_free_head p st) a.
Proof. exact id. Qed.
Lemma in_mem_with_all_tail st p a : in_mem st a -> in_mem (with_all_tail p st) a.
Proof. exact id. Qed.
Lemma in_mem_with_all_head st p a : in_mem st a -> in_mem (with_all_head p st) a.
Proof. exact id. Qed.
Lemma in_mem_with_os st o a : in_mem st a -> in_mem (with_os o st) a.
Proof. exact id. Qed.

(** Membership in memory, through the stores that led to a state. *)
Ltac mem_tac :=
  lazymatch goal with
  | |- in_mem (with_free_head _ _) _ => apply in_mem_with_free_head; mem_tac
  | |- in_mem (with_all_tail _ _) _ => apply in_mem_with_all_tail; mem_tac
  | |- in_mem (with_all_head _ _) _ => apply in_mem_with_all_head; mem_tac
  | |- in_mem (with_os _ _) _ => apply in_mem_with_os; mem_tac
  | |- in_mem (wr_state _ _ _) _ =>
      first [ apply in_mem_wr_here
            | apply in_mem_wr_keep; mem_tac ]
  | |- in_mem _ _ => assumption
  end.

Lemma hdr_with_free_head p st a : hdr (with_free_head p st) a = hdr st a.
Proof. reflexivity. Qed.
Lemma hdr_with_all_tail p st a : hdr (with_all_tail p st) a = hdr st a.
Proof. reflexivity. Qed.
Lemma hdr_with_all_head p st a : hdr (with_all_head p st) a = hdr st a.
Proof. reflexivity. Qed.
Lemma hdr_with_os o st a : hdr (with_os o st) a = hdr st a.
Proof. reflexivity. Qed.

Lemma free_head_wr u p st : free_head (wr_state u p st) = free_head st.
Proof. reflexivity. Qed.
Lemma all_head_wr u p st : all_head (wr_state u p st) = all_head st.
Proof. reflexivity. Qed.
Lemma all_tail_wr u p st : all_tail (wr_state u p st) = all_tail st.
Proof. reflexivity. Qed.
Lemma os_wr u p st : os (wr_state u p st) = os st.
Proof. reflexivity. Qed.
Lemma bytes_wr u p st : bytes (wr_state u p st) = bytes st.
Proof. reflexivity. Qed.

Lemma lookup_wr_state_ne u p st a :
  a <> p -> mem (wr_state u p st) !! a = mem st !! a.
Proof.
  intros Hne. unfold wr_state.
  cbn [mem with_mem]. apply lookup_insert_ne. congruence.
Qed.

Global Opaque wr_state.
Arguments hdr : simpl never.

Ltac heads :=
  repeat first
    [ rewrite free_head_wr | rewrite all_head_wr | rewrite all_tail_wr
    | rewrite os_wr | rewrite bytes_wr
    | progress cbn [free_head all_head all_tail os bytes mem
                    with_free_head with_all_tail with_all_head with_os with_bytes] ].

(** Read a field back through the stores that led to the current state. *)
Ltac fld_step :=
  match goal with
  | |- context [hdr (with_free_head ?p ?st) ?a] => rewrite (hdr_with_free_head p st a)
  | |- context [hdr (with_all_tail ?p ?st) ?a] => rewrite (hdr_with_all_tail p st a)
  | |- context [hdr (with_all_head ?p ?st) ?a] => rewrite (hdr_with_all_head p st a)
  | |- context [hdr (with_os ?p ?st) ?a] => rewrite (hdr_with_os p st a)
  | |- context [?f (hdr (wr_state ?u ?p ?st) ?a)] =>
      first [ rewrite (fld_wr_same f u p st a (fun _ => eq_refl))
            | rewrite (fld_wr_set f u _ p st a (fun _ => eq_refl)) ]
  end.

Ltac fld := heads; repeat (fld_step; heads).

Ltac run_rd :=
  match goal with
  | |- context [bind (rd ?f ?p) ?k ?st] =>
      rewrite (bind_run (rd f p) k st _ _
                 (rd_run f p st ltac:(mem_tac)))
  end.

Ltac run_pure :=
  match goal with
  | |- context [bind (wr ?u ?p) ?k ?st] =>
      rewrite (bind_run (wr u p) k st tt _ eq_refl)
  | |- context [bind (put ?u) ?k ?st] =>
      rewrite (bind_run (put u) k st tt _ eq_refl)
  | |- context [bind (get ?f) ?k ?st] =>
      rewrite (bind_run (get f) k st _ _ eq_refl)
  | |- context [bind (ret ?a) ?k ?st] =>
      rewrite (bind_run (ret a) k st _ _ eq_refl)
  end.

Lemma bind_assoc {A B C} (m : M A) (f : A -> M B) (g : B -> M C) st :
  bind (bind m f) g st = bind m (fun x => bind (f x) g) st.
Proof. unfold bind. destruct (m st) as [[a st1]|]; reflexivity. Qed.

Lemma bind_ret_r {A} (m : M A) st a st1 :
  m st = Some (a, st1) -> bind m ret st = Some (a, st1).
Proof. unfold bind. intros ->. reflexivity. Qed.

Ltac run_assoc :=
  match goal with
  | |- context [bind (bind ?m ?f) ?g ?st] => rewrite (bind_assoc m f g st)
  end.

Ltac run := repeat (first [run_assoc | run_rd | run_pure]; cbv beta).

Ltac conjs := repeat match goal with |- _ /\ _ => split end.

Lemma insert_free_effect st b :
  exists st', insert_free b st = Some (tt, st') /\
    links_only st st' /\
    in_mem st' b /\
    free_head st' = b /\
    (forall a, is_free (hdr st' a) = if decide (a = b) then true else is_free (hdr st a)) /\
    (forall a, next_free (hdr st' a) =
       if decide (a = b) then free_head st else next_free (hdr st a)) /\
    (forall a, prev_free (hdr st' a) =
       if decide (a = free_head st /\ free_head st <> NULL) then b
       else if decide (a = b) then NULL else prev_free (hdr st a)).
Proof.
  unfold insert_free. run. heads.
  destruct (nonnull_case (free_head st)) as [[Hfh Hnn]|[Hfh Hnn]];
    rewrite Hnn; unfold when; run.
  all: eexists; split; [reflexivity|].
  all: split; [split; try (heads; reflexivity); intros a; fld;
               try reflexivity; intros; mem_tac|].
  all: split; [mem_tac|].
  all: split; [reflexivity|].
  all: conjs; intros a; fld; repeat case_decide; try tauto; try congruence.
Qed.

Ltac links_tac :=
  split; try (heads; reflexivity); intros ?a; fld; try reflexivity;
  intros; mem_tac.

Ltac cases :=
  repeat case_decide; subst; try tauto; try congruence.

Lemma remove_free_effect st b :
  b <> NULL -> in_mem st b ->
  exists st', remove_free b st = Some (tt, st') /\
    links_only st st' /\
    free_head st' =
      (if nonnull (prev_free (hdr st b)) then free_head st
       else next_free (hdr st b)) /\
    (forall a, is_free (hdr st' a) =
       if decide (a = b) then false else is_free (hdr st a)) /\
    (forall a, next_free (hdr st' a) =
       if decide (a = b) then NULL
       else if decide (a = prev_free (hdr st b) /\ prev_free (hdr st b) <> NULL)
            then next_free (hdr st b)
            else next_free (hdr st a)) /\
    (forall a, prev_free (hdr st' a) =
       if decide (a = b) then NULL
       else if decide (a = next_free (hdr st b) /\ next_free (hdr st b) <> NULL)
            then prev_free (hdr st b)
            else prev_free (hdr st a)).
Proof.
  intros Hb Hin. unfold remove_free.
  rewrite (proj2 (nonnull_true b) Hb). cbn [negb]. run.
  destruct (nonnull_case (prev_free (hdr st b))) as [[Hpf Hpn]|[Hpf Hpn]];
    rewrite Hpn; run; fld.
  - destruct (nonnull_case (next_free (hdr st b))) as [[Hnf Hnn]|[Hnf Hnn]];
      rewrite Hnn; unfold when; run.
    all: eexists; split; [reflexivity|].
    all: split; [links_tac|].
    all: conjs; [heads; reflexivity|..]; intros a; fld; cases.
  - assert (Hnf' : (if decide (b = prev_free (hdr st b))
                    then next_free (hdr st b) else next_free (hdr st b))
                   = next_free (hdr st b)) by (case_decide; reflexivity).
    rewrite !Hnf'. clear Hnf'.
    destruct (nonnull_case (next_free (hdr st b))) as [[Hnf Hnn]|[Hnf Hnn]];
      rewrite Hnn; unfold when; run.
    all: eexists; split; [reflexivity|].
    all: split; [links_tac|].
    all: conjs; [heads; reflexivity|..]; intros a; fld; cases.
Qed.

(** * The chains under the free-list primitives *)

Lemma forall_filter_id (b : ptr) (l : list ptr) :
  b ∉ l -> filter (fun a => a <> b) l = l.
Proof.
  induction l as [|a l IH]; intros Hb; [reflexivity|].
  apply not_elem_of_cons in Hb as [Hne Hb].
  rewrite filter_cons_True by congruence. f_equal. auto.
Qed.

Lemma filter_ne_split (b : ptr) (l1 l2 : list ptr) :
  NoDup (l1 ++ b :: l2) -> filter (fun a => a <> b) (l1 ++ b :: l2) = l1 ++ l2.
Proof.
  intros Hnd. apply NoDup_app in Hnd as (_ & Hd & Hnd2).
  apply NoDup_cons in Hnd2 as (Hb2 & _).
  rewrite filter_app, filter_cons_False by tauto.
  rewrite !forall_filter_id; [reflexivity|exact Hb2|].
  intros Hin. apply (Hd b Hin). constructor.
Qed.

Lemma spatial_chain_links_only st st' l :
  links_only st st' -> spatial_chain st l -> spatial_chain st' l.
Proof.
  intros Hlo (Hseg & Hback & Htail & Hmem). split_and!.
  - rewrite (lo_all_head _ _ Hlo).
    eapply seg_frame; [|exact Hseg]. intros a _. apply (lo_next _ _ Hlo).
  - eapply back_frame; [|exact Hback]. intros a _. apply (lo_prev _ _ Hlo).
  - rewrite (lo_all_tail _ _ Hlo). exact Htail.
  - eapply Forall_impl; [exact Hmem|]. apply (lo_in_mem _ _ Hlo).
Qed.

Lemma free_chain_NoDup st fl : free_chain st fl -> NoDup fl.
Proof. intros (Hseg & _). eapply seg_NoDup. exact Hseg. Qed.

Lemma free_chain_in_mem st fl a : free_chain st fl -> a ∈ fl -> in_mem st a.
Proof. intros (_ & _ & Hm) Hin. rewrite Forall_forall in Hm. auto. Qed.

Lemma free_chain_not_null st fl a : free_chain st fl -> a ∈ fl -> a <> NULL.
Proof. intros (Hseg & _) Hin. eapply seg_not_null; eauto. Qed.

Lemma spatial_chain_NoDup st l : spatial_chain st l -> NoDup l.
Proof. intros (Hseg & _). eapply seg_NoDup. exact Hseg. Qed.

Lemma spatial_chain_in_mem st l a : spatial_chain st l -> a ∈ l -> in_mem st a.
Proof. intros (_ & _ & _ & Hm) Hin. rewrite Forall_forall in Hm. auto. Qed.

Lemma spatial_chain_not_null st l a : spatial_chain st l -> a ∈ l -> a <> NULL.
Proof. intros (Hseg & _) Hin. eapply seg_not_null; eauto. Qed.

(** The head of a chain is its first block, or [NULL]. *)
Lemma seg_start N p l : seg N p l NULL -> p = List.hd NULL l.
Proof. destruct l; simpl; tauto. Qed.

Lemma last_elem_of (l : list ptr) d : l <> [] -> List.last l d ∈ l.
Proof.
  intros Hne. destruct l as [|a l _] using rev_ind; [congruence|].
  rewrite last_app_cons. simpl. apply elem_of_app. right. constructor.
Qed.

(** Unlinking a block [b] from a doubly-linked chain. *)
Lemma chain_unlink (N P N' P' : ptr -> ptr) h l1 b l2 :
  seg N h (l1 ++ b :: l2) NULL ->
  back P NULL (l1 ++ b :: l2) ->
  (forall a, a <> b ->
     N' a = if decide (a = P b /\ P b <> NULL) then N b else N a) ->
  (forall a, a <> b ->
     P' a = if decide (a = N b /\ N b <> NULL) then P b else P a) ->
  seg N' (if nonnull (P b) then h else N b) (l1 ++ l2) NULL /\
  back P' NULL (l1 ++ l2) /\
  P b = List.last l1 NULL /\ N b = List.hd NULL l2.
Proof.
  intros Hseg Hback HN HP.
  pose proof (seg_NoDup _ _ _ Hseg) as Hnd.
  assert (Hnn : forall a, a ∈ l1 ++ b :: l2 -> a <> NULL).
  { intros a Ha. exact (seg_not_null _ _ _ _ _ Hseg Ha). }
  apply seg_app in Hseg as (r & Hseg1 & Hseg2).
  cbn [seg] in Hseg2. destruct Hseg2 as (-> & Hb & Hseg2).
  apply back_app in Hback as (Hback1 & Hback2).
  cbn [back] in Hback2. destruct Hback2 as (Hpb & Hback2).
  apply NoDup_app in Hnd as (Hnd1 & Hd & Hnd2).
  apply NoDup_cons in Hnd2 as (Hb2 & Hnd2).
  assert (Hb1 : b ∉ l1) by (intros Hi; apply (Hd b Hi); constructor).
  assert (Hd12 : forall a, a ∈ l1 -> a ∉ l2).
  { intros a H1 H2. apply (Hd a H1). by constructor. }
  assert (Hp_cases :
    (l1 = [] /\ P b = NULL) \/
    (exists g x, l1 = g ++ [x] /\ P b = x /\ x <> NULL)).
  { destruct l1 as [|x g _] using rev_ind; [left; auto|right].
    exists g, x. rewrite last_app_cons in Hpb. simpl in Hpb.
    split_and!; [reflexivity|exact Hpb|].
    apply Hnn. rewrite <- app_assoc. apply elem_of_app. right. constructor. }
  assert (Hn_cases :
    (l2 = [] /\ N b = NULL) \/
    (exists y g, l2 = y :: g /\ N b = y /\ y <> NULL)).
  { destruct l2 as [|y g]; [left; simpl in Hseg2; auto|right].
    exists y, g. simpl in Hseg2. destruct Hseg2 as (Hy & Hyn & _). auto. }
  split_and!; [| |exact Hpb|exact (seg_start _ _ _ Hseg2)].
  - (* forward links *)
    apply seg_app.
    destruct Hp_cases as [(-> & Hp0)|(g & x & -> & Hpx & Hx)].
    + exists (N b). simpl in Hseg1. split.
      * simpl. rewrite Hp0. reflexivity.
      * eapply seg_frame; [|exact Hseg2]. intros a Ha.
        rewrite HN, Hp0 by congruence. cases.
    + exists (N b).
      apply seg_app in Hseg1 as (r & Hg & Hx1). simpl in Hx1.
      destruct Hx1 as (-> & _ & Hxb). split.
      * apply seg_app. exists x. split.
        -- rewrite Hpx, (proj2 (nonnull_true x) Hx).
           eapply seg_frame; [|exact Hg]. intros a Ha.
           assert (a <> x).
           { intros ->. apply NoDup_app in Hnd1 as (_ & Hdd & _).
             apply (Hdd x Ha). constructor. }
           assert (a <> b).
           { intros ->. apply Hb1. apply elem_of_app. auto. }
           rewrite HN, Hpx by assumption. cases.
        -- simpl. split_and!; [reflexivity|exact Hx|].
           assert (x <> b).
           { intros ->. apply Hb1. apply elem_of_app. right. constructor. }
           rewrite HN, Hpx by assumption. cases.
      * eapply seg_frame; [|exact Hseg2]. intros a Ha.
        assert (a <> x).
        { intros ->. apply (Hd12 x); [|exact Ha]. apply elem_of_app. right. constructor. }
        rewrite HN, Hpx by congruence. cases.
  - (* backward links *)
    apply (proj2 (back_app _ _ _ _)). split.
    + eapply back_frame; [|exact Hback1]. intros a Ha.
      assert (a <> b) by congruence. rewrite HP by assumption.
      destruct Hn_cases as [(-> & Hn0)|(y & g & -> & Hny & Hy)].
      * rewrite Hn0. cases.
      * rewrite Hny. assert (a <> y).
        { intros ->. apply (Hd12 y Ha). constructor. }
        cases.
    + destruct Hn_cases as [(-> & Hn0)|(y & g & -> & Hny & Hy)]; [exact I|].
      cbn [back] in *. destruct Hback2 as (Hyb & Hback2).
      assert (y <> b) by (intros ->; apply Hb2; constructor).
      split.
      * rewrite HP, Hny by assumption. cases.
      * eapply back_frame; [|exact Hback2]. intros a Ha.
        assert (a <> y).
        { intros ->. apply NoDup_cons in Hnd2 as (Hy2 & _). auto. }
        assert (a <> b) by (intros ->; apply Hb2; by constructor).
        rewrite HP, Hny by assumption. cases.
Qed.

(** Unlinking a block of the free chain. *)
Lemma free_chain_remove st f1 b f2 :
  free_chain st (f1 ++ b :: f2) ->
  exists st', remove_free b st = Some (tt, st') /\
    free_chain st' (f1 ++ f2) /\
    links_only st st' /\
    (forall a, is_free (hdr st' a) =
       if decide (a = b) then false else is_free (hdr st a)) /\
    next_free (hdr st' b) = NULL /\ prev_free (hdr st' b) = NULL.
Proof.
  intros Hfc.
  assert (Hb : b <> NULL).
  { eapply free_chain_not_null; [exact Hfc|]. apply elem_of_app. right. constructor. }
  assert (Hin : in_mem st b).
  { eapply free_chain_in_mem; [exact Hfc|]. apply elem_of_app. right. constructor. }
  destruct (remove_free_effect st b Hb Hin)
    as (st' & Hrun & Hlo & Hfh & Hfree & Hnf & Hpf).
  exists st'. split; [exact Hrun|].
  destruct Hfc as (Hseg & Hback & Hmem).
  destruct (chain_unlink _ _ (fun a => next_free (hdr st' a))
              (fun a => prev_free (hdr st' a)) _ _ _ _ Hseg Hback)
    as (Hseg' & Hback' & _ & _).
  { intros a Ha. rewrite Hnf. cases. }
  { intros a Ha. rewrite Hpf. cases. }
  split_and!; [split_and!|exact Hlo|exact Hfree|..].
  - rewrite Hfh. exact Hseg'.
  - exact Hback'.
  - apply Forall_app in Hmem as (Hm1 & Hm2). apply Forall_cons in Hm2 as (_ & Hm2).
    apply Forall_app. split; (eapply Forall_impl; [eassumption|]);
      apply (lo_in_mem _ _ Hlo).
  - rewrite Hnf. cases.
  - rewrite Hpf. cases.
Qed.

(** The link of a block on a chain names the block after it. *)
Lemma seg_next_hd (N : ptr -> ptr) h l1 b l2 :
  seg N h (l1 ++ b :: l2) NULL -> N b = List.hd NULL l2.
Proof.
  intros Hseg. apply seg_app in Hseg as (r & _ & Hseg2).
  cbn [seg] in Hseg2. destruct Hseg2 as (-> & _ & Hseg2).
  exact (seg_start _ _ _ Hseg2).
Qed.

Lemma seg_next_cases (N : ptr -> ptr) h l1 b l2 :
  seg N h (l1 ++ b :: l2) NULL ->
  (l2 = [] /\ N b = NULL) \/ (exists g, l2 = N b :: g /\ N b <> NULL).
Proof.
  intros Hseg. apply seg_app in Hseg as (r & _ & Hseg2).
  cbn [seg] in Hseg2. destruct Hseg2 as (-> & _ & Hseg2).
  destruct l2 as [|y g]; [left; auto|right].
  simpl in Hseg2. destruct Hseg2 as (-> & Hy & _). eauto.
Qed.

Lemma back_prev_cases (P : ptr -> ptr) l1 b l2 :
  back P NULL (l1 ++ b :: l2) ->
  (forall a, a ∈ l1 -> a <> NULL) ->
  (l1 = [] /\ P b = NULL) \/ (exists g, l1 = g ++ [P b] /\ P b <> NULL).
Proof.
  intros Hback Hnn. apply back_app in Hback as (_ & Hback2).
  cbn [back] in Hback2. destruct Hback2 as (Hpb & _).
  destruct l1 as [|x g _] using rev_ind; [left; auto|right].
  rewrite last_app_cons in Hpb. simpl in Hpb. subst x.
  exists g. split; [reflexivity|]. apply Hnn, elem_of_app. right. constructor.
Qed.

(** Pushing a block onto the free chain. *)
Lemma free_chain_insert st fl b :
  free_chain st fl -> b ∉ fl -> b <> NULL ->
  exists st', insert_free b st = Some (tt, st') /\
    free_chain st' (b :: fl) /\
    links_only st st' /\
    (forall a, is_free (hdr st' a) =
       if decide (a = b) then true else is_free (hdr st a)).
Proof.
  intros Hfc Hbl Hb.
  pose proof (free_chain_NoDup _ _ Hfc) as Hnd.
  destruct (insert_free_effect st b)
    as (st' & Hrun & Hlo & Hinb & Hfh & Hfree & Hnf & Hpf).
  exists st'. split; [exact Hrun|].
  destruct Hfc as (Hseg & Hback & Hmem).
  split_and!; [split_and!|exact Hlo|exact Hfree].
  - cbn [seg]. split_and!; [exact Hfh|exact Hb|].
    rewrite Hnf, decide_True by reflexivity.
    eapply seg_frame; [|exact Hseg]. intros a Ha. simpl. rewrite Hnf.
    assert (a <> b) by congruence. cases.
  - cbn [back]. split.
    + rewrite Hpf. destruct fl as [|y g].
      * simpl in Hseg. rewrite Hseg. cases.
      * simpl in Hseg. destruct Hseg as (Hy & _).
        assert (b <> y) by (intros ->; apply Hbl; constructor).
        rewrite Hy. cases.
    + destruct fl as [|y g]; [exact I|].
      simpl in Hseg. destruct Hseg as (Hy & Hyn & _).
      cbn [back] in *. destruct Hback as (Hpy & Hback). split.
      * rewrite Hpf, Hy. cases.
      * eapply back_frame; [|exact Hback]. intros a Ha. simpl.
        rewrite Hpf, Hy.
        assert (a <> y).
        { intros ->. apply NoDup_cons in Hnd as (Hy2 & _). auto. }
        assert (a <> b) by (intros ->; apply Hbl; by constructor).
        cases.
  - constructor; [exact Hinb|].
    eapply Forall_impl; [exact Hmem|]. apply (lo_in_mem _ _ Hlo).
Qed.

(** * First-fit search *)

Lemma find_free_loop_first_fit st n l :
  forall fuel p,
  seg (fun a => next_free (hdr st a)) p l NULL ->
  Forall (in_mem st) l ->
  (length l < fuel)%nat ->
  find_free_loop fuel n p st = Some (first_fit st n l, st).
Proof.
  induction l as [|a l IH]; intros fuel p Hseg Hmem Hfuel.
  - simpl in Hseg. subst p. destruct fuel as [|fuel]; [simpl in Hfuel; lia|].
    reflexivity.
  - destruct fuel as [|fuel]; [simpl in Hfuel; lia|].
    simpl in Hseg. destruct Hseg as (-> & Ha & Hseg).
    apply Forall_cons in Hmem as (Hina & Hmem).
    cbn [find_free_loop first_fit].
    rewrite (proj2 (nonnull_true a) Ha). cbn [negb]. run.
    destruct (size (hdr st a) >=? n); [reflexivity|].
    run. apply IH; [exact Hseg|exact Hmem|simpl in Hfuel; lia].
Qed.

Lemma first_fit_spec st n l :
  (first_fit st n l = NULL /\ forall a, a ∈ l -> size (hdr st a) < n) \/
  (exists l1 l2, l = l1 ++ first_fit st n l :: l2 /\
     n <= size (hdr st (first_fit st n l)) /\
     forall a, a ∈ l1 -> size (hdr st a) < n).
Proof.
  induction l as [|a l IH]; simpl.
  - left. split; [reflexivity|]. intros a Ha. inversion Ha.
  - destruct (Z.geb_spec (size (hdr st a)) n) as [Hge|Hlt].
    + right. exists [], l. split_and!; [reflexivity|lia|].
      intros x Hx. inversion Hx.
    + destruct IH as [(Hnull & Hall)|(l1 & l2 & Hl & Hsz & Hall)].
      * left. split; [exact Hnull|]. intros x Hx.
        apply elem_of_cons in Hx as [->|Hx]; [lia|auto].
      * right. exists (a :: l1), l2. split_and!.
        -- simpl. f_equal. exact Hl.
        -- exact Hsz.
        -- intros x Hx. apply elem_of_cons in Hx as [->|Hx]; [lia|auto].
Qed.

(** C5: [find_free_block n] walks the free chain from [free_head] and
    returns the first block whose size is at least [n], or [NULL] when no
    block on the chain is large enough.  The blocks after the first match
    ([l2] below) play no part: the first match wins even when a later
    block is a closer fit.  The search leaves the state unchanged, and
    fuel beyond the length of the chain suffices. *)
Theorem find_free_block_first_fit st fl n fuel :
  free_chain st fl ->
  (length fl < fuel)%nat ->
  exists r, find_free_block fuel n st = Some (r, st) /\
    ((r = NULL /\ forall a, a ∈ fl -> size (hdr st a) < n) \/
     (exists l1 l2, fl = l1 ++ r :: l2 /\
        n <= size (hdr st r) /\
        forall a, a ∈ l1 -> size (hdr st a) < n)).
Proof.
  intros (Hseg & _ & Hmem) Hfuel.
  exists (first_fit st n fl). split.
  - unfold find_free_block. run.
    apply find_free_loop_first_fit; assumption.
  - apply first_fit_spec.
Qed.

Lemma free_chain_frame st st' fl :
  free_head st' = free_head st ->
  (forall a, a ∈ fl ->
     next_free (hdr st' a) = next_free (hdr st a) /\
     prev_free (hdr st' a) = prev_free (hdr st a)) ->
  (forall a, in_mem st a -> in_mem st' a) ->
  free_chain st fl -> free_chain st' fl.
Proof.
  intros Hfh Hf Hm (Hseg & Hback & Hmem). split_and!.
  - rewrite Hfh. eapply seg_frame; [|exact Hseg]. intros a Ha. apply Hf, Ha.
  - eapply back_frame; [|exact Hback]. intros a Ha. apply Hf, Ha.
  - eapply Forall_impl; [exact Hmem|]. exact Hm.
Qed.

Lemma if_decide_same {A} (P : Prop) `{Decision P} (x : A) :
  (if decide P then x else x) = x.
Proof. destruct (decide P); reflexivity. Qed.

(** Settle the address comparisons that the hypotheses decide. *)
Ltac decide_hyps :=
  repeat first
    [ rewrite if_decide_same
    | match goal with
      | |- context [decide (?x = ?x)] =>
          rewrite (decide_True (P := x = x)) by reflexivity
      | H : ?x <> ?y |- context [decide (?x = ?y)] =>
          rewrite (decide_False (P := x = y)) by exact H
      | H : ?x <> ?y |- context [decide (?y = ?x)] =>
          rewrite (decide_False (P := y = x)) by (intros ?; apply H; congruence)
      end ].

Lemma split_threshold n :
  0 <= n -> n + hdr_size + MIN_SPLIT_SIZE <= SIZE_MAX ->
  size_add (size_add n hdr_size) MIN_SPLIT_SIZE = n + hdr_size + MIN_SPLIT_SIZE.
Proof.
  intros H0 H1. unfold size_add. rewrite hdr_size_val in *.
  unfold MIN_SPLIT_SIZE in *.
  rewrite (wrap_small (n + 48)) by lia. apply wrap_small. lia.
Qed.

Lemma split_leftover bs n :
  0 <= n -> n + hdr_size + MIN_SPLIT_SIZE <= bs -> bs <= SIZE_MAX ->
  size_sub (size_sub bs n) hdr_size = bs - n - hdr_size.
Proof.
  intros H0 H1 H2. unfold size_sub. rewrite hdr_size_val in *.
  unfold MIN_SPLIT_SIZE in *.
  rewrite (wrap_small (bs - n)) by lia. apply wrap_small. lia.
Qed.

(** Linking a new block [c] into a doubly-linked chain right after [b]. *)
Lemma chain_insert_after (N P N' P' : ptr -> ptr) h l1 b c l2 :
  seg N h (l1 ++ b :: l2) NULL ->
  back P NULL (l1 ++ b :: l2) ->
  c <> NULL -> c ∉ l1 ++ b :: l2 ->
  (forall a, N' a = if decide (a = b) then c
                    else if decide (a = c) then N b else N a) ->
  (forall a, P' a = if decide (a = c) then b
                    else if decide (a = N b /\ N b <> NULL) then c else P a) ->
  seg N' h (l1 ++ b :: c :: l2) NULL /\ back P' NULL (l1 ++ b :: c :: l2).
Proof.
  intros Hseg Hback Hc Hcl HN HP.
  pose proof (seg_NoDup _ _ _ Hseg) as Hnd.
  apply NoDup_app in Hnd as (Hnd1 & Hd & Hnd2).
  apply NoDup_cons in Hnd2 as (Hb2 & Hnd2).
  assert (Hb1 : b ∉ l1) by (intros Hi; apply (Hd b Hi); constructor).
  assert (Hcb : c <> b) by (intros ->; apply Hcl, elem_of_app; right; constructor).
  assert (Hc1 : c ∉ l1) by (intros Hi; apply Hcl, elem_of_app; auto).
  assert (Hc2 : c ∉ l2) by (intros Hi; apply Hcl, elem_of_app; right; by constructor).
  apply seg_app in Hseg as (r & Hseg1 & Hseg2).
  cbn [seg] in Hseg2. destruct Hseg2 as (-> & Hb & Hseg2).
  apply back_app in Hback as (Hback1 & Hback2).
  cbn [back] in Hback2. destruct Hback2 as (Hpb & Hback2).
  assert (Hnb : (l2 = [] /\ N b = NULL) \/
                (exists y g, l2 = y :: g /\ N b = y /\ y <> NULL)).
  { destruct l2 as [|y g]; [left; simpl in Hseg2; auto|right].
    exists y, g. simpl in Hseg2. destruct Hseg2 as (Hy & Hyn & _). auto. }
  split.
  - apply seg_app. exists b. split.
    + eapply seg_frame; [|exact Hseg1]. intros a Ha. rewrite HN.
      assert (a <> b) by congruence. assert (a <> c) by congruence. cases.
    + cbn [seg]. split_and!; [reflexivity|exact Hb| |exact Hc|].
      * rewrite HN. cases.
      * rewrite (HN c). decide_hyps.
        eapply seg_frame; [|exact Hseg2]. intros a Ha. rewrite HN.
        assert (a <> b) by congruence. assert (a <> c) by congruence. cases.
  - apply (proj2 (back_app _ _ _ _)). split.
    + eapply back_frame; [|exact Hback1]. intros a Ha. rewrite HP.
      assert (a <> c) by congruence.
      destruct Hnb as [(-> & Hn0)|(y & g & -> & Hny & Hy)].
      * rewrite Hn0. cases.
      * rewrite Hny. assert (a <> y).
        { intros ->. apply (Hd y Ha). right. constructor. }
        cases.
    + cbn [back]. split_and!.
      * rewrite HP. rewrite Hpb.
        destruct Hnb as [(-> & Hn0)|(y & g & -> & Hny & Hy)].
        -- rewrite Hn0. cases.
        -- rewrite Hny. assert (b <> y) by (intros ->; apply Hb2; constructor).
           cases.
      * rewrite HP. cases.
      * destruct Hnb as [(-> & Hn0)|(y & g & -> & Hny & Hy)]; [exact I|].
        cbn [back] in *. destruct Hback2 as (Hyb & Hback2). split.
        -- rewrite HP, Hny. assert (y <> c) by (intros ->; apply Hc2; constructor).
           cases.
        -- eapply back_frame; [|exact Hback2]. intros a Ha. rewrite HP, Hny.
           assert (a <> c) by (intros ->; apply Hc2; by constructor).
           assert (a <> y).
           { intros ->. apply NoDup_cons in Hnd2 as (Hy2 & _). auto. }
           cases.
Qed.

(** C3: [split_block b n], for a block [b] of the spatial chain and a
    request [0 <= n <= b->size], splits exactly when
    [b->size >= n + hdr_size + MIN_SPLIT_SIZE] and otherwise leaves the
    state as it is.  When it splits, the new block sits at
    [payload_of b + n], has size [b->size - n - hdr_size], is free and not
    mapped, follows [b] on the spatial chain (whose tail is updated when
    [b] was last), heads the free chain, and [b->size] becomes [n]; the
    flags of [b] and every other block are as before.  The hypotheses say
    that [b] is a real block: its address is positive, its size is a
    [size_t], the threshold sum does not wrap, and no block of either
    chain has its header inside the payload of [b]. *)
Theorem split_block_spec st b n l1 l2 fl :
  spatial_chain st (l1 ++ b :: l2) ->
  free_chain st fl ->
  0 < b ->
  0 <= n <= size (hdr st b) ->
  size (hdr st b) <= SIZE_MAX ->
  n + hdr_size + MIN_SPLIT_SIZE <= SIZE_MAX ->
  (forall a, (a ∈ l1 ++ b :: l2) \/ (a ∈ fl) ->
     ~ (payload_of b <= a < payload_of b + size (hdr st b))) ->
  let new_hdr := payload_of b + n in
  if decide (n + hdr_size + MIN_SPLIT_SIZE <= size (hdr st b)) then
    exists st', split_block b n st = Some (tt, st') /\
      spatial_chain st' (l1 ++ b :: new_hdr :: l2) /\
      free_chain st' (new_hdr :: fl) /\
      size (hdr st' new_hdr) = size (hdr st b) - n - hdr_size /\
      is_free (hdr st' new_hdr) = true /\
      is_mmap (hdr st' new_hdr) = false /\
      size (hdr st' b) = n /\
      is_free (hdr st' b) = is_free (hdr st b) /\
      is_mmap (hdr st' b) = is_mmap (hdr st b) /\
      (forall a, a <> b -> a <> new_hdr ->
         size (hdr st' a) = size (hdr st a) /\
         is_free (hdr st' a) = is_free (hdr st a) /\
         is_mmap (hdr st' a) = is_mmap (hdr st a)) /\
      all_head st' = all_head st /\ os st' = os st /\ bytes st' = bytes st
  else split_block b n st = Some (tt, st).
Proof.
  intros Hsc Hfc Hb0 Hn Hmax Hnowrap Hclear new_hdr.
  assert (Hbin : b ∈ l1 ++ b :: l2) by (apply elem_of_app; right; constructor).
  pose proof (spatial_chain_in_mem _ _ _ Hsc Hbin) as Hinb.
  unfold split_block. run.
  rewrite split_threshold by lia.
  case_decide as Hsplit.
  2: { destruct (Z.ltb_spec (size (hdr st b)) (n + hdr_size + MIN_SPLIT_SIZE));
       [reflexivity|lia]. }
  destruct (Z.ltb_spec (size (hdr st b)) (n + hdr_size + MIN_SPLIT_SIZE))
    as [?|_]; [lia|].
  run. rewrite split_leftover by lia.
  fold new_hdr.
  assert (Hnew_b : new_hdr <> b).
  { unfold new_hdr, payload_of, sizeof_block_hdr_t. lia. }
  assert (Hnew0 : new_hdr <> NULL).
  { unfold new_hdr, payload_of, sizeof_block_hdr_t, NULL. lia. }
  assert (Hfresh : forall a, a ∈ l1 ++ b :: l2 \/ a ∈ fl -> a <> new_hdr).
  { intros a Ha ->. apply (Hclear _ Ha). unfold new_hdr.
    rewrite hdr_size_val in *. unfold MIN_SPLIT_SIZE in *. lia. }
  run. fld. decide_hyps.
  set (bn := next (hdr st b)).
  assert (Hbn : (l2 = [] /\ bn = NULL) \/ (exists g, l2 = bn :: g /\ bn <> NULL)).
  { destruct Hsc as (Hseg & _). exact (seg_next_cases _ _ _ _ _ Hseg). }
  assert (Hbn_new : bn <> new_hdr).
  { destruct Hbn as [(_ & ->)|(g & -> & _)]; [congruence|].
    apply Hfresh. left. apply elem_of_app. right. right. constructor. }
  (* the state just before the final [insert_free] *)
  assert (exists st1,
    (forall k : M unit,
     ((if nonnull bn then wr (with_prev new_hdr) bn
       else put (with_all_tail new_hdr));;
      wr (with_next new_hdr) b;; wr (with_size n) b;;
      wr (with_prev_free NULL) new_hdr;; wr (with_next_free NULL) new_hdr;;
      k)
       (wr_state (with_prev b) new_hdr
          (wr_state (with_next bn) new_hdr
             (wr_state (with_is_mmap false) new_hdr
                (wr_state (with_is_free true) new_hdr
                   (wr_state (with_size (size (hdr st b) - n - hdr_size))
                      new_hdr st))))) = k st1) /\
    (forall a, next (hdr st1 a) =
       if decide (a = b) then new_hdr
       else if decide (a = new_hdr) then bn else next (hdr st a)) /\
    (forall a, prev (hdr st1 a) =
       if decide (a = new_hdr) then b
       else if decide (a = bn /\ bn <> NULL) then new_hdr else prev (hdr st a)) /\
    (forall a, size (hdr st1 a) =
       if decide (a = b) then n
       else if decide (a = new_hdr) then size (hdr st b) - n - hdr_size
       else size (hdr st a)) /\
    (forall a, is_free (hdr st1 a) =
       if decide (a = new_hdr) then true else is_free (hdr st a)) /\
    (forall a, is_mmap (hdr st1 a) =
       if decide (a = new_hdr) then false else is_mmap (hdr st a)) /\
    (forall a, a <> new_hdr ->
       next_free (hdr st1 a) = next_free (hdr st a) /\
       prev_free (hdr st1 a) = prev_free (hdr st a)) /\
    (forall a, in_mem st a -> in_mem st1 a) /\
    all_tail st1 = (if nonnull bn then all_tail st else new_hdr) /\
    all_head st1 = all_head st /\ free_head st1 = free_head st /\
    os st1 = os st /\ bytes st1 = bytes st) as Hst1.
  { destruct (nonnull_case bn) as [[Hb0' Hbnn]|[Hb0' Hbnn]]; rewrite Hbnn.
    all: eexists; split; [intros k; run; reflexivity|].
    all: split_and!; try (heads; reflexivity).
    all: try solve [intros a; fld; cases].
    all: try solve [intros a Ha; fld; decide_hyps; auto].
    all: try solve [intros a Ha; mem_tac]. }
  destruct Hst1 as (st1 & Hrun1 & Hnext & Hprev & Hsize & Hfree & Hmmap & Hfl
                    & Hmem1 & Htail1 & Hhead1 & Hfh1 & Hos1 & Hbytes1).
  (* the free chain is untouched so far, and takes the new block *)
  assert (Hfc1 : free_chain st1 fl).
  { eapply free_chain_frame; [exact Hfh1| |exact Hmem1|exact Hfc].
    intros a Ha. apply Hfl, Hfresh. auto. }
  destruct (free_chain_insert st1 fl new_hdr Hfc1) as (st' & Hrun' & Hfc' & Hlo & Hfree').
  { intros Hin. eapply Hfresh; [right; exact Hin|reflexivity]. }
  { exact Hnew0. }
  exists st'. split; [rewrite Hrun1; exact Hrun'|].
  destruct Hsc as (Hseg & Hback & Htail & Hmem).
  destruct (chain_insert_after _ _ (fun a => next (hdr st' a))
              (fun a => prev (hdr st' a)) _ _ _ new_hdr _ Hseg Hback Hnew0)
    as (Hseg' & Hback').
  { intros Hin. eapply Hfresh; [left; exact Hin|reflexivity]. }
  { intros a. rewrite (lo_next _ _ Hlo). apply Hnext. }
  { intros a. rewrite (lo_prev _ _ Hlo). apply Hprev. }
  split_and!.
  - split_and!.
    + rewrite (lo_all_head _ _ Hlo), Hhead1. exact Hseg'.
    + exact Hback'.
    + rewrite (lo_all_tail _ _ Hlo), Htail1.
      rewrite last_app_cons, last_cons_default.
      rewrite last_app_cons in Htail.
      destruct Hbn as [(-> & Hbn0)|(g & -> & Hbn1)].
      * rewrite (proj2 (nonnull_false bn) Hbn0). reflexivity.
      * rewrite (proj2 (nonnull_true bn) Hbn1), Htail.
        rewrite !last_cons_default. reflexivity.
    + rewrite Forall_forall in Hmem.
      rewrite Forall_forall. intros a Ha.
      destruct Hfc' as (_ & _ & Hm'). rewrite Forall_forall in Hm'.
      rewrite elem_of_app, !elem_of_cons in Ha.
      destruct Ha as [Ha|[->|[->|Ha]]].
      * apply (lo_in_mem _ _ Hlo), Hmem1, Hmem, elem_of_app. auto.
      * apply (lo_in_mem _ _ Hlo), Hmem1, Hinb.
      * apply Hm'. constructor.
      * apply (lo_in_mem _ _ Hlo), Hmem1, Hmem, elem_of_app. right. by constructor.
  - exact Hfc'.
  - rewrite (lo_size _ _ Hlo), Hsize. decide_hyps. reflexivity.
  - rewrite Hfree'. decide_hyps. reflexivity.
  - rewrite (lo_is_mmap _ _ Hlo), Hmmap. decide_hyps. reflexivity.
  - rewrite (lo_size _ _ Hlo), Hsize. decide_hyps. reflexivity.
  - rewrite Hfree', Hfree. decide_hyps. reflexivity.
  - rewrite (lo_is_mmap _ _ Hlo), Hmmap. decide_hyps. reflexivity.
  - intros a Hab Han.
    rewrite (lo_size _ _ Hlo), Hsize, Hfree', Hfree, (lo_is_mmap _ _ Hlo), Hmmap.
    decide_hyps. auto.
  - rewrite (lo_all_head _ _ Hlo). exact Hhead1.
  - rewrite (lo_os _ _ Hlo). exact Hos1.
  - rewrite (lo_bytes _ _ Hlo). exact Hbytes1.
Qed.

Lemma without_split x l1 l2 :
  NoDup (l1 ++ x :: l2) -> without x (l1 ++ x :: l2) = l1 ++ l2.
Proof. apply filter_ne_split. Qed.

Lemma elem_of_without x a l : a ∈ without x l <-> a ∈ l /\ a <> x.
Proof. unfold without. rewrite list_elem_of_filter. tauto. Qed.

Lemma free_chain_remove_elem st fl b :
  free_chain st fl -> b ∈ fl ->
  exists st', remove_free b st = Some (tt, st') /\
    free_chain st' (without b fl) /\
    links_only st st' /\
    (forall a, is_free (hdr st' a) =
       if decide (a = b) then false else is_free (hdr st a)).
Proof.
  intros Hfc Hin. pose proof (free_chain_NoDup _ _ Hfc) as Hnd.
  apply list_elem_of_split in Hin as (f1 & f2 & ->).
  rewrite without_split by exact Hnd.
  destruct (free_chain_remove _ _ _ _ Hfc) as (st' & H1 & H2 & H3 & H4 & _).
  eauto.
Qed.

Lemma wrap_add_r x y : wrap (x + wrap y) = wrap (x + y).
Proof. unfold wrap. rewrite Zplus_mod_idemp_r. reflexivity. Qed.

(** C4: [coalesce_with_prev b].  When the spatial predecessor [p] of [b]
    exists, is free and is not mapped (and both are on the free chain, as
    they are inside [mm_free]), both leave the free chain, [p] grows by
    [hdr_size + b->size], [b] leaves the spatial chain (the tail becoming
    [p] when [b] was last), [p] is pushed back at the head of the free
    chain, and [p] is returned.  Otherwise nothing changes and [b] is
    returned. *)
Theorem coalesce_with_prev_spec st b l1 l2 fl :
  spatial_chain st (l1 ++ b :: l2) ->
  free_chain st fl ->
  let p := prev (hdr st b) in
  if nonnull p && is_free (hdr st p) && negb (is_mmap (hdr st p)) then
    b ∈ fl -> p ∈ fl ->
    exists st' g, l1 = g ++ [p] /\
      coalesce_with_prev b st = Some (p, st') /\
      free_chain st' (p :: without p (without b fl)) /\
      spatial_chain st' (g ++ p :: l2) /\
      size (hdr st' p) = wrap (size (hdr st p) + hdr_size + size (hdr st b)) /\
      is_free (hdr st' p) = true /\
      (forall a, a <> p ->
         size (hdr st' a) = size (hdr st a) /\
         is_mmap (hdr st' a) = is_mmap (hdr st a) /\
         is_free (hdr st' a) =
           if decide (a = b) then false else is_free (hdr st a)) /\
      is_mmap (hdr st' p) = false /\
      all_head st' = all_head st /\ os st' = os st /\ bytes st' = bytes st
  else coalesce_with_prev b st = Some (b, st).
Proof.
  intros Hsc Hfc p.
  assert (Hbin : b ∈ l1 ++ b :: l2) by (apply elem_of_app; right; constructor).
  pose proof (spatial_chain_in_mem _ _ _ Hsc Hbin) as Hinb.
  pose proof (spatial_chain_NoDup _ _ Hsc) as Hnd.
  destruct Hsc as (Hseg & Hback & Htail & Hmem).
  assert (Hp : (l1 = [] /\ p = NULL) \/ (exists g, l1 = g ++ [p] /\ p <> NULL)).
  { apply (back_prev_cases _ _ _ _ Hback). intros a Ha.
    apply (seg_not_null _ _ _ _ _ Hseg), elem_of_app. auto. }
  unfold coalesce_with_prev. run. fold p.
  destruct Hp as [(-> & Hp0)|(g & -> & Hp1)].
  { rewrite (proj2 (nonnull_false p) Hp0). reflexivity. }
  rewrite (proj2 (nonnull_true p) Hp1). cbn [negb andb].
  assert (Hinp : in_mem st p).
  { rewrite Forall_forall in Hmem. apply Hmem.
    rewrite <- app_assoc. apply elem_of_app. right. constructor. }
  run.
  destruct (is_free (hdr st p)) eqn:Hpfree; cbn [negb andb]; [|reflexivity].
  run.
  destruct (is_mmap (hdr st p)) eqn:Hpmap; cbn [negb]; [reflexivity|].
  intros Hbfl Hpfl.
  assert (Hpb : p <> b).
  { intros Heq. rewrite <- app_assoc in Hnd. apply NoDup_app in Hnd as (_ & _ & Hnd).
    apply NoDup_cons in Hnd as (Hnd & _). apply Hnd. rewrite Heq. constructor. }
  (* the two removals from the free chain *)
  destruct (free_chain_remove_elem _ _ _ Hfc Hbfl) as (st1 & Hrun1 & Hfc1 & Hlo1 & Hfree1).
  assert (Hpfl1 : p ∈ without b fl) by (apply elem_of_without; auto).
  destruct (free_chain_remove_elem _ _ _ Hfc1 Hpfl1) as (st2 & Hrun2 & Hfc2 & Hlo2 & Hfree2).
  rewrite (bind_run _ _ _ _ _ Hrun1), (bind_run _ _ _ _ _ Hrun2).
  assert (Hinb2 : in_mem st2 b) by (apply (lo_in_mem _ _ Hlo2), (lo_in_mem _ _ Hlo1), Hinb).
  assert (Hinp2 : in_mem st2 p) by (apply (lo_in_mem _ _ Hlo2), (lo_in_mem _ _ Hlo1), Hinp).
  run. fld. decide_hyps.
  rewrite !(lo_size _ _ Hlo2), !(lo_size _ _ Hlo1).
  rewrite !(lo_next _ _ Hlo2), !(lo_next _ _ Hlo1).
  set (bn := next (hdr st b)).
  assert (Hbn : (l2 = [] /\ bn = NULL) \/ (exists g', l2 = bn :: g' /\ bn <> NULL)).
  { exact (seg_next_cases _ _ _ _ _ Hseg). }
  (* the state just before the final [insert_free] *)
  assert (exists st3,
    (forall k : M ptr,
      ((if nonnull bn then wr (with_prev p) bn else put (with_all_tail p));; k)
        (wr_state (with_next bn) p
           (wr_state
              (with_size
                 (size_add (size (hdr st p))
                    (size_add hdr_size (size (hdr st b))))) p st2)) = k st3) /\
    (forall a, next (hdr st3 a) = if decide (a = p) then bn else next (hdr st a)) /\
    (forall a, prev (hdr st3 a) =
       if decide (a = bn /\ bn <> NULL) then p else prev (hdr st a)) /\
    (forall a, size (hdr st3 a) =
       if decide (a = p)
       then size_add (size (hdr st p)) (size_add hdr_size (size (hdr st b)))
       else size (hdr st a)) /\
    (forall a, is_free (hdr st3 a) = is_free (hdr st2 a)) /\
    (forall a, is_mmap (hdr st3 a) = is_mmap (hdr st a)) /\
    (forall a, next_free (hdr st3 a) = next_free (hdr st2 a) /\
               prev_free (hdr st3 a) = prev_free (hdr st2 a)) /\
    (forall a, in_mem st2 a -> in_mem st3 a) /\
    all_tail st3 = (if nonnull bn then all_tail st else p) /\
    all_head st3 = all_head st /\ free_head st3 = free_head st2 /\
    os st3 = os st /\ bytes st3 = bytes st) as Hst3.
  { destruct (nonnull_case bn) as [[Hb0' Hbnn]|[Hb0' Hbnn]]; rewrite Hbnn.
    all: eexists; split; [intros k; run; reflexivity|].
    all: split_and!.
    all: try solve [heads; rewrite ?(lo_all_tail _ _ Hlo2), ?(lo_all_head _ _ Hlo2),
                      ?(lo_os _ _ Hlo2), ?(lo_bytes _ _ Hlo2),
                      ?(lo_all_tail _ _ Hlo1), ?(lo_all_head _ _ Hlo1),
                      ?(lo_os _ _ Hlo1), ?(lo_bytes _ _ Hlo1); reflexivity].
    all: try solve [intros a; fld;
                    rewrite ?(lo_next _ _ Hlo2), ?(lo_next _ _ Hlo1),
                      ?(lo_prev _ _ Hlo2), ?(lo_prev _ _ Hlo1),
                      ?(lo_size _ _ Hlo2), ?(lo_size _ _ Hlo1),
                      ?(lo_is_mmap _ _ Hlo2), ?(lo_is_mmap _ _ Hlo1); cases].
    all: try solve [intros a Ha; mem_tac]. }
  destruct Hst3 as (st3 & Hrun3 & Hnext & Hprev & Hsize & Hfree & Hmmap & Hfl
                    & Hmem3 & Htail3 & Hhead3 & Hfh3 & Hos3 & Hbytes3).
  rewrite Hrun3.
  assert (Hfc3 : free_chain st3 (without p (without b fl))).
  { eapply free_chain_frame; [exact Hfh3| |exact Hmem3|exact Hfc2].
    intros a _. apply Hfl. }
  destruct (free_chain_insert st3 _ p Hfc3) as (st' & Hrun' & Hfc' & Hlo & Hfree').
  { intros Hin. apply elem_of_without in Hin as (_ & Hne). congruence. }
  { exact Hp1. }
  rewrite (bind_run _ _ _ _ _ Hrun').
  exists st', g. split; [reflexivity|]. split; [reflexivity|].
  destruct (chain_unlink _ _ (fun a => next (hdr st' a))
              (fun a => prev (hdr st' a)) _ _ _ _ Hseg Hback)
    as (Hseg' & Hback' & _ & _).
  { intros a Ha. rewrite (lo_next _ _ Hlo), Hnext. fold p. fold bn. cases. }
  { intros a Ha. rewrite (lo_prev _ _ Hlo), Hprev. fold p. fold bn. cases. }
  fold p in Hseg'. rewrite (proj2 (nonnull_true p) Hp1) in Hseg'.
  rewrite <- !app_assoc in *. cbn [app] in *.
  split_and!.
  - exact Hfc'.
  - split_and!.
    + rewrite (lo_all_head _ _ Hlo), Hhead3. exact Hseg'.
    + exact Hback'.
    + rewrite (lo_all_tail _ _ Hlo), Htail3.
      rewrite last_app_cons. rewrite !last_app_cons in Htail.
      destruct Hbn as [(-> & Hbn0)|(g' & -> & Hbn1)].
      * rewrite (proj2 (nonnull_false bn) Hbn0). reflexivity.
      * rewrite (proj2 (nonnull_true bn) Hbn1), Htail.
        rewrite !last_cons_default. reflexivity.
    + rewrite Forall_forall in Hmem. rewrite Forall_forall. intros a Ha.
      apply (lo_in_mem _ _ Hlo), Hmem3, (lo_in_mem _ _ Hlo2), (lo_in_mem _ _ Hlo1), Hmem.
      rewrite elem_of_app, !elem_of_cons in *. tauto.
  - rewrite (lo_size _ _ Hlo), Hsize. decide_hyps.
    unfold size_add. rewrite wrap_add_r. f_equal. lia.
  - rewrite Hfree'. decide_hyps. reflexivity.
  - intros a Ha. rewrite (lo_size _ _ Hlo), Hsize, (lo_is_mmap _ _ Hlo), Hmmap.
    rewrite Hfree', Hfree, Hfree2, Hfree1. decide_hyps. auto.
  - rewrite (lo_is_mmap _ _ Hlo), Hmmap. exact Hpmap.
  - rewrite (lo_all_head _ _ Hlo). exact Hhead3.
  - rewrite (lo_os _ _ Hlo). exact Hos3.
  - rewrite (lo_bytes _ _ Hlo). exact Hbytes3.
Qed.

Section Release.

Variable pol : os_policy.

Lemma to_ssize_small z : 0 <= z < 2 ^ 63 -> to_ssize z = z.
Proof.
  intros Hz. unfold to_ssize. rewrite wrap_small by (unfold SIZE_MAX; rewrite SIZE_MOD_val; lia).
  change (2 ^ (SIZE_WIDTH - 1)) with (2 ^ 63).
  destruct (Z.ltb_spec z (2 ^ 63)); [reflexivity|lia].
Qed.

Lemma brk_run addr st :
  brk pol addr st =
  Some (brk_ok pol (os st) addr,
        with_os (if brk_ok pol (os st) addr
                 then mk_os addr (maps (os st)) (S (os_clock (os st)))
                 else tick (os st)) st).
Proof. unfold brk, os_brk. destruct (brk_ok pol (os st) addr); reflexivity. Qed.

Lemma sbrk_run delta st :
  sbrk pol delta st =
  Some (if sbrk_ok pol (os st) delta then Some (cur_brk (os st)) else None,
        with_os (if sbrk_ok pol (os st) delta
                 then mk_os (cur_brk (os st) + delta) (maps (os st))
                            (S (os_clock (os st)))
                 else tick (os st)) st).
Proof. unfold sbrk, os_sbrk. destruct (sbrk_ok pol (os st) delta); reflexivity. Qed.



End Release.

Lemma find_free_loop_inv st n l :
  forall fuel p r st',
  find_free_loop fuel n p st = Some (r, st') ->
  seg (fun a => next_free (hdr st a)) p l NULL ->
  Forall (in_mem st) l ->
  r = first_fit st n l /\ st' = st.
Proof.
  induction l as [|a l IH]; intros fuel p r st' Hrun Hseg Hmem.
  - simpl in Hseg. subst p. destruct fuel as [|fuel]; [discriminate|].
    cbn in Hrun. injection Hrun as <- <-. auto.
  - destruct fuel as [|fuel]; [discriminate|].
    simpl in Hseg. destruct Hseg as (-> & Ha & Hseg).
    apply Forall_cons in Hmem as (Hina & Hmem).
    revert Hrun. cbn [find_free_loop first_fit].
    rewrite (proj2 (nonnull_true a) Ha). cbn [negb]. run.
    destruct (size (hdr st a) >=? n).
    + intros [= <- <-]. auto.
    + run. intros Hrun. eapply IH; eauto.
Qed.

Lemma first_fit_elem st n l :
  first_fit st n l <> NULL ->
  first_fit st n l ∈ l /\ n <= size (hdr st (first_fit st n l)).
Proof.
  intros Hnn. destruct (first_fit_spec st n l) as [(H0 & _)|(l1 & l2 & Hl & Hsz & _)].
  - congruence.
  - split; [|exact Hsz]. rewrite Hl at 2. apply elem_of_app. right. constructor.
Qed.

(** What [split_block] does to the block it is given, whatever the state
    of the chains. *)
Lemma split_block_header st b n :
  in_mem st b -> 0 <= n ->
  exists st', split_block b n st = Some (tt, st') /\
    in_mem st' b /\
    is_free (hdr st' b) = is_free (hdr st b) /\
    is_mmap (hdr st' b) = is_mmap (hdr st b) /\
    size (hdr st' b) =
      (if size (hdr st b) <? size_add (size_add n hdr_size) MIN_SPLIT_SIZE
       then size (hdr st b) else n).
Proof.
  intros Hin Hn. unfold split_block. run.
  destruct (size (hdr st b) <? size_add (size_add n hdr_size) MIN_SPLIT_SIZE).
  { exists st. auto. }
  set (new_hdr := payload_of b + n).
  assert (Hnew_b : new_hdr <> b).
  { unfold new_hdr, payload_of, sizeof_block_hdr_t. lia. }
  run. fld. decide_hyps.
  set (bn := next (hdr st b)).
  destruct (insert_free_effect
    (wr_state (with_next_free NULL) new_hdr
       (wr_state (with_prev_free NULL) new_hdr
          (wr_state (with_size n) b
             (wr_state (with_next new_hdr) b
                ((if nonnull bn then wr_state (with_prev new_hdr) bn
                  else with_all_tail new_hdr)
                   (wr_state (with_prev b) new_hdr
                      (wr_state (with_next bn) new_hdr
                         (wr_state (with_is_mmap false) new_hdr
                            (wr_state (with_is_free true) new_hdr
                               (wr_state
                                  (with_size
                                     (size_sub (size_sub (size (hdr st b)) n) hdr_size))
                                  new_hdr st))))))))))
    new_hdr) as (st' & Hrun & Hlo & _ & _ & Hfree & _).
  exists st'. split.
  { destruct (nonnull bn); run; exact Hrun. }
  split_and!.
  - apply (lo_in_mem _ _ Hlo). destruct (nonnull bn); mem_tac.
  - rewrite Hfree. decide_hyps. destruct (nonnull bn); fld; decide_hyps; reflexivity.
  - rewrite (lo_is_mmap _ _ Hlo). destruct (nonnull bn); fld; decide_hyps; reflexivity.
  - rewrite (lo_size _ _ Hlo). destruct (nonnull bn); fld; decide_hyps; reflexivity.
Qed.

Lemma hdr_ext (h : block_hdr_t) s f m n p nf pf :
  size h = s -> is_free h = f -> is_mmap h = m -> next h = n -> prev h = p ->
  next_free h = nf -> prev_free h = pf -> h = mk_hdr s f m n p nf pf.
Proof. destruct h; cbn; intros; subst; reflexivity. Qed.

Section Malloc.

Variable pol : os_policy.

Lemma mmap_run len st :
  mmap pol len st =
  Some (mmap_pick pol (os st) len,
        with_os (match mmap_pick pol (os st) len with
                 | Some a => mk_os (cur_brk (os st)) (<[a := len]> (maps (os st)))
                                   (S (os_clock (os st)))
                 | None => tick (os st)
                 end) st).
Proof. unfold mmap, os_mmap. destruct (mmap_pick pol (os st) len); reflexivity. Qed.

Lemma request_mmap_effect sz st :
  let total := size_add hdr_size sz in
  match mmap_pick pol (os st) total with
  | Some b =>
      exists st', request_mmap pol sz st = Some (b, st') /\
        in_mem st' b /\
        hdr st' b = mk_hdr sz false true NULL NULL NULL NULL /\
        (forall a, a <> b -> mem st' !! a = mem st !! a) /\
        all_head st' = all_head st /\ all_tail st' = all_tail st /\
        free_head st' = free_head st /\ bytes st' = bytes st /\
        os st' = mk_os (cur_brk (os st)) (<[b := total]> (maps (os st)))
                       (S (os_clock (os st)))
  | None => request_mmap pol sz st = Some (NULL, with_os (tick (os st)) st)
  end.
Proof.
  intros total. unfold request_mmap. fold total.
  rewrite (bind_run _ _ _ _ _ (mmap_run _ _)).
  destruct (mmap_pick pol (os st) total) as [b|]; [|reflexivity].
  run. eexists. split; [reflexivity|]. split_and!; try (heads; reflexivity).
  - mem_tac.
  - apply hdr_ext; fld; decide_hyps; reflexivity.
  - intros a Ha. rewrite !lookup_wr_state_ne by exact Ha. reflexivity.
Qed.

Lemma request_space_sbrk_effect sz st :
  let total := size_add hdr_size sz in
  if sbrk_ok pol (os st) total then
    exists st', request_space_sbrk pol sz st = Some (cur_brk (os st), st') /\
      in_mem st' (cur_brk (os st)) /\
      size (hdr st' (cur_brk (os st))) = sz /\
      is_free (hdr st' (cur_brk (os st))) = false /\
      is_mmap (hdr st' (cur_brk (os st))) = false
  else request_space_sbrk pol sz st = Some (NULL, with_os (tick (os st)) st).
Proof.
  intros total. unfold request_space_sbrk. fold total.
  rewrite (bind_run _ _ _ _ _ (sbrk_run _ _ _)).
  destruct (sbrk_ok pol (os st) total); [|reflexivity].
  set (b := cur_brk (os st)).
  run. heads.
  destruct (nonnull (all_head st)); cbn [negb when]; run; heads;
    destruct (nonnull (all_tail st)); cbn [when]; run.
  all: eexists; split; [reflexivity|].
  all: split_and!; [mem_tac|..]; fld; decide_hyps; reflexivity.
Qed.

(** The header behind a pointer that [mm_malloc] has returned. *)
Lemma mm_malloc_header_of_success st fl fuel n p st' :
  free_chain st fl -> none_mapped st fl ->
  0 < n -> n + 15 <= SIZE_MAX ->
  mm_malloc pol fuel n st = Some (p, st') -> p <> NULL ->
  in_mem st' (header_of p) /\
  is_free (hdr st' (header_of p)) = false /\
  (is_mmap (hdr st' (header_of p)) = true <-> MMAP_THRESHOLD <= ALIGN_UP n) /\
  ALIGN_UP n <= size (hdr st' (header_of p)).
Proof.
  intros Hfc Hnm Hn0 Hn1.
  assert (Hhp : forall b, header_of (payload_of b) = b).
  { intros b. unfold header_of, payload_of. lia. }
  pose proof (ALIGN_UP_nowrap n ltac:(lia) Hn1) as (_ & Hsz).
  unfold mm_malloc.
  destruct (Z.eqb_spec n 0) as [?|_]; [lia|].
  set (sz := ALIGN_UP n) in *.
  destruct (Z.geb_spec sz MMAP_THRESHOLD) as [Hbig|Hsmall].
  - (* the mapped path *)
    pose proof (request_mmap_effect sz st) as Hmm. cbv zeta in Hmm.
    destruct (mmap_pick pol (os st) (size_add hdr_size sz)) as [b|].
    + destruct Hmm as (st1 & Hrun & Hin & Hh & _).
      rewrite (bind_run _ _ _ _ _ Hrun).
      destruct (nonnull b); cbn [negb]; unfold ret.
      * intros [= <- <-] _. rewrite Hhp, Hh. cbn. split_and!; [exact Hin|reflexivity| |lia].
        split; [lia|reflexivity].
      * intros Heq Hnn; simplify_eq.
    + rewrite (bind_run _ _ _ _ _ Hmm). cbn. unfold ret. intros Heq Hnn; simplify_eq.
  - (* the heap paths *)
    unfold find_free_block. run.
    intros Hrun. apply bind_Some in Hrun as (b0 & st0 & Hfind & Hrun).
    destruct Hfc as (Hseg & Hback & Hmem).
    destruct (find_free_loop_inv _ _ _ _ _ _ _ Hfind Hseg Hmem) as (-> & ->).
    revert Hrun.
    set (b := first_fit st sz fl) in *.
    destruct (nonnull_case b) as [[Hb Hbn]|[Hb Hbn]]; rewrite Hbn.
    + (* extend the heap *)
      pose proof (request_space_sbrk_effect sz st) as Hsb. cbv zeta in Hsb.
      destruct (sbrk_ok pol (os st) (size_add hdr_size sz)).
      * destruct Hsb as (st1 & Hrun & Hin & Hs & Hf & Hm).
        rewrite (bind_run _ _ _ _ _ Hrun).
        destruct (nonnull (cur_brk (os st))); cbn [negb]; unfold ret.
        -- intros [= <- <-] _. rewrite Hhp, Hs, Hf, Hm.
           split_and!; [exact Hin|reflexivity| |lia]. split; [discriminate|lia].
        -- intros Heq Hnn; simplify_eq.
      * rewrite (bind_run _ _ _ _ _ Hsb). cbn. unfold ret. intros Heq Hnn; simplify_eq.
    + (* reuse a free block *)
      destruct (first_fit_elem st sz fl Hb) as (Hbfl & Hbsz). fold b in Hbfl, Hbsz.
      assert (Hinb : in_mem st b) by (rewrite Forall_forall in Hmem; auto).
      destruct (remove_free_effect st b Hb Hinb) as (st1 & Hrun1 & Hlo1 & _ & Hfree1 & _).
      rewrite (bind_run _ _ _ _ _ Hrun1). run.
      destruct (split_block_header (wr_state (with_is_free false) b st1) b sz)
        as (st2 & Hrun2 & Hin2 & Hf2 & Hm2 & Hs2).
      { apply in_mem_wr_keep, (lo_in_mem _ _ Hlo1), Hinb. }
      { lia. }
      rewrite (bind_run _ _ _ _ _ Hrun2). unfold ret. intros [= <- <-] _.
      rewrite Hhp, Hf2, Hm2, Hs2. fld. decide_hyps.
      rewrite (lo_is_mmap _ _ Hlo1), (lo_size _ _ Hlo1), (Hnm b Hbfl).
      split_and!; [exact Hin2|reflexivity| |].
      * split; [discriminate|lia].
      * match goal with |- _ <= (if ?c then _ else _) => destruct c end;
          [exact Hbsz|apply Z.le_refl].
Qed.

End Malloc.

Section Api.

Variable pol : os_policy.


(** With fuel for the whole free chain, [mm_malloc] returns: it never
    gets stuck on a well-formed free chain. *)
Lemma mm_malloc_returns st fl fuel n :
  free_chain st fl -> (length fl < fuel)%nat ->
  exists p st', mm_malloc pol fuel n st = Some (p, st').
Proof.
  intros Hfc Hfuel. unfold mm_malloc.
  destruct (n =? 0); [eexists _, _; reflexivity|].
  set (sz := ALIGN_UP n).
  destruct (sz >=? MMAP_THRESHOLD).
  - pose proof (request_mmap_effect pol sz st) as Hmm. cbv zeta in Hmm.
    destruct (mmap_pick pol (os st) (size_add hdr_size sz)) as [b|].
    + destruct Hmm as (st1 & Hrun & _).
      rewrite (bind_run _ _ _ _ _ Hrun).
      destruct (nonnull b); cbn [negb]; eexists _, _; reflexivity.
    + rewrite (bind_run _ _ _ _ _ Hmm). cbn. eexists _, _; reflexivity.
  - destruct Hfc as (Hseg & Hback & Hmem).
    unfold find_free_block. run.
    rewrite (bind_run _ _ _ _ _
               (find_free_loop_first_fit st sz fl fuel _ Hseg Hmem Hfuel)).
    set (b := first_fit st sz fl).
    destruct (nonnull_case b) as [[Hb Hbn]|[Hb Hbn]]; rewrite Hbn.
    + pose proof (request_space_sbrk_effect pol sz st) as Hsb. cbv zeta in Hsb.
      destruct (sbrk_ok pol (os st) (size_add hdr_size sz)).
      * destruct Hsb as (st1 & Hrun & _).
        rewrite (bind_run _ _ _ _ _ Hrun).
        destruct (nonnull (cur_brk (os st))); cbn [negb]; eexists _, _; reflexivity.
      * rewrite (bind_run _ _ _ _ _ Hsb). cbn. eexists _, _; reflexivity.
    + destruct (first_fit_elem st sz fl Hb) as (Hbfl & _). fold b in Hbfl.
      assert (Hinb : in_mem st b) by (rewrite Forall_forall in Hmem; auto).
      destruct (remove_free_effect st b Hb Hinb) as (st1 & Hrun1 & Hlo1 & _).
      rewrite (bind_run _ _ _ _ _ Hrun1). run.
      destruct (split_block_header (wr_state (with_is_free false) b st1) b sz)
        as (st2 & Hrun2 & _).
      { apply in_mem_wr_keep, (lo_in_mem _ _ Hlo1), Hinb. }
      { apply ALIGN_UP_range. }
      rewrite (bind_run _ _ _ _ _ Hrun2). eexists _, _; reflexivity.
Qed.


(** C10: for [0 < n] whose rounding does not wrap, [mm_malloc n] returns,
    and the block behind a pointer it returns (a non-[NULL] result) has
    [is_free] cleared, has [is_mmap] set exactly when
    [ALIGN_UP n >= MMAP_THRESHOLD], and records a size of at least
    [ALIGN_UP n].  The hypotheses are a well-formed free chain, fuel for
    its length, and invariant I5 on it: none of its blocks is mapped. *)
Theorem mm_malloc_header st fl fuel n :
  free_chain st fl -> none_mapped st fl ->
  (length fl < fuel)%nat ->
  0 < n -> n + 15 <= SIZE_MAX ->
  exists p st', mm_malloc pol fuel n st = Some (p, st') /\
    (p <> NULL ->
     in_mem st' (header_of p) /\
     is_free (hdr st' (header_of p)) = false /\
     (is_mmap (hdr st' (header_of p)) = true <-> MMAP_THRESHOLD <= ALIGN_UP n) /\
     ALIGN_UP n <= size (hdr st' (header_of p))).
Proof.
  intros Hfc Hnm Hfuel Hn0 Hn1.
  destruct (mm_malloc_returns st fl fuel n Hfc Hfuel) as (p & st' & Hrun).
  exists p, st'. split; [exact Hrun|]. intros Hp.
  exact (mm_malloc_header_of_success pol st fl fuel n p st' Hfc Hnm Hn0 Hn1 Hrun Hp).
Qed.


Lemma munmap_run addr len st :
  munmap addr len st = Some (tt, with_os (os_munmap addr len (os st)) st).
Proof. reflexivity. Qed.

(** C7: a request whose rounded size reaches [MMAP_THRESHOLD] is served
    by a mapping of its own: the header is written with [is_mmap] set and
    no links, both chains and every other block are as before, and the
    new block is on neither chain.  [mm_free] of a mapped block unmaps
    the whole region and leaves the memory, the break and both chains as
    they were.  The kernel is assumed to place a mapping outside the heap
    [heap_lo, cur_brk), where the chained blocks live. *)
Theorem mapped_block_frame st l fl fuel n b heap_lo st2 l2 fl2 fuel2 p2 :
  (* allocation of a large block *)
  n <> 0 -> MMAP_THRESHOLD <= ALIGN_UP n ->
  spatial_chain st l -> free_chain st fl ->
  (forall a, (a ∈ l) \/ (a ∈ fl) -> heap_lo <= a < cur_brk (os st)) ->
  mmap_pick pol (os st) (size_add hdr_size (ALIGN_UP n)) = Some b ->
  b <> NULL ->
  b < heap_lo \/ cur_brk (os st) <= b ->
  (* release of a mapped block *)
  p2 <> NULL -> in_mem st2 (header_of p2) ->
  is_mmap (hdr st2 (header_of p2)) = true ->
  maps (os st2) !! header_of p2 =
    Some (size_add hdr_size (size (hdr st2 (header_of p2)))) ->
  spatial_chain st2 l2 -> free_chain st2 fl2 ->
  (exists st1, mm_malloc pol fuel n st = Some (payload_of b, st1) /\
     hdr st1 b = mk_hdr (ALIGN_UP n) false true NULL NULL NULL NULL /\
     maps (os st1) = <[b := size_add hdr_size (ALIGN_UP n)]> (maps (os st)) /\
     cur_brk (os st1) = cur_brk (os st) /\
     spatial_chain st1 l /\ free_chain st1 fl /\ (b ∉ l) /\ (b ∉ fl) /\
     (forall a, a <> b -> mem st1 !! a = mem st !! a)) /\
  (exists st3, mm_free pol fuel2 p2 st2 = Some (tt, st3) /\
     maps (os st3) = delete (header_of p2) (maps (os st2)) /\
     cur_brk (os st3) = cur_brk (os st2) /\
     mem st3 = mem st2 /\
     spatial_chain st3 l2 /\ free_chain st3 fl2).
Proof.
  intros Hn0 Hbig Hsc Hfc Hheap Hpick Hb Hout Hp2 Hin2 Hmap2 Hreg2 Hsc2 Hfc2.
  split.
  - assert (Hbl : forall a, a ∈ l \/ a ∈ fl -> a <> b).
    { intros a Ha ->. specialize (Hheap _ Ha). lia. }
    unfold mm_malloc.
    destruct (Z.eqb_spec n 0) as [?|_]; [lia|].
    destruct (Z.geb_spec (ALIGN_UP n) MMAP_THRESHOLD) as [_|?]; [|lia].
    pose proof (request_mmap_effect pol (ALIGN_UP n) st) as Hmm. cbv zeta in Hmm.
    rewrite Hpick in Hmm.
    destruct Hmm as (st1 & Hrun & Hin & Hh & Hmem & Hah & Hat & Hfh & Hby & Hos).
    rewrite (bind_run _ _ _ _ _ Hrun), (proj2 (nonnull_true b) Hb). cbn [negb].
    exists st1. split; [reflexivity|].
    assert (Hhdr : forall a, a ∈ l \/ a ∈ fl -> hdr st1 a = hdr st a).
    { intros a Ha. unfold hdr, hdr_at. rewrite Hmem by auto. reflexivity. }
    assert (Hinm : forall a, a ∈ l \/ a ∈ fl -> in_mem st a -> in_mem st1 a).
    { intros a Ha. unfold in_mem. rewrite Hmem by auto. auto. }
    split_and!; [exact Hh|rewrite Hos; reflexivity|rewrite Hos; reflexivity| | | | |exact Hmem].
    + destruct Hsc as (Ha & Hb' & Hc & Hd). split_and!.
      * rewrite Hah. eapply seg_frame; [|exact Ha]. intros a Hal. simpl. rewrite Hhdr; auto.
      * eapply back_frame; [|exact Hb']. intros a Hal. simpl. rewrite Hhdr; auto.
      * rewrite Hat. exact Hc.
      * rewrite Forall_forall in *. intros a Hal. apply Hinm; auto.
    + destruct Hfc as (Ha & Hb' & Hd). split_and!.
      * rewrite Hfh. eapply seg_frame; [|exact Ha]. intros a Hal. simpl. rewrite Hhdr; auto.
      * eapply back_frame; [|exact Hb']. intros a Hal. simpl. rewrite Hhdr; auto.
      * rewrite Forall_forall in *. intros a Hal. apply Hinm; auto.
    + intros Hi. eapply Hbl; [left; exact Hi|reflexivity].
    + intros Hi. eapply Hbl; [right; exact Hi|reflexivity].
  - unfold mm_free. rewrite (proj2 (nonnull_true p2) Hp2). cbn [negb].
    run. rewrite Hmap2. run.
    rewrite munmap_run. eexists. split; [reflexivity|].
    assert (Hmu : os_munmap (header_of p2)
                    (size_add hdr_size (size (hdr st2 (header_of p2)))) (os st2)
                  = mk_os (cur_brk (os st2))
                      (delete (header_of p2) (maps (os st2)))
                      (S (os_clock (os st2)))).
    { unfold os_munmap. unfold ptr in *. rewrite Hreg2, Z.leb_refl. reflexivity. }
    rewrite Hmu. cbn [os with_os mem maps cur_brk].
    split_and!; try reflexivity; assumption.
Qed.



End Api.

Lemma adjacent_cons a b x l :
  adjacent (x :: l) a b ->
  (x = a /\ exists l2, l = b :: l2) \/ adjacent l a b.
Proof.
  intros (l1 & l2 & Heq). destruct l1 as [|y l1]; simpl in Heq.
  - injection Heq as -> ->. left. eauto.
  - injection Heq as -> ->. right. exists l1, l2. reflexivity.
Qed.

Lemma no_adjacent_free_check st l :
  adjacent_free_pair st l = false -> no_adjacent_free st l.
Proof.
  induction l as [|x l IH]; intros Hc a b Hadj [Ha Hb].
  - destruct Hadj as (l1 & l2 & Heq). destruct l1; discriminate.
  - apply adjacent_cons in Hadj as [(-> & l2 & ->)|Hadj].
    + cbn [adjacent_free_pair] in Hc. rewrite Ha, Hb in Hc. discriminate.
    + destruct l as [|y l]; [destruct Hadj as (l1 & l2 & Heq); destruct l1; discriminate|].
      cbn [adjacent_free_pair] in Hc. apply orb_false_iff in Hc as (_ & Hc).
      exact (IH Hc a b Hadj (conj Ha Hb)).
Qed.

(** Chains of a concrete state, by evaluation. *)
Ltac chain_tac :=
  cbn [app];
  repeat match goal with
  | |- spatial_chain _ _ => unfold spatial_chain
  | |- free_chain _ _ => unfold free_chain
  | |- _ /\ _ => split
  | |- seg _ _ _ _ => cbn [seg]
  | |- back _ _ _ => cbn [back]
  | |- Forall _ _ => constructor
  | |- True => exact I
  | |- in_mem _ _ => vm_compute; eexists; reflexivity
  | |- @eq Z _ _ => vm_compute; reflexivity
  | |- @eq ptr _ _ => vm_compute; reflexivity
  | |- _ <> _ => vm_compute; discriminate
  end.

Example st_heap3_chains :
  spatial_chain st_heap3 [4096; 4304; 4368] /\ free_chain st_heap3 [4304].
Proof. chain_tac. Qed.

Example st_two_free_chains :
  spatial_chain st_two_free [4096; 4208; 4272; 4352] /\
  free_chain st_two_free [4096; 4272].
Proof. chain_tac. Qed.

Example st_merge_chains :
  spatial_chain st_merge [4096; 4160; 4224] /\ free_chain st_merge [4160; 4096].
Proof. chain_tac. Qed.

Example st_free_tail_chains :
  spatial_chain st_free_tail [4096; 4160] /\ free_chain st_free_tail [4160].
Proof. chain_tac. Qed.

(** ** Scenarios *)

(** Allocating and freeing one small block on a fresh heap returns the
    break to where it was and leaves both chains empty. *)
Example tail_release_round_trip :
  exists st',
    (let* a := mm_malloc pol_ok 1 100 in mm_free pol_ok 2 a) st_empty
      = Some (tt, st') /\
    spatial_chain st' [] /\ free_chain st' [] /\
    cur_brk (os st') = cur_brk (os st_empty).
Proof.
  exists (final_state
            ((let* a := mm_malloc pol_ok 1 100 in mm_free pol_ok 2 a) st_empty)).
  split; [vm_compute; reflexivity|]. chain_tac.
Qed.

(** [mm_free] merges a freed block with a free neighbour: freeing the
    160-byte block of [st_heap3] absorbs the free block behind it. *)
Example free_coalesces_neighbours :
  exists st',
    mm_free pol_ok 2 4144 st_heap3 = Some (tt, st') /\
    spatial_chain st' [4096; 4368] /\ free_chain st' [4096] /\
    size (hdr st' 4096) = 160 + hdr_size + 16 /\
    no_adjacent_free st' [4096; 4368].
Proof.
  exists (final_state (mm_free pol_ok 2 4144 st_heap3)).
  split; [vm_compute; reflexivity|].
  split; [chain_tac|]. split; [chain_tac|]. split; [vm_compute; reflexivity|].
  apply no_adjacent_free_check. vm_compute. reflexivity.
Qed.

(** C1, where the code departs from it.  On a fresh heap,
    [a = malloc(160); b = malloc(16); c = malloc(16); free(b)] leaves the
    chain live, free, live, with no two free neighbours.
    [realloc(a, 16)] then shrinks [a] in place: [split_block] puts a free
    block of 96 bytes at 4160, right before the free block at 4304, and
    nothing merges them. *)
Theorem realloc_shrink_leaves_adjacent_free :
  exists st2,
    shrink_setup st_empty = Some (4144, st_heap3) /\
    spatial_chain st_heap3 [4096; 4304; 4368] /\
    no_adjacent_free st_heap3 [4096; 4304; 4368] /\
    is_free (hdr st_heap3 4096) = false /\
    mm_realloc pol_ok 4 4144 16 st_heap3 = Some (4144, st2) /\
    spatial_chain st2 [4096; 4160; 4304; 4368] /\
    adjacent [4096; 4160; 4304; 4368] 4160 4304 /\
    is_free (hdr st2 4160) = true /\ is_free (hdr st2 4304) = true /\
    ~ no_adjacent_free st2 [4096; 4160; 4304; 4368].
Proof.
  exists (final_state (mm_realloc pol_ok 4 4144 16 st_heap3)).
  assert (Hadj : adjacent [4096; 4160; 4304; 4368] 4160 4304).
  { exists [4096], [4368]. reflexivity. }
  split_and!.
  - vm_compute. reflexivity.
  - chain_tac.
  - apply no_adjacent_free_check. vm_compute. reflexivity.
  - vm_compute. reflexivity.
  - vm_compute. reflexivity.
  - chain_tac.
  - exact Hadj.
  - vm_compute. reflexivity.
  - vm_compute. reflexivity.
  - intros Hno. apply (Hno 4160 4304 Hadj). split; vm_compute; reflexivity.
Qed.

(** C2, where the code departs from it.  [ALIGN_UP SIZE_MAX] wraps to
    [0], and [mm_malloc SIZE_MAX] on a fresh heap returns a pointer to a
    block whose recorded size is [0]. *)
Theorem malloc_wraps_to_empty_block :
  exists st1,
    ALIGN_UP SIZE_MAX = 0 /\
    mm_malloc pol_ok 1 SIZE_MAX st_empty = Some (4144, st1) /\
    spatial_chain st1 [4096] /\
    size (hdr st1 4096) = 0 /\
    ~ sizes_aligned st1 [4096].
Proof.
  exists (final_state (mm_malloc pol_ok 1 SIZE_MAX st_empty)).
  split_and!.
  - vm_compute. reflexivity.
  - vm_compute. reflexivity.
  - chain_tac.
  - vm_compute. reflexivity.
  - intros Hs. destruct (Hs 4096) as (_ & Hge); [constructor|].
    vm_compute in Hge. apply Hge. reflexivity.
Qed.

Ltac elems :=
  repeat first [ rewrite elem_of_cons | rewrite elem_of_nil | rewrite elem_of_app ].

(** * Instances

    Each theorem above with hypotheses, applied to a concrete heap. *)

(* C5 witness: a request of 32 bytes takes the 64-byte block at the head of
   the free chain, although the block behind it is an exact fit. *)
Lemma find_free_block_first_fit_witness :
  free_chain st_two_free [4096; 4272] /\
  size (hdr st_two_free 4272) = 32 /\
  exists r, find_free_block 3 32 st_two_free = Some (r, st_two_free) /\
    ((r = NULL /\ forall a, a ∈ [4096; 4272] -> size (hdr st_two_free a) < 32) \/
     (exists l1 l2, [4096; 4272] = l1 ++ r :: l2 /\
        32 <= size (hdr st_two_free r) /\
        forall a, a ∈ l1 -> size (hdr st_two_free a) < 32)).
Proof.
  split; [chain_tac|]. split; [vm_compute; reflexivity|].
  apply (find_free_block_first_fit st_two_free [4096; 4272] 32 3).
  - chain_tac.
  - simpl. lia.
Defined.

(* C3 witness: the live 160-byte block of [st_heap3] is split at 16
   bytes; the 96-byte leftover appears at 4160 on both chains. *)
Lemma split_block_spec_witness :
  spatial_chain st_heap3 [4096; 4304; 4368] /\
  free_chain st_heap3 [4304] /\
  size (hdr st_heap3 4096) = 160 /\
  exists st', split_block 4096 16 st_heap3 = Some (tt, st') /\
    spatial_chain st' [4096; 4160; 4304; 4368] /\
    free_chain st' [4160; 4304] /\
    size (hdr st' 4160) = 96 /\
    is_free (hdr st' 4160) = true /\
    is_mmap (hdr st' 4160) = false /\
    size (hdr st' 4096) = 16.
Proof.
  split; [chain_tac|]. split; [chain_tac|]. split; [vm_compute; reflexivity|].
  pose proof (split_block_spec st_heap3 4096 16 [] [4304; 4368] [4304]) as H.
  assert (Hsz : size (hdr st_heap3 4096) = 160) by (vm_compute; reflexivity).
  rewrite Hsz in H.
  rewrite decide_True in H by (vm_compute; discriminate).
  destruct H as (st' & Hrun & Hsc & Hfc & Hs & Hf & Hm & Hb & _).
  - chain_tac.
  - chain_tac.
  - lia.
  - lia.
  - vm_compute. discriminate.
  - vm_compute. discriminate.
  - intros a Ha. unfold payload_of, sizeof_block_hdr_t.
    revert Ha. elems. lia.
  - exists st'. split_and!; assumption.
Defined.

(* C4 witness: the block at 4160, just pushed onto the free chain, is
   absorbed by its free predecessor at 4096, which grows to 16 + 48 + 16. *)
Lemma coalesce_with_prev_spec_witness :
  spatial_chain st_merge [4096; 4160; 4224] /\
  free_chain st_merge [4160; 4096] /\
  exists st', coalesce_with_prev 4160 st_merge = Some (4096, st') /\
    free_chain st' [4096] /\
    spatial_chain st' [4096; 4224] /\
    size (hdr st' 4096) = 80 /\
    is_free (hdr st' 4096) = true.
Proof.
  split; [chain_tac|]. split; [chain_tac|].
  pose proof (coalesce_with_prev_spec st_merge 4160 [4096] [4224] [4160; 4096]) as H.
  cbv zeta in H.
  assert (Hp : prev (hdr st_merge 4160) = 4096) by (vm_compute; reflexivity).
  rewrite Hp in H.
  assert (Hc : nonnull 4096 && is_free (hdr st_merge 4096)
               && negb (is_mmap (hdr st_merge 4096)) = true)
    by (vm_compute; reflexivity).
  rewrite Hc in H.
  destruct H as (st' & g & Hg & Hrun & Hfc & Hsc & Hs & Hf & _).
  - chain_tac.
  - chain_tac.
  - elems. auto.
  - elems. auto.
  - assert (g = []) as ->.
    { destruct g as [|x [|y g]]; [reflexivity|discriminate|discriminate]. }
    exists st'. split_and!; assumption.
Defined.


(* C10 witness: 20 bytes are served from the 64-byte free block, whole. *)
Lemma mm_malloc_header_witness :
  mm_malloc pol_ok 3 20 st_two_free =
    Some (4144, final_state (mm_malloc pol_ok 3 20 st_two_free)) /\
  ALIGN_UP 20 = 32 /\
  exists p st', mm_malloc pol_ok 3 20 st_two_free = Some (p, st') /\
    (p <> NULL ->
     in_mem st' (header_of p) /\
     is_free (hdr st' (header_of p)) = false /\
     (is_mmap (hdr st' (header_of p)) = true <-> MMAP_THRESHOLD <= ALIGN_UP 20) /\
     ALIGN_UP 20 <= size (hdr st' (header_of p))).
Proof.
  split; [vm_compute; reflexivity|]. split; [vm_compute; reflexivity|].
  apply (mm_malloc_header pol_ok st_two_free [4096; 4272] 3 20).
  - chain_tac.
  - intros a. elems. intros [->|[->|[]]]; vm_compute; reflexivity.
  - simpl. lia.
  - lia.
  - vm_compute. discriminate.
Defined.


(* C7 witness: 200000 bytes are mapped at 2^40 beside a heap with four
   blocks, and released again. *)
Lemma mapped_block_frame_witness :
  let b := 2 ^ 40 in
  let st1 := final_state (mm_malloc pol_ok 1 200000 st_two_free) in
  (exists st1', mm_malloc pol_ok 1 200000 st_two_free = Some (payload_of b, st1') /\
     hdr st1' b = mk_hdr (ALIGN_UP 200000) false true NULL NULL NULL NULL /\
     maps (os st1') =
       <[b := size_add hdr_size (ALIGN_UP 200000)]> (maps (os st_two_free)) /\
     cur_brk (os st1') = cur_brk (os st_two_free) /\
     spatial_chain st1' [4096; 4208; 4272; 4352] /\
     free_chain st1' [4096; 4272] /\
     (b ∉ [4096; 4208; 4272; 4352]) /\ (b ∉ [4096; 4272]) /\
     (forall a, a <> b -> mem st1' !! a = mem st_two_free !! a)) /\
  (exists st3, mm_free pol_ok 1 (payload_of b) st1 = Some (tt, st3) /\
     maps (os st3) = delete (header_of (payload_of b)) (maps (os st1)) /\
     cur_brk (os st3) = cur_brk (os st1) /\
     mem st3 = mem st1 /\
     spatial_chain st3 [4096; 4208; 4272; 4352] /\
     free_chain st3 [4096; 4272]).
Proof.
  intros b st1.
  apply (mapped_block_frame pol_ok st_two_free [4096; 4208; 4272; 4352]
           [4096; 4272] 1 200000 b 4096 st1 [4096; 4208; 4272; 4352]
           [4096; 4272] 1 (payload_of b)).
  - lia.
  - vm_compute. discriminate.
  - chain_tac.
  - chain_tac.
  - intros a. elems. change (cur_brk (os st_two_free)) with 4416. lia.
  - vm_compute. reflexivity.
  - vm_compute. discriminate.
  - right. vm_compute. discriminate.
  - vm_compute. discriminate.
  - vm_compute. eexists. reflexivity.
  - vm_compute. reflexivity.
  - vm_compute. reflexivity.
  - chain_tac.
  - chain_tac.
Defined.


(** * Chain effects, restated for reuse *)

(** The chains and the headers after [split_block b n]. *)
Lemma split_block_chains st b n l1 l2 fl :
  spatial_chain st (l1 ++ b :: l2) ->
  free_chain st fl ->
  0 < b ->
  0 <= n <= size (hdr st b) ->
  size (hdr st b) <= SIZE_MAX ->
  n + hdr_size + MIN_SPLIT_SIZE <= SIZE_MAX ->
  (forall a, (a ∈ l1 ++ b :: l2) \/ (a ∈ fl) ->
     ~ (payload_of b <= a < payload_of b + size (hdr st b))) ->
  let new_hdr := payload_of b + n in
  if decide (n + hdr_size + MIN_SPLIT_SIZE <= size (hdr st b)) then
    exists st', split_block b n st = Some (tt, st') /\
      spatial_chain st' (l1 ++ b :: new_hdr :: l2) /\
      free_chain st' (new_hdr :: fl) /\
      size (hdr st' new_hdr) = size (hdr st b) - n - hdr_size /\
      is_free (hdr st' new_hdr) = true /\
      is_mmap (hdr st' new_hdr) = false /\
      size (hdr st' b) = n /\
      is_free (hdr st' b) = is_free (hdr st b) /\
      is_mmap (hdr st' b) = is_mmap (hdr st b) /\
      (forall a, a <> b -> a <> new_hdr ->
         size (hdr st' a) = size (hdr st a) /\
         is_free (hdr st' a) = is_free (hdr st a) /\
         is_mmap (hdr st' a) = is_mmap (hdr st a)) /\
      all_head st' = all_head st /\ os st' = os st /\ bytes st' = bytes st
  else split_block b n st = Some (tt, st).
Proof.
  intros Hsc Hfc Hb0 Hn Hmax Hnowrap Hclear new_hdr.
  assert (Hbin : b ∈ l1 ++ b :: l2) by (apply elem_of_app; right; constructor).
  pose proof (spatial_chain_in_mem _ _ _ Hsc Hbin) as Hinb.
  unfold split_block. run.
  rewrite split_threshold by lia.
  case_decide as Hsplit.
  2: { destruct (Z.ltb_spec (size (hdr st b)) (n + hdr_size + MIN_SPLIT_SIZE));
       [reflexivity|lia]. }
  destruct (Z.ltb_spec (size (hdr st b)) (n + hdr_size + MIN_SPLIT_SIZE))
    as [?|_]; [lia|].
  run. rewrite split_leftover by lia.
  fold new_hdr.
  assert (Hnew_b : new_hdr <> b).
  { unfold new_hdr, payload_of, sizeof_block_hdr_t. lia. }
  assert (Hnew0 : new_hdr <> NULL).
  { unfold new_hdr, payload_of, sizeof_block_hdr_t, NULL. lia. }
  assert (Hfresh : forall a, a ∈ l1 ++ b :: l2 \/ a ∈ fl -> a <> new_hdr).
  { intros a Ha ->. apply (Hclear _ Ha). unfold new_hdr.
    rewrite hdr_size_val in *. unfold MIN_SPLIT_SIZE in *. lia. }
  run. fld. decide_hyps.
  set (bn := next (hdr st b)).
  assert (Hbn : (l2 = [] /\ bn = NULL) \/ (exists g, l2 = bn :: g /\ bn <> NULL)).
  { destruct Hsc as (Hseg & _). exact (seg_next_cases _ _ _ _ _ Hseg). }
  assert (Hbn_new : bn <> new_hdr).
  { destruct Hbn as [(_ & ->)|(g & -> & _)]; [congruence|].
    apply Hfresh. left. apply elem_of_app. right. right. constructor. }
  (* the state just before the final [insert_free] *)
  assert (exists st1,
    (forall k : M unit,
     ((if nonnull bn then wr (with_prev new_hdr) bn
       else put (with_all_tail new_hdr));;
      wr (with_next new_hdr) b;; wr (with_size n) b;;
      wr (with_prev_free NULL) new_hdr;; wr (with_next_free NULL) new_hdr;;
      k)
       (wr_state (with_prev b) new_hdr
          (wr_state (with_next bn) new_hdr
             (wr_state (with_is_mmap false) new_hdr
                (wr_state (with_is_free true) new_hdr
                   (wr_state (with_size (size (hdr st b) - n - hdr_size))
                      new_hdr st))))) = k st1) /\
    (forall a, next (hdr st1 a) =
       if decide (a = b) then new_hdr
       else if decide (a = new_hdr) then bn else next (hdr st a)) /\
    (forall a, prev (hdr st1 a) =
       if decide (a = new_hdr) then b
       else if decide (a = bn /\ bn <> NULL) then new_hdr else prev (hdr st a)) /\
    (forall a, size (hdr st1 a) =
       if decide (a = b) then n
       else if decide (a = new_hdr) then size (hdr st b) - n - hdr_size
       else size (hdr st a)) /\
    (forall a, is_free (hdr st1 a) =
       if decide (a = new_hdr) then true else is_free (hdr st a)) /\
    (forall a, is_mmap (hdr st1 a) =
       if decide (a = new_hdr) then false else is_mmap (hdr st a)) /\
    (forall a, a <> new_hdr ->
       next_free (hdr st1 a) = next_free (hdr st a) /\
       prev_free (hdr st1 a) = prev_free (hdr st a)) /\
    (forall a, in_mem st a -> in_mem st1 a) /\
    all_tail st1 = (if nonnull bn then all_tail st else new_hdr) /\
    all_head st1 = all_head st /\ free_head st1 = free_head st /\
    os st1 = os st /\ bytes st1 = bytes st) as Hst1.
  { destruct (nonnull_case bn) as [[Hb0' Hbnn]|[Hb0' Hbnn]]; rewrite Hbnn.
    all: eexists; split; [intros k; run; reflexivity|].
    all: split_and!; try (heads; reflexivity).
    all: try solve [intros a; fld; cases].
    all: try solve [intros a Ha; fld; decide_hyps; auto].
    all: try solve [intros a Ha; mem_tac]. }
  destruct Hst1 as (st1 & Hrun1 & Hnext & Hprev & Hsize & Hfree & Hmmap & Hfl
                    & Hmem1 & Htail1 & Hhead1 & Hfh1 & Hos1 & Hbytes1).
  (* the free chain is untouched so far, and takes the new block *)
  assert (Hfc1 : free_chain st1 fl).
  { eapply free_chain_frame; [exact Hfh1| |exact Hmem1|exact Hfc].
    intros a Ha. apply Hfl, Hfresh. auto. }
  destruct (free_chain_insert st1 fl new_hdr Hfc1) as (st' & Hrun' & Hfc' & Hlo & Hfree').
  { intros Hin. eapply Hfresh; [right; exact Hin|reflexivity]. }
  { exact Hnew0. }
  exists st'. split; [rewrite Hrun1; exact Hrun'|].
  destruct Hsc as (Hseg & Hback & Htail & Hmem).
  destruct (chain_insert_after _ _ (fun a => next (hdr st' a))
              (fun a => prev (hdr st' a)) _ _ _ new_hdr _ Hseg Hback Hnew0)
    as (Hseg' & Hback').
  { intros Hin. eapply Hfresh; [left; exact Hin|reflexivity]. }
  { intros a. rewrite (lo_next _ _ Hlo). apply Hnext. }
  { intros a. rewrite (lo_prev _ _ Hlo). apply Hprev. }
  split_and!.
  - split_and!.
    + rewrite (lo_all_head _ _ Hlo), Hhead1. exact Hseg'.
    + exact Hback'.
    + rewrite (lo_all_tail _ _ Hlo), Htail1.
      rewrite last_app_cons, last_cons_default.
      rewrite last_app_cons in Htail.
      destruct Hbn as [(-> & Hbn0)|(g & -> & Hbn1)].
      * rewrite (proj2 (nonnull_false bn) Hbn0). reflexivity.
      * rewrite (proj2 (nonnull_true bn) Hbn1), Htail.
        rewrite !last_cons_default. reflexivity.
    + rewrite Forall_forall in Hmem.
      rewrite Forall_forall. intros a Ha.
      destruct Hfc' as (_ & _ & Hm'). rewrite Forall_forall in Hm'.
      rewrite elem_of_app, !elem_of_cons in Ha.
      destruct Ha as [Ha|[->|[->|Ha]]].
      * apply (lo_in_mem _ _ Hlo), Hmem1, Hmem, elem_of_app. auto.
      * apply (lo_in_mem _ _ Hlo), Hmem1, Hinb.
      * apply Hm'. constructor.
      * apply (lo_in_mem _ _ Hlo), Hmem1, Hmem, elem_of_app. right. by constructor.
  - exact Hfc'.
  - rewrite (lo_size _ _ Hlo), Hsize. decide_hyps. reflexivity.
  - rewrite Hfree'. decide_hyps. reflexivity.
  - rewrite (lo_is_mmap _ _ Hlo), Hmmap. decide_hyps. reflexivity.
  - rewrite (lo_size _ _ Hlo), Hsize. decide_hyps. reflexivity.
  - rewrite Hfree', Hfree. decide_hyps. reflexivity.
  - rewrite (lo_is_mmap _ _ Hlo), Hmmap. decide_hyps. reflexivity.
  - intros a Hab Han.
    rewrite (lo_size _ _ Hlo), Hsize, Hfree', Hfree, (lo_is_mmap _ _ Hlo), Hmmap.
    decide_hyps. auto.
  - rewrite (lo_all_head _ _ Hlo). exact Hhead1.
  - rewrite (lo_os _ _ Hlo). exact Hos1.
  - rewrite (lo_bytes _ _ Hlo). exact Hbytes1.
Qed.

(** The chains and the headers after [coalesce_with_prev b]. *)
Lemma coalesce_prev_chains st b l1 l2 fl :
  spatial_chain st (l1 ++ b :: l2) ->
  free_chain st fl ->
  let p := prev (hdr st b) in
  if nonnull p && is_free (hdr st p) && negb (is_mmap (hdr st p)) then
    b ∈ fl -> p ∈ fl ->
    exists st' g, l1 = g ++ [p] /\
      coalesce_with_prev b st = Some (p, st') /\
      free_chain st' (p :: without p (without b fl)) /\
      spatial_chain st' (g ++ p :: l2) /\
      size (hdr st' p) = wrap (size (hdr st p) + hdr_size + size (hdr st b)) /\
      is_free (hdr st' p) = true /\
      (forall a, a <> p ->
         size (hdr st' a) = size (hdr st a) /\
         is_mmap (hdr st' a) = is_mmap (hdr st a) /\
         is_free (hdr st' a) =
           if decide (a = b) then false else is_free (hdr st a)) /\
      is_mmap (hdr st' p) = false /\
      all_head st' = all_head st /\ os st' = os st /\ bytes st' = bytes st
  else coalesce_with_prev b st = Some (b, st).
Proof.
  intros Hsc Hfc p.
  assert (Hbin : b ∈ l1 ++ b :: l2) by (apply elem_of_app; right; constructor).
  pose proof (spatial_chain_in_mem _ _ _ Hsc Hbin) as Hinb.
  pose proof (spatial_chain_NoDup _ _ Hsc) as Hnd.
  destruct Hsc as (Hseg & Hback & Htail & Hmem).
  assert (Hp : (l1 = [] /\ p = NULL) \/ (exists g, l1 = g ++ [p] /\ p <> NULL)).
  { apply (back_prev_cases _ _ _ _ Hback). intros a Ha.
    apply (seg_not_null _ _ _ _ _ Hseg), elem_of_app. auto. }
  unfold coalesce_with_prev. run. fold p.
  destruct Hp as [(-> & Hp0)|(g & -> & Hp1)].
  { rewrite (proj2 (nonnull_false p) Hp0). reflexivity. }
  rewrite (proj2 (nonnull_true p) Hp1). cbn [negb andb].
  assert (Hinp : in_mem st p).
  { rewrite Forall_forall in Hmem. apply Hmem.
    rewrite <- app_assoc. apply elem_of_app. right. constructor. }
  run.
  destruct (is_free (hdr st p)) eqn:Hpfree; cbn [negb andb]; [|reflexivity].
  run.
  destruct (is_mmap (hdr st p)) eqn:Hpmap; cbn [negb]; [reflexivity|].
  intros Hbfl Hpfl.
  assert (Hpb : p <> b).
  { intros Heq. rewrite <- app_assoc in Hnd. apply NoDup_app in Hnd as (_ & _ & Hnd).
    apply NoDup_cons in Hnd as (Hnd & _). apply Hnd. rewrite Heq. constructor. }
  (* the two removals from the free chain *)
  destruct (free_chain_remove_elem _ _ _ Hfc Hbfl) as (st1 & Hrun1 & Hfc1 & Hlo1 & Hfree1).
  assert (Hpfl1 : p ∈ without b fl) by (apply elem_of_without; auto).
  destruct (free_chain_remove_elem _ _ _ Hfc1 Hpfl1) as (st2 & Hrun2 & Hfc2 & Hlo2 & Hfree2).
  rewrite (bind_run _ _ _ _ _ Hrun1), (bind_run _ _ _ _ _ Hrun2).
  assert (Hinb2 : in_mem st2 b) by (apply (lo_in_mem _ _ Hlo2), (lo_in_mem _ _ Hlo1), Hinb).
  assert (Hinp2 : in_mem st2 p) by (apply (lo_in_mem _ _ Hlo2), (lo_in_mem _ _ Hlo1), Hinp).
  run. fld. decide_hyps.
  rewrite !(lo_size _ _ Hlo2), !(lo_size _ _ Hlo1).
  rewrite !(lo_next _ _ Hlo2), !(lo_next _ _ Hlo1).
  set (bn := next (hdr st b)).
  assert (Hbn : (l2 = [] /\ bn = NULL) \/ (exists g', l2 = bn :: g' /\ bn <> NULL)).
  { exact (seg_next_cases _ _ _ _ _ Hseg). }
  (* the state just before the final [insert_free] *)
  assert (exists st3,
    (forall k : M ptr,
      ((if nonnull bn then wr (with_prev p) bn else put (with_all_tail p));; k)
        (wr_state (with_next bn) p
           (wr_state
              (with_size
                 (size_add (size (hdr st p))
                    (size_add hdr_size (size (hdr st b))))) p st2)) = k st3) /\
    (forall a, next (hdr st3 a) = if decide (a = p) then bn else next (hdr st a)) /\
    (forall a, prev (hdr st3 a) =
       if decide (a = bn /\ bn <> NULL) then p else prev (hdr st a)) /\
    (forall a, size (hdr st3 a) =
       if decide (a = p)
       then size_add (size (hdr st p)) (size_add hdr_size (size (hdr st b)))
       else size (hdr st a)) /\
    (forall a, is_free (hdr st3 a) = is_free (hdr st2 a)) /\
    (forall a, is_mmap (hdr st3 a) = is_mmap (hdr st a)) /\
    (forall a, next_free (hdr st3 a) = next_free (hdr st2 a) /\
               prev_free (hdr st3 a) = prev_free (hdr st2 a)) /\
    (forall a, in_mem st2 a -> in_mem st3 a) /\
    all_tail st3 = (if nonnull bn then all_tail st else p) /\
    all_head st3 = all_head st /\ free_head st3 = free_head st2 /\
    os st3 = os st /\ bytes st3 = bytes st) as Hst3.
  { destruct (nonnull_case bn) as [[Hb0' Hbnn]|[Hb0' Hbnn]]; rewrite Hbnn.
    all: eexists; split; [intros k; run; reflexivity|].
    all: split_and!.
    all: try solve [heads; rewrite ?(lo_all_tail _ _ Hlo2), ?(lo_all_head _ _ Hlo2),
                      ?(lo_os _ _ Hlo2), ?(lo_bytes _ _ Hlo2),
                      ?(lo_all_tail _ _ Hlo1), ?(lo_all_head _ _ Hlo1),
                      ?(lo_os _ _ Hlo1), ?(lo_bytes _ _ Hlo1); reflexivity].
    all: try solve [intros a; fld;
                    rewrite ?(lo_next _ _ Hlo2), ?(lo_next _ _ Hlo1),
                      ?(lo_prev _ _ Hlo2), ?(lo_prev _ _ Hlo1),
                      ?(lo_size _ _ Hlo2), ?(lo_size _ _ Hlo1),
                      ?(lo_is_mmap _ _ Hlo2), ?(lo_is_mmap _ _ Hlo1); cases].
    all: try solve [intros a Ha; mem_tac]. }
  destruct Hst3 as (st3 & Hrun3 & Hnext & Hprev & Hsize & Hfree & Hmmap & Hfl
                    & Hmem3 & Htail3 & Hhead3 & Hfh3 & Hos3 & Hbytes3).
  rewrite Hrun3.
  assert (Hfc3 : free_chain st3 (without p (without b fl))).
  { eapply free_chain_frame; [exact Hfh3| |exact Hmem3|exact Hfc2].
    intros a _. apply Hfl. }
  destruct (free_chain_insert st3 _ p Hfc3) as (st' & Hrun' & Hfc' & Hlo & Hfree').
  { intros Hin. apply elem_of_without in Hin as (_ & Hne). congruence. }
  { exact Hp1. }
  rewrite (bind_run _ _ _ _ _ Hrun').
  exists st', g. split; [reflexivity|]. split; [reflexivity|].
  destruct (chain_unlink _ _ (fun a => next (hdr st' a))
              (fun a => prev (hdr st' a)) _ _ _ _ Hseg Hback)
    as (Hseg' & Hback' & _ & _).
  { intros a Ha. rewrite (lo_next _ _ Hlo), Hnext. fold p. fold bn. cases. }
  { intros a Ha. rewrite (lo_prev _ _ Hlo), Hprev. fold p. fold bn. cases. }
  fold p in Hseg'. rewrite (proj2 (nonnull_true p) Hp1) in Hseg'.
  rewrite <- !app_assoc in *. cbn [app] in *.
  split_and!.
  - exact Hfc'.
  - split_and!.
    + rewrite (lo_all_head _ _ Hlo), Hhead3. exact Hseg'.
    + exact Hback'.
    + rewrite (lo_all_tail _ _ Hlo), Htail3.
      rewrite last_app_cons. rewrite !last_app_cons in Htail.
      destruct Hbn as [(-> & Hbn0)|(g' & -> & Hbn1)].
      * rewrite (proj2 (nonnull_false bn) Hbn0). reflexivity.
      * rewrite (proj2 (nonnull_true bn) Hbn1), Htail.
        rewrite !last_cons_default. reflexivity.
    + rewrite Forall_forall in Hmem. rewrite Forall_forall. intros a Ha.
      apply (lo_in_mem _ _ Hlo), Hmem3, (lo_in_mem _ _ Hlo2), (lo_in_mem _ _ Hlo1), Hmem.
      rewrite elem_of_app, !elem_of_cons in *. tauto.
  - rewrite (lo_size _ _ Hlo), Hsize. decide_hyps.
    unfold size_add. rewrite wrap_add_r. f_equal. lia.
  - rewrite Hfree'. decide_hyps. reflexivity.
  - intros a Ha. rewrite (lo_size _ _ Hlo), Hsize, (lo_is_mmap _ _ Hlo), Hmmap.
    rewrite Hfree', Hfree, Hfree2, Hfree1. decide_hyps. auto.
  - rewrite (lo_is_mmap _ _ Hlo), Hmmap. exact Hpmap.
  - rewrite (lo_all_head _ _ Hlo). exact Hhead3.
  - rewrite (lo_os _ _ Hlo). exact Hos3.
  - rewrite (lo_bytes _ _ Hlo). exact Hbytes3.
Qed.

(** * Neighbours on a chain *)


Lemma adj_all_cons R a l :
  adj_all R (a :: l) <->
  (forall b, List.hd_error l = Some b -> R a b) /\ adj_all R l.
Proof.
  destruct l as [|b l]; cbn [adj_all hd_error]; split.
  - intros (_ & H). split; [intros b Hb; discriminate|exact H].
  - intros (_ & H). auto.
  - intros (Hab & H). split; [intros c [= <-]; exact Hab|exact H].
  - intros (Hab & H). split; [apply Hab; reflexivity|exact H].
Qed.

Lemma adj_all_app R l1 l2 :
  adj_all R (l1 ++ l2) <->
  adj_all R l1 /\ adj_all R l2 /\
  (forall x y, List.last (List.map Some l1) None = Some x ->
               List.hd_error l2 = Some y -> R x y).
Proof.
  induction l1 as [|a l1 IH].
  - cbn. split; [intros H; split_and!; auto; intros x y Hx; discriminate|tauto].
  - change ((a :: l1) ++ l2) with (a :: (l1 ++ l2)).
    rewrite !adj_all_cons, IH.
    destruct l1 as [|b l1].
    + cbn [app map last hd_error]. split.
      * intros (Hh & _ & H2 & _). split_and!; auto.
        { intros b Hb; discriminate. }
        { exact I. }
        { intros x y [= <-] Hy. auto. }
      * intros ((_ & _) & H2 & Hb). split_and!; auto.
        { exact I. }
        { intros x y Hx; discriminate. }
    + change (List.map Some (a :: b :: l1)) with (Some a :: List.map Some (b :: l1)).
      rewrite last_cons_default.
      change (List.map Some (b :: l1)) with (Some b :: List.map Some l1).
      rewrite !last_cons_default.
      cbn [app hd_error]. tauto.
Qed.

Lemma adj_all_impl (R R' : ptr -> ptr -> Prop) l :
  (forall a b, a ∈ l -> b ∈ l -> R a b -> R' a b) ->
  adj_all R l -> adj_all R' l.
Proof.
  induction l as [|a l IH]; intros Himp; [auto|].
  destruct l as [|b l]; cbn [adj_all]; [auto|].
  intros (Hab & H). split.
  - apply Himp; [constructor|right; constructor|exact Hab].
  - apply IH; [|exact H]. intros x y Hx Hy. apply Himp; by right.
Qed.

Lemma last_map_Some (l : list ptr) x :
  List.last (List.map Some l) None = Some x <-> exists l', l = l' ++ [x].
Proof.
  split.
  - destruct l as [|a l _] using rev_ind; [discriminate|].
    rewrite List.map_app. cbn [List.map]. rewrite last_app_cons. cbn.
    intros [= ->]. eauto.
  - intros (l' & ->). rewrite List.map_app. cbn [List.map].
    rewrite last_app_cons. reflexivity.
Qed.

Lemma adjacent_nil a b : ~ adjacent [] a b.
Proof. intros (l1 & l2 & H). destruct l1; discriminate. Qed.

Lemma adjacent_one x a b : ~ adjacent [x] a b.
Proof.
  intros (l1 & l2 & H). destruct l1 as [|? [|? ?]]; discriminate.
Qed.

Lemma adjacent_cons_iff a b x l :
  adjacent (x :: l) a b <->
  (x = a /\ List.hd_error l = Some b) \/ adjacent l a b.
Proof.
  split.
  - intros Hadj. apply adjacent_cons in Hadj as [(-> & l2 & ->)|H]; auto.
  - intros [(-> & Hh)|(l1 & l2 & ->)].
    + destruct l as [|y l]; [discriminate|]. injection Hh as ->.
      exists [], l. reflexivity.
    + exists (x :: l1), l2. reflexivity.
Qed.

(** Invariant I4, structurally. *)
Lemma no_adjacent_free_adj_all st l :
  no_adjacent_free st l <-> adj_all (not_both_free st) l.
Proof.
  induction l as [|x l IH].
  - split; [intros _; exact I|]. intros _ a b Hadj. destruct (adjacent_nil _ _ Hadj).
  - rewrite adj_all_cons, <- IH. split.
    + intros H. split.
      * intros b Hb. apply H. apply adjacent_cons_iff. auto.
      * intros a b Hadj. apply H. apply adjacent_cons_iff. auto.
    + intros (Hh & Ht) a b Hadj. apply adjacent_cons_iff in Hadj as [(-> & Hb)|Hadj].
      * exact (Hh b Hb).
      * exact (Ht a b Hadj).
Qed.

(** In a chain laid out in address order, the blocks before a block end
    below it, and the blocks after it start past its end. *)
Lemma laid_out_after st a l :
  adj_all (fun x y => block_end st x <= y) (a :: l) ->
  (forall x, x ∈ a :: l -> 0 <= size (hdr st x)) ->
  forall y, y ∈ l -> block_end st a <= y.
Proof.
  revert a. induction l as [|b l IH]; intros a Hadj Hsz y Hy.
  - inversion Hy.
  - cbn [adj_all] in Hadj. destruct Hadj as (Hab & Hadj).
    apply elem_of_cons in Hy as [->|Hy]; [exact Hab|].
    assert (Hb : block_end st b <= y).
    { apply IH; [exact Hadj| |exact Hy]. intros x Hx. apply Hsz. by right. }
    assert (0 <= size (hdr st b)) by (apply Hsz; right; constructor).
    unfold block_end in *. rewrite hdr_size_val in *. lia.
Qed.

Lemma laid_out_split st l1 b l2 :
  adj_all (fun x y => block_end st x <= y) (l1 ++ b :: l2) ->
  (forall x, x ∈ l1 ++ b :: l2 -> 0 <= size (hdr st x)) ->
  (forall x, x ∈ l1 -> block_end st x <= b) /\
  (forall y, y ∈ l2 -> block_end st b <= y).
Proof.
  intros Hadj Hsz. split.
  - induction l1 as [|a l1 IH]; intros x Hx; [inversion Hx|].
    change ((a :: l1) ++ b :: l2) with (a :: (l1 ++ b :: l2)) in *.
    apply elem_of_cons in Hx as [->|Hx].
    + apply (laid_out_after st a (l1 ++ b :: l2) Hadj Hsz).
      apply elem_of_app. right. constructor.
    + apply IH; [| |exact Hx].
      * apply adj_all_cons in Hadj as (_ & H). exact H.
      * intros y Hy. apply Hsz. by right.
  - apply adj_all_app in Hadj as (_ & H2 & _).
    apply (laid_out_after st b l2 H2).
    intros x Hx. apply Hsz, elem_of_app. auto.
Qed.

Lemma adj_all_join R l1 l2 :
  adj_all R (l1 ++ l2) <->
  adj_all R l1 /\ adj_all R l2 /\
  (forall g x y h, l1 = g ++ [x] -> l2 = y :: h -> R x y).
Proof.
  rewrite adj_all_app. split.
  - intros (H1 & H2 & H3). split_and!; auto.
    intros g x y h -> ->. apply H3; [|reflexivity].
    apply last_map_Some. eauto.
  - intros (H1 & H2 & H3). split_and!; auto.
    intros x y Hx Hy. apply last_map_Some in Hx as (g & ->).
    destruct l2 as [|z h]; [discriminate|]. injection Hy as ->.
    eapply H3; reflexivity.
Qed.

Lemma adj_all_mid R l1 b l2 :
  adj_all R (l1 ++ b :: l2) <->
  adj_all R l1 /\ adj_all R l2 /\
  (forall g x, l1 = g ++ [x] -> R x b) /\
  (forall y h, l2 = y :: h -> R b y).
Proof.
  rewrite adj_all_join, adj_all_cons. split.
  - intros (H1 & (Hb & H2) & H3). split_and!; auto.
    + intros g x ->. eapply H3; reflexivity.
    + intros y h ->. apply Hb. reflexivity.
  - intros (H1 & H2 & H3 & H4). split_and!; auto.
    + intros y Hy. destruct l2 as [|z h]; [discriminate|]. injection Hy as ->.
      eapply H4; reflexivity.
    + intros g x y h -> [= <- <-]. eapply H3; reflexivity.
Qed.

(** * Well-formed heaps *)

Lemma SSIZE_MAX_val : SSIZE_MAX = 9223372036854775807.
Proof. reflexivity. Qed.

Lemma SIZE_MAX_val : SIZE_MAX = 18446744073709551615.
Proof. reflexivity. Qed.

Lemma heap_ok_sub st l fl a : heap_ok st l fl -> a ∈ fl -> a ∈ l.
Proof. intros Hok Ha. apply (ok_flags _ _ _ Hok) in Ha. tauto. Qed.

Lemma heap_ok_free st l fl a :
  heap_ok st l fl -> a ∈ fl -> is_free (hdr st a) = true.
Proof. intros Hok Ha. apply (ok_flags _ _ _ Hok) in Ha. tauto. Qed.

Lemma heap_ok_in_mem st l fl a : heap_ok st l fl -> a ∈ l -> in_mem st a.
Proof. intros Hok. apply spatial_chain_in_mem, (ok_spatial _ _ _ Hok). Qed.

Lemma heap_ok_not_null st l fl a : heap_ok st l fl -> a ∈ l -> a <> NULL.
Proof. intros Hok Ha. pose proof (ok_low _ _ _ Hok a Ha). unfold NULL. lia. Qed.

(** Sizes of heap blocks are far from wrapping. *)
Lemma heap_ok_size_bound st l fl a :
  heap_ok st l fl -> a ∈ l ->
  0 <= size (hdr st a) /\ a + hdr_size + size (hdr st a) <= SSIZE_MAX.
Proof.
  intros Hok Ha. split; [exact (ok_size _ _ _ Hok a Ha)|].
  pose proof (ok_brk _ _ _ Hok a Ha) as Hb. unfold block_end in Hb.
  pose proof (ok_top _ _ _ Hok). lia.
Qed.

Lemma heap_ok_live_not_free st l fl a :
  heap_ok st l fl -> is_free (hdr st a) = false -> a ∉ fl.
Proof.
  intros Hok Hf Ha. apply (ok_flags _ _ _ Hok) in Ha as (_ & Ht). congruence.
Qed.

(** The invariant only looks at the chains, the sizes, the flags and the
    break. *)
Lemma heap_ok_transfer st st' l fl fl' :
  heap_ok st l fl ->
  spatial_chain st' l ->
  free_chain st' fl' ->
  (forall a, a ∈ fl' <-> a ∈ l /\ is_free (hdr st' a) = true) ->
  (forall a, a ∈ l -> size (hdr st' a) = size (hdr st a)) ->
  (forall a, a ∈ l -> is_mmap (hdr st' a) = is_mmap (hdr st a)) ->
  cur_brk (os st') = cur_brk (os st) ->
  heap_ok st' l fl'.
Proof.
  intros Hok Hsc Hfc Hfl Hsz Hmm Hbrk.
  assert (Hend : forall a, a ∈ l -> block_end st' a = block_end st a).
  { intros a Ha. unfold block_end. rewrite Hsz by exact Ha. reflexivity. }
  split; [exact Hsc|exact Hfc|exact Hfl|..].
  - intros a Ha. rewrite Hmm by exact Ha. exact (ok_unmapped _ _ _ Hok a Ha).
  - intros a Ha. rewrite Hsz by exact Ha. exact (ok_size _ _ _ Hok a Ha).
  - exact (ok_low _ _ _ Hok).
  - eapply adj_all_impl; [|exact (ok_order _ _ _ Hok)].
    intros a b Ha Hb. cbv beta. rewrite Hend by exact Ha. auto.
  - intros a Ha. rewrite Hend, Hbrk by exact Ha. exact (ok_brk _ _ _ Hok a Ha).
  - rewrite Hbrk. exact (ok_top _ _ _ Hok).
Qed.

Lemma heap_ok_links st st' l fl fl' :
  heap_ok st l fl -> links_only st st' ->
  free_chain st' fl' ->
  (forall a, a ∈ fl' <-> a ∈ l /\ is_free (hdr st' a) = true) ->
  heap_ok st' l fl'.
Proof.
  intros Hok Hlo Hfc Hfl.
  eapply heap_ok_transfer; [exact Hok| |exact Hfc|exact Hfl|..].
  - exact (spatial_chain_links_only _ _ _ Hlo (ok_spatial _ _ _ Hok)).
  - intros a _. apply (lo_size _ _ Hlo).
  - intros a _. apply (lo_is_mmap _ _ Hlo).
  - rewrite (lo_os _ _ Hlo). reflexivity.
Qed.

(** Taking a block off the free chain turns it into a live block. *)
Lemma remove_free_ok st l fl b :
  heap_ok st l fl -> b ∈ fl ->
  exists st', remove_free b st = Some (tt, st') /\
    heap_ok st' l (without b fl) /\
    links_only st st' /\
    (forall a, is_free (hdr st' a) =
       if decide (a = b) then false else is_free (hdr st a)).
Proof.
  intros Hok Hb.
  destruct (free_chain_remove_elem _ _ _ (ok_free _ _ _ Hok) Hb)
    as (st' & Hrun & Hfc & Hlo & Hfree).
  exists st'. split_and!; [exact Hrun| |exact Hlo|exact Hfree].
  eapply heap_ok_links; [exact Hok|exact Hlo|exact Hfc|].
  intros a. rewrite elem_of_without, (ok_flags _ _ _ Hok), Hfree.
  case_decide; subst; [split; [tauto|intros (_ & ?); discriminate]|tauto].
Qed.

(** Pushing a live block onto the free chain turns it into a free one. *)
Lemma insert_free_ok st l fl b :
  heap_ok st l fl -> b ∈ l -> is_free (hdr st b) = false ->
  exists st', insert_free b st = Some (tt, st') /\
    heap_ok st' l (b :: fl) /\
    links_only st st' /\
    (forall a, is_free (hdr st' a) =
       if decide (a = b) then true else is_free (hdr st a)).
Proof.
  intros Hok Hb Hlive.
  destruct (free_chain_insert st fl b (ok_free _ _ _ Hok))
    as (st' & Hrun & Hfc & Hlo & Hfree).
  { exact (heap_ok_live_not_free _ _ _ _ Hok Hlive). }
  { exact (heap_ok_not_null _ _ _ _ Hok Hb). }
  exists st'. split_and!; [exact Hrun| |exact Hlo|exact Hfree].
  eapply heap_ok_links; [exact Hok|exact Hlo|exact Hfc|].
  intros a. rewrite elem_of_cons, (ok_flags _ _ _ Hok), Hfree.
  case_decide; subst; tauto.
Qed.

(** In a well-formed heap no header lies inside the payload of a block. *)
Lemma heap_ok_payload_clear st l1 b l2 fl a :
  heap_ok st (l1 ++ b :: l2) fl ->
  (a ∈ l1 ++ b :: l2) \/ (a ∈ fl) ->
  ~ (payload_of b <= a < payload_of b + size (hdr st b)).
Proof.
  intros Hok Ha.
  assert (Hal : a ∈ l1 ++ b :: l2).
  { destruct Ha as [Ha|Ha]; [exact Ha|exact (heap_ok_sub _ _ _ _ Hok Ha)]. }
  destruct (laid_out_split st l1 b l2 (ok_order _ _ _ Hok) (ok_size _ _ _ Hok))
    as (Hbefore & Hafter).
  assert (Hsa : 0 <= size (hdr st a)) by exact (ok_size _ _ _ Hok a Hal).
  unfold payload_of, sizeof_block_hdr_t.
  rewrite elem_of_app, elem_of_cons in Hal. destruct Hal as [H1|[->|H2]].
  - specialize (Hbefore a H1). unfold block_end in Hbefore.
    rewrite hdr_size_val in Hbefore. lia.
  - lia.
  - specialize (Hafter a H2). unfold block_end in Hafter.
    rewrite hdr_size_val in Hafter. lia.
Qed.

(** [split_block] keeps the heap well-formed. *)
Lemma split_block_ok st l1 b l2 fl n :
  heap_ok st (l1 ++ b :: l2) fl ->
  0 <= n <= size (hdr st b) ->
  let new_hdr := payload_of b + n in
  if decide (n + hdr_size + MIN_SPLIT_SIZE <= size (hdr st b)) then
    exists st', split_block b n st = Some (tt, st') /\
      heap_ok st' (l1 ++ b :: new_hdr :: l2) (new_hdr :: fl) /\
      (new_hdr ∉ l1 ++ b :: l2) /\
      size (hdr st' new_hdr) = size (hdr st b) - n - hdr_size /\
      is_free (hdr st' new_hdr) = true /\
      size (hdr st' b) = n /\
      is_free (hdr st' b) = is_free (hdr st b) /\
      (forall a, a <> b -> a <> new_hdr ->
         size (hdr st' a) = size (hdr st a) /\
         is_free (hdr st' a) = is_free (hdr st a) /\
         is_mmap (hdr st' a) = is_mmap (hdr st a)) /\
      os st' = os st /\ bytes st' = bytes st
  else split_block b n st = Some (tt, st).
Proof.
  intros Hok Hn new_hdr.
  assert (Hbin : b ∈ l1 ++ b :: l2) by (apply elem_of_app; right; constructor).
  destruct (heap_ok_size_bound _ _ _ _ Hok Hbin) as (Hs0 & Hs1).
  pose proof (ok_low _ _ _ Hok b Hbin) as Hb0.
  rewrite hdr_size_val, SSIZE_MAX_val in Hs1.
  pose proof (split_block_chains st b n l1 l2 fl (ok_spatial _ _ _ Hok)
                (ok_free _ _ _ Hok) Hb0 Hn) as Hsplit.
  cbv zeta in Hsplit. fold new_hdr in Hsplit.
  specialize (Hsplit ltac:(rewrite SIZE_MAX_val; lia)).
  specialize (Hsplit ltac:(rewrite SIZE_MAX_val, hdr_size_val; unfold MIN_SPLIT_SIZE; lia)).
  specialize (Hsplit (fun a => heap_ok_payload_clear _ _ _ _ _ a Hok)).
  case_decide as Hdec; [|exact Hsplit].
  destruct Hsplit as (st' & Hrun & Hsc & Hfc & Hsnew & Hfnew & Hmnew & Hsb & Hfb
                      & Hmb & Hframe & Hhead & Hos & Hbytes).
  assert (Hfresh : forall a, a ∈ l1 ++ b :: l2 -> a <> new_hdr).
  { intros a Ha ->.
    apply (heap_ok_payload_clear _ _ _ _ _ new_hdr Hok (or_introl Ha)).
    unfold new_hdr. rewrite hdr_size_val in *. unfold MIN_SPLIT_SIZE in *. lia. }
  assert (Hnew_l : new_hdr ∉ l1 ++ b :: l2).
  { intros Hin. exact (Hfresh _ Hin eq_refl). }
  assert (Hbnew : b <> new_hdr) by (apply Hfresh, Hbin).
  assert (Hend_other : forall a, a ∈ l1 ++ b :: l2 -> a <> b ->
            block_end st' a = block_end st a).
  { intros a Ha Hab. unfold block_end.
    destruct (Hframe a Hab (Hfresh a Ha)) as (-> & _). reflexivity. }
  assert (Hend_b : block_end st' b = new_hdr).
  { unfold block_end. rewrite Hsb.
    unfold new_hdr, payload_of, sizeof_block_hdr_t. rewrite hdr_size_val. lia. }
  assert (Hend_new : block_end st' new_hdr = block_end st b).
  { unfold block_end. rewrite Hsnew.
    unfold new_hdr, payload_of, sizeof_block_hdr_t. rewrite hdr_size_val. lia. }
  pose proof (spatial_chain_NoDup _ _ (ok_spatial _ _ _ Hok)) as Hnd.
  assert (Hb1 : b ∉ l1).
  { intros Hin. apply NoDup_app in Hnd as (_ & Hd & _). apply (Hd b Hin). constructor. }
  assert (Hb2 : b ∉ l2).
  { intros Hin. apply NoDup_app in Hnd as (_ & _ & Hnd).
    apply NoDup_cons in Hnd as (Hnb & _). auto. }
  exists st'. split_and!; try assumption.
  split; [exact Hsc|exact Hfc|..].
  - (* flags *)
    intros a. rewrite elem_of_cons, (ok_flags _ _ _ Hok).
    rewrite !elem_of_app, !elem_of_cons.
    destruct (decide (a = new_hdr)) as [->|Hanew].
    { split; [intros _; split; [auto|exact Hfnew]|auto]. }
    destruct (decide (a = b)) as [->|Hab].
    { rewrite Hfb. tauto. }
    destruct (Hframe a Hab Hanew) as (_ & -> & _). tauto.
  - (* no mapped block *)
    intros a Ha.
    destruct (decide (a = new_hdr)) as [->|Hanew]; [exact Hmnew|].
    assert (Hal : a ∈ l1 ++ b :: l2).
    { rewrite !elem_of_app, !elem_of_cons in *. tauto. }
    destruct (decide (a = b)) as [->|Hab].
    { rewrite Hmb. exact (ok_unmapped _ _ _ Hok b Hal). }
    destruct (Hframe a Hab Hanew) as (_ & _ & ->).
    exact (ok_unmapped _ _ _ Hok a Hal).
  - (* sizes *)
    intros a Ha.
    destruct (decide (a = new_hdr)) as [->|Hanew].
    { rewrite Hsnew. rewrite hdr_size_val in *. unfold MIN_SPLIT_SIZE in *. lia. }
    assert (Hal : a ∈ l1 ++ b :: l2).
    { rewrite !elem_of_app, !elem_of_cons in *. tauto. }
    destruct (decide (a = b)) as [->|Hab]; [rewrite Hsb; lia|].
    destruct (Hframe a Hab Hanew) as (-> & _).
    exact (ok_size _ _ _ Hok a Hal).
  - (* positive addresses *)
    intros a Ha.
    destruct (decide (a = new_hdr)) as [->|Hanew].
    { unfold new_hdr, payload_of, sizeof_block_hdr_t. lia. }
    apply (ok_low _ _ _ Hok). rewrite !elem_of_app, !elem_of_cons in *. tauto.
  - (* address order *)
    pose proof (ok_order _ _ _ Hok) as Hord.
    apply adj_all_mid in Hord as (Ho1 & Ho2 & Ho3 & Ho4).
    apply adj_all_mid. split_and!.
    + eapply adj_all_impl; [|exact Ho1]. intros x y Hx Hy. cbv beta.
      rewrite Hend_other; [auto|apply elem_of_app; auto|congruence].
    + apply adj_all_cons. split.
      * intros y Hy. rewrite Hend_new. destruct l2 as [|z h]; [discriminate|].
        injection Hy as ->. eapply Ho4. reflexivity.
      * eapply adj_all_impl; [|exact Ho2]. intros x y Hx Hy. cbv beta.
        rewrite Hend_other; [auto|apply elem_of_app; right; by constructor|congruence].
    + intros g x ->. rewrite Hend_other.
      * eapply Ho3. reflexivity.
      * rewrite <- app_assoc. apply elem_of_app. right. constructor.
      * intros ->. apply Hb1, elem_of_app. right. constructor.
    + intros y h [= <- <-]. rewrite Hend_b. apply Z.le_refl.
  - (* below the break *)
    intros a Ha. rewrite Hos.
    destruct (decide (a = new_hdr)) as [->|Hanew].
    { rewrite Hend_new. exact (ok_brk _ _ _ Hok b Hbin). }
    assert (Hal : a ∈ l1 ++ b :: l2).
    { rewrite !elem_of_app, !elem_of_cons in *. tauto. }
    destruct (decide (a = b)) as [->|Hab].
    { rewrite Hend_b. pose proof (ok_brk _ _ _ Hok b Hbin) as Hbb.
      unfold block_end in Hbb. unfold new_hdr, payload_of, sizeof_block_hdr_t.
      rewrite hdr_size_val in Hbb. lia. }
    rewrite Hend_other by assumption. exact (ok_brk _ _ _ Hok a Hal).
  - rewrite Hos. exact (ok_top _ _ _ Hok).
Qed.

(** * Merging a block with its successor *)

Lemma bind_ret_tt (m : M unit) st : bind m (fun _ => ret tt) st = m st.
Proof. unfold bind, ret. destruct (m st) as [[[] st']|]; reflexivity. Qed.

(** The statements that [coalesce_with_next] and [mm_realloc] share: the
    free successor [n] of [b] leaves the free chain, [b] takes over its
    header and payload, and [n] leaves the spatial chain. *)
Lemma merge_next_chains st l1 b n g fl :
  spatial_chain st (l1 ++ b :: n :: g) ->
  free_chain st fl -> n ∈ fl ->
  exists st',
    (forall (A : Type) (k : M A),
       (remove_free n ;;
        let* bs := rd size b in
        let* ns := rd size n in
        wr (with_size (size_add bs (size_add hdr_size ns))) b ;;
        let* nn := rd next n in
        wr (with_next nn) b ;;
        let* nn := rd next n in
        (if nonnull nn then wr (with_prev b) nn else put (with_all_tail b)) ;;
        k) st = k st') /\
    (remove_free n ;;
     let* bs := rd size b in
     let* ns := rd size n in
     wr (with_size (size_add bs (size_add hdr_size ns))) b ;;
     let* nn := rd next n in
     wr (with_next nn) b ;;
     let* nn := rd next n in
     (if nonnull nn then wr (with_prev b) nn else put (with_all_tail b))) st
      = Some (tt, st') /\
    free_chain st' (without n fl) /\
    spatial_chain st' (l1 ++ b :: g) /\
    size (hdr st' b) = wrap (size (hdr st b) + hdr_size + size (hdr st n)) /\
    (forall a, a <> b -> size (hdr st' a) = size (hdr st a)) /\
    (forall a, is_mmap (hdr st' a) = is_mmap (hdr st a)) /\
    (forall a, is_free (hdr st' a) =
       if decide (a = n) then false else is_free (hdr st a)) /\
    all_head st' = all_head st /\ os st' = os st /\ bytes st' = bytes st.
Proof.
  intros Hsc Hfc Hnfl.
  assert (Hbin : b ∈ l1 ++ b :: n :: g) by (apply elem_of_app; right; constructor).
  assert (Hnin : n ∈ l1 ++ b :: n :: g).
  { apply elem_of_app; right; right; constructor. }
  pose proof (spatial_chain_in_mem _ _ _ Hsc Hbin) as Hinb.
  pose proof (spatial_chain_in_mem _ _ _ Hsc Hnin) as Hinn.
  pose proof (spatial_chain_NoDup _ _ Hsc) as Hnd.
  pose proof (spatial_chain_not_null _ _ _ Hsc Hbin) as Hb0.
  destruct Hsc as (Hseg & Hback & Htail & Hmem).
  assert (Hbn : b <> n).
  { intros ->. apply NoDup_app in Hnd as (_ & _ & Hnd).
    apply NoDup_cons in Hnd as (Hnd & _). apply Hnd. constructor. }
  assert (Hl : l1 ++ b :: n :: g = (l1 ++ [b]) ++ n :: g).
  { rewrite <- app_assoc. reflexivity. }
  assert (Hpn : prev (hdr st n) = b).
  { rewrite Hl in Hback. apply back_app in Hback as (_ & Hb2).
    cbn [back] in Hb2. destruct Hb2 as (Hpn & _).
    rewrite last_app_cons in Hpn. exact Hpn. }
  destruct (free_chain_remove_elem _ _ _ Hfc Hnfl) as (st1 & Hrun1 & Hfc1 & Hlo1 & Hfree1).
  assert (Hinb1 : in_mem st1 b) by (apply (lo_in_mem _ _ Hlo1), Hinb).
  assert (Hinn1 : in_mem st1 n) by (apply (lo_in_mem _ _ Hlo1), Hinn).
  set (nn := next (hdr st n)).
  assert (Hnn : (g = [] /\ nn = NULL) \/ (exists g', g = nn :: g' /\ nn <> NULL)).
  { rewrite Hl in Hseg. exact (seg_next_cases _ _ _ _ _ Hseg). }
  assert (exists st2,
    (forall (A : Type) (k : M A),
       (remove_free n ;;
        let* bs := rd size b in
        let* ns := rd size n in
        wr (with_size (size_add bs (size_add hdr_size ns))) b ;;
        let* nn := rd next n in
        wr (with_next nn) b ;;
        let* nn := rd next n in
        (if nonnull nn then wr (with_prev b) nn else put (with_all_tail b)) ;;
        k) st = k st2) /\
    (remove_free n ;;
     let* bs := rd size b in
     let* ns := rd size n in
     wr (with_size (size_add bs (size_add hdr_size ns))) b ;;
     let* nn := rd next n in
     wr (with_next nn) b ;;
     let* nn := rd next n in
     (if nonnull nn then wr (with_prev b) nn else put (with_all_tail b))) st
      = Some (tt, st2) /\
    (forall a, next (hdr st2 a) = if decide (a = b) then nn else next (hdr st a)) /\
    (forall a, prev (hdr st2 a) =
       if decide (a = nn /\ nn <> NULL) then b else prev (hdr st a)) /\
    (forall a, size (hdr st2 a) =
       if decide (a = b)
       then size_add (size (hdr st b)) (size_add hdr_size (size (hdr st n)))
       else size (hdr st a)) /\
    (forall a, is_free (hdr st2 a) = is_free (hdr st1 a)) /\
    (forall a, is_mmap (hdr st2 a) = is_mmap (hdr st a)) /\
    (forall a, next_free (hdr st2 a) = next_free (hdr st1 a) /\
               prev_free (hdr st2 a) = prev_free (hdr st1 a)) /\
    (forall a, in_mem st1 a -> in_mem st2 a) /\
    all_tail st2 = (if nonnull nn then all_tail st else b) /\
    all_head st2 = all_head st /\ free_head st2 = free_head st1 /\
    os st2 = os st /\ bytes st2 = bytes st) as Hst2.
  { destruct (nonnull_case nn) as [[Hn0 Hnnn]|[Hn0 Hnnn]].
    all: eexists; split;
      [intros A k; rewrite (bind_run _ _ _ _ _ Hrun1); run; fld; decide_hyps;
       rewrite ?(lo_next _ _ Hlo1); fold nn; rewrite Hnnn; run; reflexivity|].
    all: split;
      [rewrite (bind_run _ _ _ _ _ Hrun1); run; fld; decide_hyps;
       rewrite ?(lo_next _ _ Hlo1); fold nn; rewrite Hnnn; reflexivity|].
    all: split_and!.
    all: try solve [heads; rewrite ?Hnnn, ?(lo_all_tail _ _ Hlo1),
                      ?(lo_all_head _ _ Hlo1),
                      ?(lo_os _ _ Hlo1), ?(lo_bytes _ _ Hlo1); reflexivity].
    all: try solve [intros a; fld;
                    rewrite ?(lo_next _ _ Hlo1), ?(lo_prev _ _ Hlo1),
                      ?(lo_size _ _ Hlo1), ?(lo_is_mmap _ _ Hlo1); cases].
    all: try solve [intros a Ha; mem_tac]. }
  destruct Hst2 as (st2 & Hrun2 & Hplain2 & Hnext & Hprev & Hsize & Hfree & Hmmap & Hfl
                    & Hmem2 & Htail2 & Hhead2 & Hfh2 & Hos2 & Hbytes2).
  exists st2. split; [exact Hrun2|]. split; [exact Hplain2|].
  assert (Hfc2 : free_chain st2 (without n fl)).
  { eapply free_chain_frame; [exact Hfh2| |exact Hmem2|exact Hfc1].
    intros a _. apply Hfl. }
  rewrite Hl in Hseg, Hback.
  destruct (chain_unlink _ _ (fun a => next (hdr st2 a))
              (fun a => prev (hdr st2 a)) _ _ _ _ Hseg Hback)
    as (Hseg' & Hback' & _ & _).
  { intros a Ha. rewrite Hnext, Hpn. fold nn. cases. }
  { intros a Ha. rewrite Hprev, Hpn. fold nn. cases. }
  rewrite Hpn, (proj2 (nonnull_true b) Hb0) in Hseg'.
  rewrite <- !app_assoc in *. cbn [app] in *.
  split_and!.
  - exact Hfc2.
  - split_and!.
    + rewrite Hhead2. exact Hseg'.
    + exact Hback'.
    + rewrite Htail2. rewrite last_app_cons. rewrite !last_app_cons in Htail.
      destruct Hnn as [(-> & Hn0)|(g' & -> & Hn1)].
      * rewrite (proj2 (nonnull_false nn) Hn0). reflexivity.
      * rewrite (proj2 (nonnull_true nn) Hn1), Htail.
        rewrite !last_cons_default. reflexivity.
    + rewrite Forall_forall in Hmem. rewrite Forall_forall. intros a Ha.
      apply Hmem2, (lo_in_mem _ _ Hlo1), Hmem.
      rewrite elem_of_app, !elem_of_cons in *. tauto.
  - rewrite Hsize. decide_hyps. unfold size_add. rewrite wrap_add_r. f_equal. lia.
  - intros a Ha. rewrite Hsize. decide_hyps. reflexivity.
  - exact Hmmap.
  - intros a. rewrite Hfree, Hfree1. reflexivity.
  - exact Hhead2.
  - exact Hos2.
  - exact Hbytes2.
Qed.

Lemma merge_next_ok st l1 b n g fl :
  heap_ok st (l1 ++ b :: n :: g) fl ->
  is_free (hdr st n) = true ->
  exists st',
    (forall (A : Type) (k : M A),
       (remove_free n ;;
        let* bs := rd size b in
        let* ns := rd size n in
        wr (with_size (size_add bs (size_add hdr_size ns))) b ;;
        let* nn := rd next n in
        wr (with_next nn) b ;;
        let* nn := rd next n in
        (if nonnull nn then wr (with_prev b) nn else put (with_all_tail b)) ;;
        k) st = k st') /\
    (remove_free n ;;
     let* bs := rd size b in
     let* ns := rd size n in
     wr (with_size (size_add bs (size_add hdr_size ns))) b ;;
     let* nn := rd next n in
     wr (with_next nn) b ;;
     let* nn := rd next n in
     (if nonnull nn then wr (with_prev b) nn else put (with_all_tail b))) st
      = Some (tt, st') /\
    heap_ok st' (l1 ++ b :: g) (without n fl) /\
    size (hdr st' b) = size (hdr st b) + hdr_size + size (hdr st n) /\
    (forall a, a <> b -> size (hdr st' a) = size (hdr st a)) /\
    (forall a, is_free (hdr st' a) =
       if decide (a = n) then false else is_free (hdr st a)) /\
    os st' = os st /\ bytes st' = bytes st.
Proof.
  intros Hok Hnfree.
  assert (Hbin : b ∈ l1 ++ b :: n :: g) by (apply elem_of_app; right; constructor).
  assert (Hnin : n ∈ l1 ++ b :: n :: g).
  { apply elem_of_app; right; right; constructor. }
  assert (Hnfl : n ∈ fl) by (apply (ok_flags _ _ _ Hok); auto).
  destruct (merge_next_chains _ _ _ _ _ _ (ok_spatial _ _ _ Hok) (ok_free _ _ _ Hok) Hnfl)
    as (st' & Hrun & Hplain & Hfc & Hsc & Hsb & Hsz & Hmm & Hfree & Hhead & Hos & Hbytes).
  pose proof (spatial_chain_NoDup _ _ (ok_spatial _ _ _ Hok)) as Hnd.
  assert (Hmem_l : forall a, a ∈ l1 ++ b :: g <-> a ∈ l1 ++ b :: n :: g /\ a <> n).
  { intros a. rewrite !elem_of_app, !elem_of_cons.
    apply NoDup_app in Hnd as (_ & Hd & Hnd).
    apply NoDup_cons in Hnd as (Hb & Hnd). apply NoDup_cons in Hnd as (Hn & _).
    split.
    - intros [H1|[->|Hg]].
      + split; [auto|]. intros ->. apply (Hd n H1). right. constructor.
      + split; [auto|]. intros <-. apply Hb. constructor.
      + split; [auto|]. intros ->. auto.
    - tauto. }
  destruct (heap_ok_size_bound _ _ _ _ Hok Hbin) as (Hb0 & Hb1).
  destruct (heap_ok_size_bound _ _ _ _ Hok Hnin) as (Hn0 & Hn1).
  pose proof (ok_low _ _ _ Hok b Hbin) as Hblow.
  pose proof (ok_order _ _ _ Hok) as Hord.
  apply adj_all_mid in Hord as (Ho1 & Ho2 & Ho3 & Ho4).
  pose proof (Ho4 n g eq_refl) as Hbn_le. unfold block_end in Hbn_le.
  rewrite hdr_size_val, SSIZE_MAX_val in *.
  assert (Hsb' : size (hdr st' b) = size (hdr st b) + 48 + size (hdr st n)).
  { rewrite Hsb. apply wrap_small. rewrite SIZE_MAX_val. lia. }
  assert (Hend_other : forall a, a <> b -> block_end st' a = block_end st a).
  { intros a Ha. unfold block_end. rewrite Hsz by exact Ha. reflexivity. }
  assert (Hend_b : block_end st' b <= block_end st n).
  { unfold block_end. rewrite Hsb', hdr_size_val. lia. }
  assert (Hb1' : b ∉ l1).
  { intros Hin. apply NoDup_app in Hnd as (_ & Hd & _). apply (Hd b Hin). constructor. }
  assert (Hbg : b ∉ g).
  { intros Hin. apply NoDup_app in Hnd as (_ & _ & Hnd).
    apply NoDup_cons in Hnd as (Hb & _). apply Hb. by right. }
  exists st'. split_and!; try assumption.
  split; [exact Hsc|exact Hfc|..].
  - intros a. rewrite elem_of_without, (ok_flags _ _ _ Hok), Hmem_l, Hfree.
    case_decide; subst; [split; [tauto|intros (_ & ?); discriminate]|tauto].
  - intros a Ha. rewrite Hmm. apply (ok_unmapped _ _ _ Hok), Hmem_l, Ha.
  - intros a Ha. destruct (decide (a = b)) as [->|Hab]; [rewrite Hsb'; lia|].
    rewrite Hsz by exact Hab. apply (ok_size _ _ _ Hok), Hmem_l, Ha.
  - intros a Ha. apply (ok_low _ _ _ Hok), Hmem_l, Ha.
  - apply adj_all_mid. apply adj_all_cons in Ho2 as (Hng & Ho2). split_and!.
    + eapply adj_all_impl; [|exact Ho1]. intros x y Hx Hy. cbv beta.
      rewrite Hend_other; [auto|congruence].
    + eapply adj_all_impl; [|exact Ho2]. intros x y Hx Hy. cbv beta.
      rewrite Hend_other; [auto|congruence].
    + intros g0 x ->. rewrite Hend_other.
      * eapply Ho3. reflexivity.
      * intros ->. apply Hb1', elem_of_app. right. constructor.
    + intros y h ->. etransitivity; [exact Hend_b|]. apply Hng. reflexivity.
  - intros a Ha. rewrite Hos. destruct (decide (a = b)) as [->|Hab].
    + etransitivity; [exact Hend_b|]. exact (ok_brk _ _ _ Hok n Hnin).
    + rewrite Hend_other by exact Hab. apply (ok_brk _ _ _ Hok), Hmem_l, Ha.
  - rewrite Hos. exact (ok_top _ _ _ Hok).
Qed.

(** How [coalesce_with_next] runs: its guard, and then the merge. *)
Lemma coalesce_next_run st l1 b l2 :
  spatial_chain st (l1 ++ b :: l2) ->
  let n := next (hdr st b) in
  if nonnull n && is_free (hdr st n) && negb (is_mmap (hdr st n)) then
    exists g, l2 = n :: g /\
      coalesce_with_next b st =
      (remove_free n ;;
       let* bs := rd size b in
       let* ns := rd size n in
       wr (with_size (size_add bs (size_add hdr_size ns))) b ;;
       let* nn := rd next n in
       wr (with_next nn) b ;;
       let* nn := rd next n in
       (if nonnull nn then wr (with_prev b) nn else put (with_all_tail b))) st
  else coalesce_with_next b st = Some (tt, st).
Proof.
  intros Hsc n.
  assert (Hbin : b ∈ l1 ++ b :: l2) by (apply elem_of_app; right; constructor).
  pose proof (spatial_chain_in_mem _ _ _ Hsc Hbin) as Hinb.
  assert (Hn : (l2 = [] /\ n = NULL) \/ (exists g, l2 = n :: g /\ n <> NULL)).
  { destruct Hsc as (Hseg & _). exact (seg_next_cases _ _ _ _ _ Hseg). }
  unfold coalesce_with_next. run. fold n.
  destruct Hn as [(-> & Hn0)|(g & -> & Hn1)].
  { rewrite (proj2 (nonnull_false n) Hn0). reflexivity. }
  rewrite (proj2 (nonnull_true n) Hn1). cbn [negb andb].
  assert (Hinn : in_mem st n).
  { apply (spatial_chain_in_mem _ _ _ Hsc), elem_of_app. right. right. constructor. }
  run.
  destruct (is_free (hdr st n)) eqn:Hnfree; cbn [negb andb]; [|reflexivity].
  run.
  destruct (is_mmap (hdr st n)) eqn:Hnmap; cbn [negb]; [reflexivity|].
  exists g. split; reflexivity.
Qed.

(** [coalesce_with_next] keeps the heap well-formed. *)
Lemma coalesce_next_ok st l1 b l2 fl :
  heap_ok st (l1 ++ b :: l2) fl ->
  let n := next (hdr st b) in
  if nonnull n && is_free (hdr st n) then
    exists st' g, l2 = n :: g /\
      coalesce_with_next b st = Some (tt, st') /\
      heap_ok st' (l1 ++ b :: g) (without n fl) /\
      size (hdr st' b) = size (hdr st b) + hdr_size + size (hdr st n) /\
      (forall a, a <> b -> size (hdr st' a) = size (hdr st a)) /\
      (forall a, is_free (hdr st' a) =
         if decide (a = n) then false else is_free (hdr st a)) /\
      os st' = os st /\ bytes st' = bytes st
  else
    coalesce_with_next b st = Some (tt, st) /\
    forall y g, l2 = y :: g -> is_free (hdr st y) = false.
Proof.
  intros Hok n.
  pose proof (coalesce_next_run st l1 b l2 (ok_spatial _ _ _ Hok)) as Hrun.
  cbv zeta in Hrun. fold n in Hrun.
  assert (Hn : (l2 = [] /\ n = NULL) \/ (exists g, l2 = n :: g /\ n <> NULL)).
  { destruct (ok_spatial _ _ _ Hok) as (Hseg & _).
    exact (seg_next_cases _ _ _ _ _ Hseg). }
  destruct Hn as [(-> & Hn0)|(g & -> & Hn1)].
  { rewrite (proj2 (nonnull_false n) Hn0) in *. cbn [andb] in *.
    split; [exact Hrun|]. intros y g ?. discriminate. }
  rewrite (proj2 (nonnull_true n) Hn1) in *. cbn [andb] in *.
  assert (Hnm : is_mmap (hdr st n) = false).
  { apply (ok_unmapped _ _ _ Hok), elem_of_app. right. right. constructor. }
  rewrite Hnm in Hrun. cbn [negb] in Hrun. rewrite andb_true_r in Hrun.
  destruct (is_free (hdr st n)) eqn:Hnfree.
  - destruct Hrun as (g' & Hg & Hrun). injection Hg as <-.
    destruct (merge_next_ok _ _ _ _ _ _ Hok Hnfree) as (st' & Hk & Hplain & Hrest).
    exists st', g. split; [reflexivity|].
    split; [rewrite Hrun; exact Hplain|exact Hrest].
  - split; [exact Hrun|]. intros y g' [= <- <-]. exact Hnfree.
Qed.

(** * Merging a block into its predecessor *)

(** [coalesce_with_prev] keeps the heap well-formed. *)
Lemma coalesce_prev_ok st l1 b l2 fl :
  heap_ok st (l1 ++ b :: l2) fl ->
  is_free (hdr st b) = true ->
  let p := prev (hdr st b) in
  if nonnull p && is_free (hdr st p) then
    exists st' g, l1 = g ++ [p] /\
      coalesce_with_prev b st = Some (p, st') /\
      heap_ok st' (g ++ p :: l2) (p :: without p (without b fl)) /\
      size (hdr st' p) = size (hdr st p) + hdr_size + size (hdr st b) /\
      (forall a, a <> p -> size (hdr st' a) = size (hdr st a)) /\
      (forall a, is_free (hdr st' a) =
         if decide (a = b) then false else is_free (hdr st a)) /\
      os st' = os st /\ bytes st' = bytes st
  else
    coalesce_with_prev b st = Some (b, st) /\
    forall g x, l1 = g ++ [x] -> is_free (hdr st x) = false.
Proof.
  intros Hok Hbfree p.
  pose proof (coalesce_prev_chains st b l1 l2 fl (ok_spatial _ _ _ Hok)
                (ok_free _ _ _ Hok)) as Hrun.
  cbv zeta in Hrun. fold p in Hrun.
  assert (Hbin : b ∈ l1 ++ b :: l2) by (apply elem_of_app; right; constructor).
  assert (Hbfl : b ∈ fl) by (apply (ok_flags _ _ _ Hok); auto).
  assert (Hp : (l1 = [] /\ p = NULL) \/ (exists g, l1 = g ++ [p] /\ p <> NULL)).
  { destruct (ok_spatial _ _ _ Hok) as (Hseg & Hback & _).
    apply (back_prev_cases _ _ _ _ Hback). intros a Ha.
    apply (seg_not_null _ _ _ _ _ Hseg), elem_of_app. auto. }
  destruct Hp as [(-> & Hp0)|(g & -> & Hp1)].
  { rewrite (proj2 (nonnull_false p) Hp0) in *. cbn [andb] in *.
    split; [exact Hrun|]. intros g x Hg. destruct g; discriminate. }
  rewrite (proj2 (nonnull_true p) Hp1) in *. cbn [andb] in *.
  assert (Hpin : p ∈ (g ++ [p]) ++ b :: l2).
  { rewrite <- app_assoc. apply elem_of_app. right. constructor. }
  assert (Hpm : is_mmap (hdr st p) = false) by exact (ok_unmapped _ _ _ Hok p Hpin).
  rewrite Hpm in Hrun. cbn [negb] in Hrun. rewrite andb_true_r in Hrun.
  destruct (is_free (hdr st p)) eqn:Hpfree.
  2: { split; [exact Hrun|]. intros g' x Hg. apply app_inj_tail in Hg as (_ & <-).
       exact Hpfree. }
  assert (Hpfl : p ∈ fl) by (apply (ok_flags _ _ _ Hok); auto).
  destruct (Hrun Hbfl Hpfl)
    as (st' & g' & Hg & Hrun' & Hfc & Hsc & Hsp & Hfp & Hframe & Hmp & Hhead & Hos & Hbytes).
  apply app_inj_tail in Hg as (<- & _).
  pose proof (spatial_chain_NoDup _ _ (ok_spatial _ _ _ Hok)) as Hnd.
  rewrite <- app_assoc in Hnd. cbn [app] in Hnd.
  assert (Hpb : p <> b).
  { intros Heq. apply NoDup_app in Hnd as (_ & _ & Hnd).
    apply NoDup_cons in Hnd as (Hnd & _). apply Hnd. rewrite Heq. constructor. }
  assert (Hmem_l : forall a, a ∈ g ++ p :: l2 <-> a ∈ (g ++ [p]) ++ b :: l2 /\ a <> b).
  { intros a. rewrite <- app_assoc. cbn [app].
    rewrite !elem_of_app, !elem_of_cons.
    apply NoDup_app in Hnd as (_ & Hd & Hnd).
    apply NoDup_cons in Hnd as (Hp' & Hnd). apply NoDup_cons in Hnd as (Hb & _).
    split.
    - intros [H1|[->|H2]].
      + split; [auto|]. intros ->. apply (Hd b H1). right. constructor.
      + split; [auto|]. exact Hpb.
      + split; [auto|]. intros ->. auto.
    - tauto. }
  destruct (heap_ok_size_bound _ _ _ _ Hok Hbin) as (Hb0 & Hb1).
  destruct (heap_ok_size_bound _ _ _ _ Hok Hpin) as (Hp0 & Hp1').
  pose proof (ok_low _ _ _ Hok p Hpin) as Hplow.
  pose proof (ok_order _ _ _ Hok) as Hord.
  rewrite <- app_assoc in Hord. cbn [app] in Hord.
  apply adj_all_mid in Hord as (Ho1 & Ho2 & Ho3 & Ho4).
  pose proof (Ho4 b l2 eq_refl) as Hpb_le. unfold block_end in Hpb_le.
  rewrite hdr_size_val, SSIZE_MAX_val in *.
  assert (Hsp' : size (hdr st' p) = size (hdr st p) + 48 + size (hdr st b)).
  { rewrite Hsp. apply wrap_small. rewrite SIZE_MAX_val. lia. }
  assert (Hend_other : forall a, a <> p -> block_end st' a = block_end st a).
  { intros a Ha. unfold block_end. destruct (Hframe a Ha) as (-> & _). reflexivity. }
  assert (Hend_p : block_end st' p <= block_end st b).
  { unfold block_end. rewrite Hsp', hdr_size_val. lia. }
  assert (Hpg : p ∉ g).
  { intros Hin. apply NoDup_app in Hnd as (_ & Hd & _). apply (Hd p Hin). constructor. }
  assert (Hp2 : p ∉ l2).
  { intros Hin. apply NoDup_app in Hnd as (_ & _ & Hnd).
    apply NoDup_cons in Hnd as (Hp' & _). apply Hp'. by right. }
  assert (Hfree_all : forall a, is_free (hdr st' a) =
            if decide (a = b) then false else is_free (hdr st a)).
  { intros a. destruct (decide (a = p)) as [->|Hap].
    - rewrite Hfp. decide_hyps. symmetry. exact Hpfree.
    - destruct (Hframe a Hap) as (_ & _ & ->). reflexivity. }
  exists st', g. split; [reflexivity|]. split; [exact Hrun'|].
  split_and!; try assumption.
  2: { intros a Ha. destruct (Hframe a Ha) as (-> & _). reflexivity. }
  split; [exact Hsc|exact Hfc|..].
  - intros a. rewrite elem_of_cons, !elem_of_without, (ok_flags _ _ _ Hok), Hmem_l.
    rewrite Hfree_all.
    destruct (decide (a = b)) as [->|Hab].
    { split; [intros [?|?]; [congruence|tauto]|intros (_ & ?); discriminate]. }
    destruct (decide (a = p)) as [->|Hap]; [|tauto].
    split; [intros _; auto|auto].
  - intros a Ha. destruct (decide (a = p)) as [->|Hap]; [exact Hmp|].
    destruct (Hframe a Hap) as (_ & -> & _).
    apply (ok_unmapped _ _ _ Hok), Hmem_l, Ha.
  - intros a Ha. destruct (decide (a = p)) as [->|Hap]; [rewrite Hsp'; lia|].
    destruct (Hframe a Hap) as (-> & _). apply (ok_size _ _ _ Hok), Hmem_l, Ha.
  - intros a Ha. apply (ok_low _ _ _ Hok), Hmem_l, Ha.
  - apply adj_all_mid. apply adj_all_cons in Ho2 as (Hbl2 & Ho2). split_and!.
    + eapply adj_all_impl; [|exact Ho1]. intros x y Hx Hy. cbv beta.
      rewrite Hend_other; [auto|congruence].
    + eapply adj_all_impl; [|exact Ho2]. intros x y Hx Hy. cbv beta.
      rewrite Hend_other; [auto|congruence].
    + intros g0 x ->. rewrite Hend_other.
      * eapply Ho3. reflexivity.
      * intros ->. apply Hpg, elem_of_app. right. constructor.
    + intros y h ->. etransitivity; [exact Hend_p|]. apply Hbl2. reflexivity.
  - intros a Ha. rewrite Hos. destruct (decide (a = p)) as [->|Hap].
    + etransitivity; [exact Hend_p|]. exact (ok_brk _ _ _ Hok b Hbin).
    + rewrite Hend_other by exact Hap. apply (ok_brk _ _ _ Hok), Hmem_l, Ha.
  - rewrite Hos. exact (ok_top _ _ _ Hok).
Qed.

(** * Giving the tail back to the kernel *)

Section ReleaseLoop.

Variable pol : os_policy.

(** One round of the loop of [try_release_memory_to_os], with what it
    leaves alone. *)
Lemma release_tail_effect st l t fl :
  spatial_chain st (l ++ [t]) ->
  free_chain st fl -> t ∈ fl ->
  0 <= size (hdr st t) -> hdr_size + size (hdr st t) < 2 ^ 63 ->
  let total := hdr_size + size (hdr st t) in
  exists st1,
    release_tail pol st = Some (tt, st1) /\
    free_chain st1 (without t fl) /\
    spatial_chain st1 l /\
    (t ∉ l) /\
    (forall a, size (hdr st1 a) = size (hdr st a)) /\
    (forall a, is_mmap (hdr st1 a) = is_mmap (hdr st a)) /\
    (forall a, is_free (hdr st1 a) =
       if decide (a = t) then false else is_free (hdr st a)) /\
    bytes st1 = bytes st /\
    maps (os st1) = maps (os st) /\
    cur_brk (os st1) =
      (if brk_ok pol (os st) t then t
       else if sbrk_ok pol (tick (os st)) (- total)
            then cur_brk (os st) - total
            else cur_brk (os st)).
Proof.
  intros Hsc Hfc Htfl Hs0 Hs1 total.
  assert (Htin : t ∈ l ++ [t]) by (apply elem_of_app; right; constructor).
  pose proof (spatial_chain_in_mem _ _ _ Hsc Htin) as Hin.
  pose proof (spatial_chain_NoDup _ _ Hsc) as Hnd.
  destruct Hsc as (Hseg & Hback & Htail & Hmem).
  rewrite last_app_cons in Htail. simpl in Htail.
  destruct (free_chain_remove_elem _ _ _ Hfc Htfl) as (st1 & Hrun1 & Hfc1 & Hlo1 & Hfree1).
  assert (Hin1 : in_mem st1 t) by (apply (lo_in_mem _ _ Hlo1), Hin).
  set (tp := prev (hdr st t)).
  assert (Htp : (l = [] /\ tp = NULL) \/ (exists g, l = g ++ [tp] /\ tp <> NULL)).
  { apply (back_prev_cases _ _ _ _ Hback). intros a Ha.
    apply (seg_not_null _ _ _ _ _ Hseg), elem_of_app. auto. }
  assert (Htotal : to_ssize (size_add hdr_size (size (hdr st t))) = total).
  { unfold size_add. rewrite hdr_size_val in *.
    rewrite wrap_small by (unfold SIZE_MAX; rewrite SIZE_MOD_val; lia).
    apply to_ssize_small. unfold total. rewrite hdr_size_val. lia. }
  (* the state after the tail is unlinked, before the system calls *)
  assert (exists st2,
    (forall k : M unit,
      ((if nonnull tp then wr (with_next NULL) tp else put (with_all_head NULL));; k)
        (with_all_tail tp st1) = k st2) /\
    (forall a, next (hdr st2 a) =
       if decide (a = tp /\ tp <> NULL) then NULL else next (hdr st a)) /\
    (forall a, prev (hdr st2 a) = prev (hdr st a)) /\
    (forall a, size (hdr st2 a) = size (hdr st a)) /\
    (forall a, is_mmap (hdr st2 a) = is_mmap (hdr st a)) /\
    (forall a, is_free (hdr st2 a) = is_free (hdr st1 a)) /\
    (forall a, next_free (hdr st2 a) = next_free (hdr st1 a) /\
               prev_free (hdr st2 a) = prev_free (hdr st1 a)) /\
    (forall a, in_mem st1 a -> in_mem st2 a) /\
    all_tail st2 = tp /\
    all_head st2 = (if nonnull tp then all_head st else NULL) /\
    free_head st2 = free_head st1 /\
    os st2 = os st /\ bytes st2 = bytes st) as Hst2.
  { destruct (nonnull_case tp) as [[Hb0' Hbnn]|[Hb0' Hbnn]]; rewrite Hbnn.
    all: eexists; split; [intros k; run; reflexivity|].
    all: split_and!.
    all: try solve [heads; rewrite ?(lo_all_head _ _ Hlo1),
                      ?(lo_os _ _ Hlo1), ?(lo_bytes _ _ Hlo1); reflexivity].
    all: try solve [intros a; fld;
                    rewrite ?(lo_next _ _ Hlo1), ?(lo_prev _ _ Hlo1),
                      ?(lo_size _ _ Hlo1), ?(lo_is_mmap _ _ Hlo1); cases].
    all: try solve [intros a Ha; mem_tac]. }
  destruct Hst2 as (st2 & Hrun2 & Hnext & Hprev & Hsize & Hmmap & Hfree2 & Hfl
                    & Hmem2 & Htail2 & Hhead2 & Hfh2 & Hos2 & Hbytes2).
  assert (Hfc2 : free_chain st2 (without t fl)).
  { eapply free_chain_frame; [exact Hfh2| |exact Hmem2|exact Hfc1].
    intros a _. apply Hfl. }
  assert (Htl : t ∉ l).
  { intros Hi. apply NoDup_app in Hnd as (_ & Hd & _). apply (Hd t Hi). constructor. }
  assert (Hsc2 : spatial_chain st2 l).
  { destruct (chain_unlink _ _ (fun a => next (hdr st2 a))
                (fun a => prev (hdr st2 a)) _ _ _ _ Hseg Hback)
      as (Hseg' & Hback' & Hpl & Hnl).
    { intros a Ha. rewrite Hnext. fold tp.
      rewrite (seg_next_hd _ _ _ _ _ Hseg). simpl. cases. }
    { intros a Ha. rewrite Hprev.
      rewrite (seg_next_hd _ _ _ _ _ Hseg). simpl.
      rewrite decide_False by (unfold NULL; tauto). reflexivity. }
    rewrite app_nil_r in *. fold tp in Hseg', Hpl.
    rewrite (seg_next_hd _ _ _ _ _ Hseg) in Hseg'. simpl in Hseg'.
    split_and!.
    - rewrite Hhead2. exact Hseg'.
    - exact Hback'.
    - rewrite Htail2. exact Hpl.
    - rewrite Forall_forall in Hmem. rewrite Forall_forall. intros a Ha.
      apply Hmem2, (lo_in_mem _ _ Hlo1), Hmem, elem_of_app. auto. }
  (* the system calls *)
  assert (Hrel : exists st3, release_tail pol st = Some (tt, st3) /\
    mem st3 = mem st2 /\ all_head st3 = all_head st2 /\
    all_tail st3 = all_tail st2 /\ free_head st3 = free_head st2 /\
    bytes st3 = bytes st2 /\
    maps (os st3) = maps (os st) /\
    cur_brk (os st3) =
      (if brk_ok pol (os st) t then t
       else if sbrk_ok pol (tick (os st)) (- total)
            then cur_brk (os st) - total
            else cur_brk (os st))).
  { unfold release_tail. run. rewrite Htail.
    rewrite (bind_run _ _ _ _ _ Hrun1). run.
    rewrite (lo_size _ _ Hlo1), (lo_prev _ _ Hlo1). fold tp. heads.
    rewrite Hrun2, Htotal.
    rewrite (bind_run _ _ _ _ _ (brk_run _ _ _)). rewrite Hos2.
    destruct (brk_ok pol (os st) t).
    - eexists. split; [reflexivity|]. split_and!; reflexivity.
    - rewrite (bind_run _ _ _ _ _ (sbrk_run _ _ _)). cbn [os with_os].
      replace (0 - total) with (- total) by lia.
      destruct (sbrk_ok pol (tick (os st)) (- total)).
      + eexists. split; [reflexivity|]. split_and!; reflexivity.
      + eexists. split; [reflexivity|]. split_and!; reflexivity. }
  destruct Hrel as (st3 & Hrun3 & Hm3 & Hh3 & Ht3 & Hf3 & Hb3 & Hmaps & Hbrk).
  assert (Hhdr3 : forall a, hdr st3 a = hdr st2 a).
  { intros a. unfold hdr. rewrite Hm3. reflexivity. }
  exists st3. split_and!.
  - exact Hrun3.
  - destruct Hfc2 as (Ha & Hb & Hc). split_and!.
    + rewrite Hf3. eapply seg_frame; [|exact Ha]. intros a _. simpl. rewrite Hhdr3. reflexivity.
    + eapply back_frame; [|exact Hb]. intros a _. simpl. rewrite Hhdr3. reflexivity.
    + eapply Forall_impl; [exact Hc|]. intros a. unfold in_mem. rewrite Hm3. auto.
  - destruct Hsc2 as (Ha & Hb & Hc & Hd). split_and!.
    + rewrite Hh3. eapply seg_frame; [|exact Ha]. intros a _. simpl. rewrite Hhdr3. reflexivity.
    + eapply back_frame; [|exact Hb]. intros a _. simpl. rewrite Hhdr3. reflexivity.
    + rewrite Ht3. exact Hc.
    + eapply Forall_impl; [exact Hd|]. intros a. unfold in_mem. rewrite Hm3. auto.
  - exact Htl.
  - intros a. rewrite Hhdr3. apply Hsize.
  - intros a. rewrite Hhdr3. apply Hmmap.
  - intros a. rewrite Hhdr3, Hfree2. apply Hfree1.
  - rewrite Hb3. exact Hbytes2.
  - exact Hmaps.
  - exact Hbrk.
Qed.

(** Releasing a free tail keeps the heap well-formed; the break ends up
    between the released block and where it was. *)
Lemma release_tail_ok st l t fl :
  heap_ok st (l ++ [t]) fl ->
  is_free (hdr st t) = true ->
  exists st1,
    release_tail pol st = Some (tt, st1) /\
    heap_ok st1 l (without t fl) /\
    (forall a, size (hdr st1 a) = size (hdr st a)) /\
    (forall a, is_free (hdr st1 a) =
       if decide (a = t) then false else is_free (hdr st a)) /\
    bytes st1 = bytes st /\
    maps (os st1) = maps (os st) /\
    t <= cur_brk (os st1) <= cur_brk (os st) /\
    (brk_ok pol (os st) t = true -> cur_brk (os st1) = t) /\
    (cur_brk (os st1) = t \/
     cur_brk (os st1) = cur_brk (os st) - (hdr_size + size (hdr st t)) \/
     cur_brk (os st1) = cur_brk (os st)).
Proof.
  intros Hok Htfree.
  assert (Htin : t ∈ l ++ [t]) by (apply elem_of_app; right; constructor).
  assert (Htfl : t ∈ fl) by (apply (ok_flags _ _ _ Hok); auto).
  destruct (heap_ok_size_bound _ _ _ _ Hok Htin) as (Ht0 & Ht1).
  pose proof (ok_low _ _ _ Hok t Htin) as Htlow.
  pose proof (ok_brk _ _ _ Hok t Htin) as Htbrk. unfold block_end in Htbrk.
  pose proof (ok_top _ _ _ Hok) as Htop.
  rewrite SSIZE_MAX_val in *.
  destruct (release_tail_effect st l t fl (ok_spatial _ _ _ Hok) (ok_free _ _ _ Hok)
              Htfl Ht0)
    as (st1 & Hrun & Hfc & Hsc & Htl & Hsz & Hmm & Hfree & Hbytes & Hmaps & Hbrk).
  { rewrite hdr_size_val in *. lia. }
  assert (Hbrk' : t <= cur_brk (os st1) <= cur_brk (os st)).
  { rewrite Hbrk. pose proof hdr_size_val as Hhs.
    destruct (brk_ok pol (os st) t); [lia|].
    destruct (sbrk_ok pol (tick (os st)) _); lia. }
  assert (Hend : forall a, block_end st1 a = block_end st a).
  { intros a. unfold block_end. rewrite Hsz. reflexivity. }
  destruct (laid_out_split st l t [] (ok_order _ _ _ Hok) (ok_size _ _ _ Hok))
    as (Hbefore & _).
  exists st1. split_and!; try assumption; try lia.
  2: { intros Hb. rewrite Hbrk, Hb. reflexivity. }
  2: { rewrite Hbrk. destruct (brk_ok pol (os st) t); [auto|].
       destruct (sbrk_ok pol (tick (os st)) _); auto. }
  split; [exact Hsc|exact Hfc|..].
  - intros a. rewrite elem_of_without, (ok_flags _ _ _ Hok), Hfree.
    rewrite elem_of_app, elem_of_cons, elem_of_nil.
    case_decide; subst; [split; [tauto|intros (_ & ?); discriminate]|tauto].
  - intros a Ha. rewrite Hmm. apply (ok_unmapped _ _ _ Hok), elem_of_app. auto.
  - intros a Ha. rewrite Hsz. apply (ok_size _ _ _ Hok), elem_of_app. auto.
  - intros a Ha. apply (ok_low _ _ _ Hok), elem_of_app. auto.
  - pose proof (ok_order _ _ _ Hok) as Hord.
    apply adj_all_join in Hord as (Ho1 & _).
    eapply adj_all_impl; [|exact Ho1]. intros x y _ _. cbv beta.
    rewrite Hend. auto.
  - intros a Ha. rewrite Hend. specialize (Hbefore a Ha). lia.
  - rewrite SSIZE_MAX_val. lia.
Qed.

Lemma tail_releasable_run st l :
  spatial_chain st l -> none_mapped st l ->
  tail_releasable st =
  Some (match List.last (List.map Some l) None with
        | Some t => is_free (hdr st t)
        | None => false
        end, st).
Proof.
  intros Hsc Hnm. unfold tail_releasable. run.
  destruct l as [|t l _] using rev_ind.
  - destruct Hsc as (_ & _ & Htail & _). simpl in Htail. rewrite Htail.
    reflexivity.
  - assert (Htin : t ∈ l ++ [t]) by (apply elem_of_app; right; constructor).
    pose proof (spatial_chain_in_mem _ _ _ Hsc Htin) as Hin.
    pose proof (spatial_chain_not_null _ _ _ Hsc Htin) as Hnn.
    destruct Hsc as (_ & _ & Htail & _). rewrite last_app_cons in Htail.
    simpl in Htail. rewrite Htail, (proj2 (nonnull_true t) Hnn).
    cbn [negb]. run.
    rewrite List.map_app. cbn [List.map]. rewrite last_app_cons. cbn [List.last].
    destruct (is_free (hdr st t)); cbn [negb]; [|reflexivity].
    run. rewrite (Hnm t Htin). reflexivity.
Qed.

(** The loop of [try_release_memory_to_os]: it gives back the longest
    run of free blocks at the end of the heap and stops. *)
Lemma try_release_ok l :
  forall st fl fuel,
  heap_ok st l fl -> (length l < fuel)%nat ->
  exists st' keep gone fl',
    l = keep ++ gone /\
    try_release_memory_to_os pol fuel st = Some (tt, st') /\
    heap_ok st' keep fl' /\
    Forall (fun a => is_free (hdr st a) = true) gone /\
    (forall g x, keep = g ++ [x] -> is_free (hdr st x) = false) /\
    (forall a, size (hdr st' a) = size (hdr st a)) /\
    (forall a, a ∉ gone -> is_free (hdr st' a) = is_free (hdr st a)) /\
    bytes st' = bytes st /\
    maps (os st') = maps (os st) /\
    cur_brk (os st') <= cur_brk (os st) /\
    (gone = [] -> st' = st /\ fl' = fl) /\
    (cur_brk (os st) mod ALIGNMENT = 0 ->
     (forall a, a ∈ l ->
        a mod ALIGNMENT = 0 /\ size (hdr st a) mod ALIGNMENT = 0) ->
     cur_brk (os st') mod ALIGNMENT = 0) /\
    ((forall o a, brk_ok pol o a = true) ->
     forall t g, gone = t :: g -> cur_brk (os st') = t).
Proof.
  induction l as [|t l IH] using rev_ind; intros st fl fuel Hok Hfuel.
  - destruct fuel as [|fuel]; [simpl in Hfuel; lia|].
    exists st, [], [], fl. split; [reflexivity|].
    cbn [try_release_memory_to_os].
    rewrite (bind_run _ _ _ _ _
      (tail_releasable_run st [] (ok_spatial _ _ _ Hok) (ok_unmapped _ _ _ Hok))).
    cbn [List.map List.last].
    split_and!; auto; try lia.
    + intros g x Hg. destruct g; discriminate.
    + intros _ t g Hg. discriminate.
  - destruct fuel as [|fuel]; [simpl in Hfuel; lia|].
    rewrite length_app in Hfuel. cbn [length] in Hfuel.
    cbn [try_release_memory_to_os].
    rewrite (bind_run _ _ _ _ _
      (tail_releasable_run st _ (ok_spatial _ _ _ Hok) (ok_unmapped _ _ _ Hok))).
    rewrite List.map_app. cbn [List.map]. rewrite last_app_cons. cbn [List.last].
    destruct (is_free (hdr st t)) eqn:Htfree.
    + destruct (release_tail_ok st l t fl Hok Htfree)
        as (st1 & Hrun1 & Hok1 & Hsz1 & Hfree1 & Hbytes1 & Hmaps1 & Hbrk1 & Hgrant & Hcases).
      rewrite (bind_run _ _ _ _ _ Hrun1).
      destruct (IH st1 (without t fl) fuel Hok1 ltac:(lia))
        as (st' & keep & gone & fl' & Hl & Hrun & Hok' & Hgone & Hkeep & Hsz & Hfree
            & Hbytes & Hmaps & Hbrk & Hnone & Halign & Hfirst).
      pose proof (spatial_chain_NoDup _ _ (ok_spatial _ _ _ Hok)) as Hnd.
      assert (Htl : t ∉ l).
      { intros Hi. apply NoDup_app in Hnd as (_ & Hd & _). apply (Hd t Hi). constructor. }
      exists st', keep, (gone ++ [t]), fl'. split_and!.
      * rewrite Hl, <- app_assoc. reflexivity.
      * exact Hrun.
      * exact Hok'.
      * apply Forall_app. split.
        -- eapply Forall_impl; [exact Hgone|]. intros a. cbv beta.
           rewrite Hfree1. case_decide; [discriminate|auto].
        -- constructor; [exact Htfree|constructor].
      * intros g x Hg. specialize (Hkeep g x Hg). rewrite Hfree1 in Hkeep.
        case_decide; [|exact Hkeep]. subst x. exfalso. apply Htl.
        rewrite Hl, Hg, <- app_assoc. apply elem_of_app. right.
        apply elem_of_app. left. constructor.
      * intros a. rewrite Hsz, Hsz1. reflexivity.
      * intros a Ha. rewrite Hfree.
        -- rewrite Hfree1. case_decide; [|reflexivity]. subst a.
           exfalso. apply Ha, elem_of_app. right. constructor.
        -- intros Hin. apply Ha, elem_of_app. auto.
      * rewrite Hbytes. exact Hbytes1.
      * rewrite Hmaps. exact Hmaps1.
      * lia.
      * intros Hnil. destruct gone; discriminate.
      * intros Hb Ha. apply Halign.
        -- destruct (Ha t) as (Ht & Hts); [apply elem_of_app; right; constructor|].
           unfold ALIGNMENT in *. rewrite hdr_size_val in Hcases.
           destruct Hcases as [->|[->| ->]]; [exact Ht| |exact Hb].
           replace (cur_brk (os st) - (48 + size (hdr st t)))
             with (cur_brk (os st) + (-(3) - size (hdr st t) / 16) * 16).
           ++ rewrite Z.mod_add by lia. exact Hb.
           ++ pose proof (Z.div_mod (size (hdr st t)) 16). lia.
        -- intros a Hal. rewrite Hsz1. apply Ha, elem_of_app. auto.
      * intros Hall t0 g Hg. destruct gone as [|x gone'].
        -- cbn [app] in Hg. injection Hg as <- <-.
           destruct (Hnone eq_refl) as (-> & _). apply Hgrant, Hall.
        -- cbn [app] in Hg. injection Hg as <- <-.
           exact (Hfirst Hall x gone' eq_refl).
    + exists st, (l ++ [t]), [], fl. split_and!; auto; try lia.
      * rewrite app_nil_r. reflexivity.
      * intros g x Hg. apply app_inj_tail in Hg as (_ & <-). exact Htfree.
      * intros _ t0 g Hg. discriminate.
Qed.

End ReleaseLoop.

(** * Growing the heap *)

Section Grow.

Variable pol : os_policy.

(** A granted [request_space_sbrk] puts a fresh live block at the old
    break and appends it to the spatial chain. *)
Lemma request_space_sbrk_chains st l sz :
  spatial_chain st l ->
  cur_brk (os st) ∉ l -> cur_brk (os st) <> NULL ->
  let total := size_add hdr_size sz in
  let b := cur_brk (os st) in
  if sbrk_ok pol (os st) total then
    exists st', request_space_sbrk pol sz st = Some (b, st') /\
      spatial_chain st' (l ++ [b]) /\
      hdr st' b = mk_hdr sz false false NULL (List.last l NULL) NULL NULL /\
      (forall a, a <> b ->
         size (hdr st' a) = size (hdr st a) /\
         is_free (hdr st' a) = is_free (hdr st a) /\
         is_mmap (hdr st' a) = is_mmap (hdr st a) /\
         next_free (hdr st' a) = next_free (hdr st a) /\
         prev_free (hdr st' a) = prev_free (hdr st a)) /\
      (forall a, in_mem st a -> in_mem st' a) /\
      free_head st' = free_head st /\ bytes st' = bytes st /\
      os st' = mk_os (b + total) (maps (os st)) (S (os_clock (os st)))
  else request_space_sbrk pol sz st = Some (NULL, with_os (tick (os st)) st).
Proof.
  intros Hsc Hbl Hb0 total b.
  pose proof (request_space_sbrk_effect pol sz st) as Hfail. cbv zeta in Hfail.
  fold total in Hfail.
  destruct (sbrk_ok pol (os st) total) eqn:Hgrant; [clear Hfail|exact Hfail].
  unfold request_space_sbrk. fold total.
  rewrite (bind_run _ _ _ _ _ (sbrk_run _ _ _)). rewrite Hgrant. fold b.
  pose proof (spatial_chain_NoDup _ _ Hsc) as Hnd.
  destruct Hsc as (Hseg & Hback & Htail & Hmem).
  run. heads.
  destruct l as [|t g _] using rev_ind.
  - (* the first block of the heap *)
    simpl in Hseg, Htail. rewrite ?Hseg, ?Htail.
    change (nonnull NULL) with false. cbn [negb when]. run. heads.
    rewrite ?Htail. change (nonnull NULL) with false. cbn [negb when]. run.
    eexists. split; [reflexivity|]. split_and!; try (heads; reflexivity).
    + split_and!.
      * cbn [seg app]. heads. split_and!; [reflexivity|exact Hb0|].
        fld. decide_hyps. reflexivity.
      * cbn [back app]. split; [|exact I]. fld. decide_hyps. reflexivity.
      * heads. reflexivity.
      * constructor; [mem_tac|constructor].
    + apply hdr_ext; fld; decide_hyps; reflexivity.
    + intros a Ha. fld. decide_hyps. auto.
    + intros a Ha. mem_tac.
  - (* after the tail [t] *)
    rewrite last_app_cons in Htail. simpl in Htail.
    assert (Htin : t ∈ g ++ [t]) by (apply elem_of_app; right; constructor).
    assert (Ht0 : t <> NULL) by exact (seg_not_null _ _ _ _ _ Hseg Htin).
    assert (Htb : t <> b) by (intros ->; exact (Hbl Htin)).
    assert (Hh0 : all_head st <> NULL).
    { rewrite (seg_start _ _ _ Hseg).
      destruct g as [|x g]; cbn [app List.hd]; [exact Ht0|].
      apply (seg_not_null _ _ _ _ _ Hseg). constructor. }
    rewrite ?Htail, (proj2 (nonnull_true _) Hh0), ?(proj2 (nonnull_true t) Ht0).
    cbn [negb when]. run. heads.
    rewrite ?Htail, ?(proj2 (nonnull_true t) Ht0). cbn [negb when]. run.
    eexists. split; [reflexivity|]. split_and!; try (heads; reflexivity).
    + apply seg_app in Hseg as (r & Hseg1 & Hseg2).
      cbn [seg] in Hseg2. destruct Hseg2 as (-> & _ & Hnt).
      apply NoDup_app in Hnd as (_ & Hd & _).
      split_and!.
      * heads. rewrite <- app_assoc. apply seg_app. exists t. split.
        -- eapply seg_frame; [|exact Hseg1]. intros a Ha. cbv beta. fld.
           assert (a <> t) by (intros ->; apply (Hd t Ha); constructor).
           assert (a <> b).
           { intros ->. apply Hbl, elem_of_app. auto. }
           decide_hyps. reflexivity.
        -- cbn [seg app]. split_and!; [reflexivity|exact Ht0| |exact Hb0|].
           ++ fld. decide_hyps. reflexivity.
           ++ fld. decide_hyps. reflexivity.
      * apply (proj2 (back_app _ _ _ _)). split.
        -- eapply back_frame; [|exact Hback]. intros a Ha. cbv beta. fld.
           assert (a <> b) by (intros ->; exact (Hbl Ha)).
           decide_hyps. reflexivity.
        -- cbn [back]. split; [|exact I]. rewrite last_app_cons. cbn [List.last].
           fld. decide_hyps. reflexivity.
      * heads. rewrite last_app_cons. reflexivity.
      * apply Forall_app. split.
        -- eapply Forall_impl; [exact Hmem|]. intros a Ha. mem_tac.
        -- constructor; [mem_tac|constructor].
    + rewrite last_app_cons. cbn [List.last].
      apply hdr_ext; fld; decide_hyps; reflexivity.
    + intros a Ha. fld. decide_hyps. auto.
    + intros a Ha. mem_tac.
Qed.

(** [request_space_sbrk] keeps the heap well-formed, granted or not. *)
Lemma request_space_sbrk_ok st l fl sz :
  heap_ok st l fl -> os_sane pol ->
  0 <= sz -> hdr_size + sz <= SIZE_MAX ->
  let b := cur_brk (os st) in
  if sbrk_ok pol (os st) (hdr_size + sz) then
    exists st', request_space_sbrk pol sz st = Some (b, st') /\
      heap_ok st' (l ++ [b]) fl /\
      (b ∉ l) /\
      size (hdr st' b) = sz /\
      is_free (hdr st' b) = false /\
      (forall a, a <> b ->
         size (hdr st' a) = size (hdr st a) /\
         is_free (hdr st' a) = is_free (hdr st a)) /\
      bytes st' = bytes st /\
      maps (os st') = maps (os st) /\
      cur_brk (os st') = b + hdr_size + sz
  else
    request_space_sbrk pol sz st = Some (NULL, with_os (tick (os st)) st) /\
    heap_ok (with_os (tick (os st)) st) l fl.
Proof.
  intros Hok Hsane Hsz0 Hsz1 b.
  pose proof (ok_top _ _ _ Hok) as Htop.
  assert (Hbl : b ∉ l).
  { intros Hin. pose proof (ok_brk _ _ _ Hok b Hin) as Hle.
    pose proof (ok_size _ _ _ Hok b Hin). unfold block_end in Hle.
    rewrite hdr_size_val in Hle. fold b in Hle. lia. }
  assert (Hb0 : b <> NULL) by (unfold b, NULL; lia).
  assert (Htotal : size_add hdr_size sz = hdr_size + sz).
  { unfold size_add. apply wrap_small. rewrite hdr_size_val in *. lia. }
  pose proof (request_space_sbrk_chains st l sz (ok_spatial _ _ _ Hok) Hbl Hb0) as Hrun.
  cbv zeta in Hrun. rewrite Htotal in Hrun. fold b in Hrun.
  destruct (sbrk_ok pol (os st) (hdr_size + sz)) eqn:Hgrant.
  - destruct Hrun as (st' & Hrun & Hsc & Hhdr & Hframe & Hmem & Hfh & Hbytes & Hos).
    pose proof (sbrk_top _ Hsane _ _ Hgrant ltac:(rewrite hdr_size_val; lia)) as Hnewtop.
    assert (Hend_other : forall a, a ∈ l -> block_end st' a = block_end st a).
    { intros a Ha. unfold block_end.
      destruct (Hframe a) as (-> & _); [intros ->; exact (Hbl Ha)|reflexivity]. }
    assert (Hbrk' : cur_brk (os st') = b + hdr_size + sz).
    { rewrite Hos. cbn. lia. }
    exists st'. split_and!; try assumption.
    + split; [exact Hsc|..].
      * eapply free_chain_frame; [exact Hfh| |exact Hmem|exact (ok_free _ _ _ Hok)].
        intros a Ha. destruct (Hframe a) as (_ & _ & _ & -> & ->); [|auto].
        intros ->. exact (Hbl (heap_ok_sub _ _ _ _ Hok Ha)).
      * intros a. rewrite (ok_flags _ _ _ Hok), elem_of_app, elem_of_cons, elem_of_nil.
        destruct (decide (a = b)) as [->|Hab].
        -- rewrite Hhdr. cbn [is_free]. split; [tauto|intros (_ & ?); discriminate].
        -- destruct (Hframe a Hab) as (_ & -> & _). tauto.
      * intros a Ha. apply elem_of_app in Ha as [Ha|Ha].
        -- destruct (Hframe a) as (_ & _ & -> & _); [intros ->; exact (Hbl Ha)|].
           exact (ok_unmapped _ _ _ Hok a Ha).
        -- apply elem_of_cons in Ha as [->|Ha]; [|inversion Ha].
           rewrite Hhdr. reflexivity.
      * intros a Ha. apply elem_of_app in Ha as [Ha|Ha].
        -- destruct (Hframe a) as (-> & _); [intros ->; exact (Hbl Ha)|].
           exact (ok_size _ _ _ Hok a Ha).
        -- apply elem_of_cons in Ha as [->|Ha]; [|inversion Ha].
           rewrite Hhdr. exact Hsz0.
      * intros a Ha. apply elem_of_app in Ha as [Ha|Ha].
        -- exact (ok_low _ _ _ Hok a Ha).
        -- apply elem_of_cons in Ha as [->|Ha]; [|inversion Ha]. unfold b. lia.
      * apply adj_all_join. split_and!.
        -- eapply adj_all_impl; [|exact (ok_order _ _ _ Hok)].
           intros x y Hx Hy. cbv beta. rewrite Hend_other by exact Hx. auto.
        -- cbn. auto.
        -- intros g x y h -> [= <- <-]. rewrite Hend_other.
           ++ apply (ok_brk _ _ _ Hok), elem_of_app. right. constructor.
           ++ apply elem_of_app. right. constructor.
      * intros a Ha. rewrite Hbrk'. apply elem_of_app in Ha as [Ha|Ha].
        -- rewrite Hend_other by exact Ha.
           pose proof (ok_brk _ _ _ Hok a Ha). fold b in H.
           rewrite hdr_size_val. lia.
        -- apply elem_of_cons in Ha as [->|Ha]; [|inversion Ha].
           unfold block_end. rewrite Hhdr. cbn [size]. lia.
      * rewrite Hbrk'. fold b in Hnewtop. rewrite hdr_size_val in *. lia.
    + rewrite Hhdr. reflexivity.
    + rewrite Hhdr. reflexivity.
    + intros a Ha. destruct (Hframe a Ha) as (-> & -> & _). auto.
    + rewrite Hos. reflexivity.
  - split; [exact Hrun|].
    eapply heap_ok_transfer; [exact Hok|..]; try reflexivity.
    + exact (ok_spatial _ _ _ Hok).
    + exact (ok_free _ _ _ Hok).
    + exact (ok_flags _ _ _ Hok).
Qed.

End Grow.

(** * [mm_malloc] on a well-formed heap *)

Lemma spatial_chain_frame st st' l :
  all_head st' = all_head st -> all_tail st' = all_tail st ->
  (forall a, a ∈ l ->
     next (hdr st' a) = next (hdr st a) /\ prev (hdr st' a) = prev (hdr st a)) ->
  (forall a, a ∈ l -> in_mem st a -> in_mem st' a) ->
  spatial_chain st l -> spatial_chain st' l.
Proof.
  intros Hh Ht Hf Hm (Hseg & Hback & Htail & Hmem). split_and!.
  - rewrite Hh. eapply seg_frame; [|exact Hseg]. intros a Ha. apply Hf, Ha.
  - eapply back_frame; [|exact Hback]. intros a Ha. apply Hf, Ha.
  - rewrite Ht. exact Htail.
  - rewrite Forall_forall in *. intros a Ha. apply Hm; auto.
Qed.

(** Writes to memory outside the heap leave the heap as it is. *)
Lemma heap_ok_frame st st' l fl :
  heap_ok st l fl ->
  (forall a, a ∈ l -> hdr st' a = hdr st a) ->
  (forall a, a ∈ l -> in_mem st a -> in_mem st' a) ->
  all_head st' = all_head st -> all_tail st' = all_tail st ->
  free_head st' = free_head st ->
  cur_brk (os st') = cur_brk (os st) ->
  heap_ok st' l fl.
Proof.
  intros Hok Hh Hm Hah Hat Hfh Hbrk.
  eapply heap_ok_transfer; [exact Hok|..].
  - eapply spatial_chain_frame; [exact Hah|exact Hat| |exact Hm|exact (ok_spatial _ _ _ Hok)].
    intros a Ha. rewrite Hh by exact Ha. auto.
  - destruct (ok_free _ _ _ Hok) as (Hseg & Hback & Hmem). split_and!.
    + rewrite Hfh. eapply seg_frame; [|exact Hseg]. intros a Ha. cbv beta.
      rewrite Hh; [reflexivity|exact (heap_ok_sub _ _ _ _ Hok Ha)].
    + eapply back_frame; [|exact Hback]. intros a Ha. cbv beta.
      rewrite Hh; [reflexivity|exact (heap_ok_sub _ _ _ _ Hok Ha)].
    + rewrite Forall_forall in *. intros a Ha.
      apply Hm; [exact (heap_ok_sub _ _ _ _ Hok Ha)|auto].
  - intros a. rewrite (ok_flags _ _ _ Hok). split.
    + intros (Ha & Hf). rewrite Hh by exact Ha. auto.
    + intros (Ha & Hf). rewrite Hh in Hf by exact Ha. auto.
  - intros a Ha. rewrite Hh by exact Ha. reflexivity.
  - intros a Ha. rewrite Hh by exact Ha. reflexivity.
  - exact Hbrk.
Qed.

Lemma with_is_free_same h v : is_free h = v -> with_is_free v h = h.
Proof. destruct h. cbn. intros ->. reflexivity. Qed.

Section MallocHeap.

Variable pol : os_policy.

(** A request below [MMAP_THRESHOLD]: the first fit is taken off the
    free chain and split when it is large enough; without a fit the heap
    grows by one block, or the call fails with nothing changed but the
    count of system calls. *)
Lemma mm_malloc_heap st l fl fuel n :
  heap_ok st l fl -> os_sane pol -> (length fl < fuel)%nat ->
  n <> 0 -> ALIGN_UP n < MMAP_THRESHOLD ->
  let sz := ALIGN_UP n in
  let b := first_fit st sz fl in
  if nonnull b then
    let new_hdr := payload_of b + sz in
    exists l1 l2 st', l = l1 ++ b :: l2 /\
      mm_malloc pol fuel n st = Some (payload_of b, st') /\
      b ∈ fl /\ sz <= size (hdr st b) /\
      (if decide (sz + hdr_size + MIN_SPLIT_SIZE <= size (hdr st b)) then
         heap_ok st' (l1 ++ b :: new_hdr :: l2) (new_hdr :: without b fl) /\
         (new_hdr ∉ l) /\
         size (hdr st' b) = sz /\
         size (hdr st' new_hdr) = size (hdr st b) - sz - hdr_size /\
         is_free (hdr st' new_hdr) = true
       else
         heap_ok st' l (without b fl) /\
         size (hdr st' b) = size (hdr st b) /\
         (forall a, a <> b ->
            size (hdr st' a) = size (hdr st a) /\
            is_free (hdr st' a) = is_free (hdr st a))) /\
      is_free (hdr st' b) = false /\
      (forall a, a <> b -> a <> new_hdr ->
         size (hdr st' a) = size (hdr st a) /\
         is_free (hdr st' a) = is_free (hdr st a)) /\
      os st' = os st /\ bytes st' = bytes st
  else
    let brk0 := cur_brk (os st) in
    if sbrk_ok pol (os st) (hdr_size + sz) then
      exists st', mm_malloc pol fuel n st = Some (payload_of brk0, st') /\
        heap_ok st' (l ++ [brk0]) fl /\
        (brk0 ∉ l) /\
        size (hdr st' brk0) = sz /\
        is_free (hdr st' brk0) = false /\
        (forall a, a <> brk0 ->
           size (hdr st' a) = size (hdr st a) /\
           is_free (hdr st' a) = is_free (hdr st a)) /\
        bytes st' = bytes st /\
        maps (os st') = maps (os st) /\
        cur_brk (os st') = brk0 + hdr_size + sz
    else
      mm_malloc pol fuel n st = Some (NULL, with_os (tick (os st)) st) /\
      heap_ok (with_os (tick (os st)) st) l fl.
Proof.
  intros Hok Hsane Hfuel Hn0 Hsmall sz b.
  pose proof (ALIGN_UP_range n) as Hszr. fold sz in Hszr, Hsmall.
  unfold mm_malloc.
  destruct (Z.eqb_spec n 0) as [?|_]; [contradiction|].
  fold sz.
  destruct (Z.geb_spec sz MMAP_THRESHOLD) as [?|_]; [lia|].
  destruct (ok_free _ _ _ Hok) as (Hseg & Hback & Hmem).
  unfold find_free_block. run.
  rewrite (bind_run _ _ _ _ _
             (find_free_loop_first_fit st sz fl fuel _ Hseg Hmem Hfuel)).
  fold b.
  destruct (nonnull_case b) as [[Hb Hbn]|[Hb Hbn]]; rewrite Hbn.
  - (* grow the heap *)
    cbv zeta.
    pose proof (request_space_sbrk_ok pol st l fl sz Hok Hsane (proj1 Hszr)) as Hgrow.
    cbv zeta in Hgrow.
    specialize (Hgrow ltac:(rewrite hdr_size_val, SIZE_MAX_val;
                            unfold MMAP_THRESHOLD in Hsmall; lia)).
    destruct (sbrk_ok pol (os st) (hdr_size + sz)).
    + destruct Hgrow as (st' & Hrun & Hrest).
      rewrite (bind_run _ _ _ _ _ Hrun).
      assert (Hnn : nonnull (cur_brk (os st)) = true).
      { apply nonnull_true. pose proof (ok_top _ _ _ Hok). unfold NULL. lia. }
      rewrite Hnn. cbn [negb]. exists st'. split; [reflexivity|exact Hrest].
    + destruct Hgrow as (Hrun & Hok').
      rewrite (bind_run _ _ _ _ _ Hrun). split; [reflexivity|exact Hok'].
  - (* reuse the first fit *)
    cbv zeta.
    destruct (first_fit_elem st sz fl Hb) as (Hbfl & Hbsz). fold b in Hbfl, Hbsz.
    pose proof (heap_ok_sub _ _ _ _ Hok Hbfl) as Hbl.
    destruct (list_elem_of_split _ _ Hbl) as (l1 & l2 & Hl).
    destruct (remove_free_ok st l fl b Hok Hbfl) as (st1 & Hrun1 & Hok1 & Hlo1 & Hfree1).
    rewrite (bind_run _ _ _ _ _ Hrun1). run.
    set (st1' := wr_state (with_is_free false) b st1).
    assert (Hhdr1 : forall a, hdr st1' a = hdr st1 a).
    { intros a. unfold st1'. rewrite hdr_wr_state. case_decide; [subst a|reflexivity].
      apply with_is_free_same. rewrite Hfree1. decide_hyps. reflexivity. }
    assert (Hok1' : heap_ok st1' l (without b fl)).
    { eapply heap_ok_frame; [exact Hok1|..]; try reflexivity.
      - intros a _. apply Hhdr1.
      - intros a _ Ha. unfold st1'. mem_tac. }
    rewrite Hl in Hok1'.
    assert (Hsz1 : size (hdr st1' b) = size (hdr st b)).
    { rewrite Hhdr1. apply (lo_size _ _ Hlo1). }
    pose proof (split_block_ok st1' l1 b l2 (without b fl) sz Hok1') as Hsplit.
    cbv zeta in Hsplit. rewrite Hsz1 in Hsplit.
    specialize (Hsplit ltac:(lia)).
    exists l1, l2.
    destruct (decide (sz + hdr_size + MIN_SPLIT_SIZE <= size (hdr st b))) as [Hbig|Hfit];
      cbv iota.
    + destruct Hsplit as (st' & Hrun & Hok' & Hnew & Hsnew & Hfnew & Hsb & Hfb
                          & Hframe & Hos & Hbytes).
      rewrite (bind_run _ _ _ _ _ Hrun).
      exists st'. split_and!; try assumption; try reflexivity.
      * rewrite Hl. exact Hnew.
      * rewrite Hfb, Hhdr1, Hfree1. decide_hyps. reflexivity.
      * intros a Hab Han. destruct (Hframe a Hab Han) as (-> & -> & _).
        rewrite !Hhdr1, (lo_size _ _ Hlo1), Hfree1. decide_hyps. auto.
      * rewrite Hos. unfold st1'. heads. apply (lo_os _ _ Hlo1).
      * rewrite Hbytes. unfold st1'. heads. apply (lo_bytes _ _ Hlo1).
    + rewrite (bind_run _ _ _ _ _ Hsplit).
      exists st1'. split_and!; try assumption; try reflexivity.
      * rewrite Hl. exact Hok1'.
      * intros a Hab.
        rewrite !Hhdr1, (lo_size _ _ Hlo1), Hfree1. decide_hyps. auto.
      * rewrite Hhdr1, Hfree1. decide_hyps. reflexivity.
      * intros a Hab Han.
        rewrite !Hhdr1, (lo_size _ _ Hlo1), Hfree1. decide_hyps. auto.
      * unfold st1'. heads. apply (lo_os _ _ Hlo1).
      * unfold st1'. heads. apply (lo_bytes _ _ Hlo1).
Qed.

(** A request of [MMAP_THRESHOLD] or more never touches the heap. *)
Lemma mm_malloc_mapped st l fl fuel n :
  heap_ok st l fl -> os_sane pol ->
  n <> 0 -> MMAP_THRESHOLD <= ALIGN_UP n ->
  let sz := ALIGN_UP n in
  match mmap_pick pol (os st) (size_add hdr_size sz) with
  | Some b =>
      exists st', mm_malloc pol fuel n st = Some (payload_of b, st') /\
        heap_ok st' l fl /\
        (b ∉ l) /\
        in_mem st' b /\
        hdr st' b = mk_hdr sz false true NULL NULL NULL NULL /\
        (forall a, a <> b -> hdr st' a = hdr st a) /\
        bytes st' = bytes st /\
        cur_brk (os st') = cur_brk (os st) /\
        cur_brk (os st) <= b
  | None =>
      mm_malloc pol fuel n st = Some (NULL, with_os (tick (os st)) st) /\
      heap_ok (with_os (tick (os st)) st) l fl
  end.
Proof.
  intros Hok Hsane Hn0 Hbig sz. fold sz in Hbig.
  unfold mm_malloc.
  destruct (Z.eqb_spec n 0) as [?|_]; [contradiction|].
  fold sz.
  destruct (Z.geb_spec sz MMAP_THRESHOLD) as [_|?]; [|lia].
  pose proof (request_mmap_effect pol sz st) as Hmm. cbv zeta in Hmm.
  destruct (mmap_pick pol (os st) (size_add hdr_size sz)) as [b|] eqn:Hpick.
  - destruct Hmm as (st' & Hrun & Hin & Hh & Hother & Hah & Hat & Hfh & Hbytes & Hos).
    pose proof (mmap_above _ Hsane _ _ _ Hpick) as Habove.
    pose proof (ok_top _ _ _ Hok) as Htop.
    assert (Hbl : b ∉ l).
    { intros Hi. pose proof (ok_brk _ _ _ Hok b Hi) as Hle.
      pose proof (ok_size _ _ _ Hok b Hi). unfold block_end in Hle.
      rewrite hdr_size_val in Hle. lia. }
    rewrite (bind_run _ _ _ _ _ Hrun).
    assert (Hnn : nonnull b = true) by (apply nonnull_true; unfold NULL; lia).
    rewrite Hnn. cbn [negb].
    assert (Hhdr : forall a, a <> b -> hdr st' a = hdr st a).
    { intros a Ha. unfold hdr, hdr_at. rewrite Hother by exact Ha. reflexivity. }
    exists st'. split_and!; try assumption; try reflexivity.
    + eapply heap_ok_frame; [exact Hok|..]; try assumption.
      * intros a Ha. apply Hhdr. intros ->. exact (Hbl Ha).
      * intros a Ha. unfold in_mem. rewrite Hother; [auto|].
        intros ->. exact (Hbl Ha).
      * rewrite Hos. reflexivity.
    + rewrite Hos. reflexivity.
  - rewrite (bind_run _ _ _ _ _ Hmm). cbn [nonnull negb Z.eqb NULL].
    split; [reflexivity|].
    eapply heap_ok_frame; [exact Hok|..]; try reflexivity; auto.
Qed.

End MallocHeap.

(** * [mm_free] on a well-formed heap *)

Lemma adj_all_flags st st' l :
  (forall a, a ∈ l -> is_free (hdr st' a) = is_free (hdr st a)) ->
  adj_all (not_both_free st) l -> adj_all (not_both_free st') l.
Proof.
  intros Hf. apply adj_all_impl. intros a c Ha Hc. unfold not_both_free.
  rewrite !Hf by assumption. auto.
Qed.

(** The forward merge inside [mm_free]. *)
Lemma free_merge_next st l1 b l2 fl :
  heap_ok st (l1 ++ b :: l2) fl ->
  is_free (hdr st b) = true ->
  exists st' r2 g2 fl',
    l2 = r2 ++ g2 /\
    coalesce_with_next b st = Some (tt, st') /\
    heap_ok st' (l1 ++ b :: g2) fl' /\
    is_free (hdr st' b) = true /\
    Forall (fun a => is_free (hdr st a) = true) r2 /\
    (forall a, a ∈ l1 ++ g2 ->
       size (hdr st' a) = size (hdr st a) /\
       is_free (hdr st' a) = is_free (hdr st a)) /\
    (adj_all (not_both_free st) l2 ->
     forall y h, g2 = y :: h -> is_free (hdr st y) = false) /\
    os st' = os st /\ bytes st' = bytes st /\
    size (hdr st b) <= size (hdr st' b) /\
    ((forall a, a ∈ b :: l2 -> size (hdr st a) mod ALIGNMENT = 0) ->
     size (hdr st' b) mod ALIGNMENT = 0).
Proof.
  intros Hok Hbfree.
  pose proof (spatial_chain_NoDup _ _ (ok_spatial _ _ _ Hok)) as Hnd.
  pose proof (coalesce_next_ok st l1 b l2 fl Hok) as Hn. cbv zeta in Hn.
  destruct (nonnull (next (hdr st b)) && is_free (hdr st (next (hdr st b)))) eqn:Hguard.
  - apply andb_true_iff in Hguard as (_ & Hnfree).
    set (n := next (hdr st b)) in *.
    destruct Hn as (st' & g & Hl2 & Hrun & Hok' & Hsb & Hsz & Hfree & Hos & Hbytes).
    subst l2.
    assert (Hbn : b <> n).
    { intros Heq. apply NoDup_app in Hnd as (_ & _ & Hnd).
      apply NoDup_cons in Hnd as (Hnd & _). apply Hnd. rewrite <- Heq. constructor. }
    assert (Hn_out : forall a, a ∈ l1 ++ g -> a <> n /\ a <> b).
    { intros a Ha. apply NoDup_app in Hnd as (_ & Hd & Hnd).
      apply NoDup_cons in Hnd as (Hb & Hnd). apply NoDup_cons in Hnd as (Hng & _).
      apply elem_of_app in Ha as [Ha|Ha]; split; intros ->.
      - apply (Hd n Ha). right. constructor.
      - apply (Hd b Ha). constructor.
      - auto.
      - apply Hb. by right. }
    exists st', [n], g, (without n fl). split_and!; try assumption; try reflexivity.
    + rewrite Hfree. decide_hyps. exact Hbfree.
    + constructor; [exact Hnfree|constructor].
    + intros a Ha. destruct (Hn_out a Ha) as (Han & Hab).
      rewrite Hsz by exact Hab. rewrite Hfree. decide_hyps. auto.
    + intros Hadj y h ->. cbn [adj_all] in Hadj. destruct Hadj as (Hny & _).
      unfold not_both_free in Hny.
      destruct (is_free (hdr st y)); [exfalso; apply Hny; auto|reflexivity].
    + rewrite Hsb, hdr_size_val.
      assert (0 <= size (hdr st n)); [|lia].
      apply (ok_size _ _ _ Hok), elem_of_app. right. right. constructor.
    + intros Hal. rewrite Hsb, hdr_size_val. unfold ALIGNMENT in *.
      pose proof (Hal b ltac:(constructor)) as Hb16.
      pose proof (Hal n ltac:(right; constructor)) as Hn16.
      rewrite <- Z.add_assoc, Z.add_mod, Hb16 by lia.
      rewrite (Z.add_mod 48), Hn16 by lia. reflexivity.
  - destruct Hn as (Hrun & Hhead).
    exists st, [], l2, fl. split_and!; try assumption; try reflexivity.
    + constructor.
    + intros a Ha. auto.
    + intros _ y h ->. eapply Hhead. reflexivity.
    + intros Hal. apply Hal. constructor.
Qed.

(** The backward merge inside [mm_free]. *)
Lemma free_merge_prev st l1 b l2 fl :
  heap_ok st (l1 ++ b :: l2) fl ->
  is_free (hdr st b) = true ->
  exists st' g1 r1 fl' x,
    l1 = g1 ++ r1 /\
    coalesce_with_prev b st = Some (x, st') /\
    heap_ok st' (g1 ++ x :: l2) fl' /\
    is_free (hdr st' x) = true /\
    (x = b \/ x ∈ r1) /\
    Forall (fun a => is_free (hdr st a) = true) r1 /\
    (forall a, a ∈ g1 ++ l2 ->
       size (hdr st' a) = size (hdr st a) /\
       is_free (hdr st' a) = is_free (hdr st a)) /\
    (adj_all (not_both_free st) l1 ->
     forall h y, g1 = h ++ [y] -> is_free (hdr st y) = false) /\
    os st' = os st /\ bytes st' = bytes st /\
    size (hdr st x) <= size (hdr st' x) /\
    ((forall a, a ∈ l1 ++ [b] -> size (hdr st a) mod ALIGNMENT = 0) ->
     size (hdr st' x) mod ALIGNMENT = 0).
Proof.
  intros Hok Hbfree.
  pose proof (spatial_chain_NoDup _ _ (ok_spatial _ _ _ Hok)) as Hnd.
  pose proof (coalesce_prev_ok st l1 b l2 fl Hok Hbfree) as Hp. cbv zeta in Hp.
  destruct (nonnull (prev (hdr st b)) && is_free (hdr st (prev (hdr st b)))) eqn:Hguard.
  - apply andb_true_iff in Hguard as (_ & Hpfree).
    set (p := prev (hdr st b)) in *.
    destruct Hp as (st' & g & Hl1 & Hrun & Hok' & Hsp & Hsz & Hfree & Hos & Hbytes).
    subst l1. rewrite <- app_assoc in Hnd. cbn [app] in Hnd.
    assert (Hpb : p <> b).
    { intros Heq. apply NoDup_app in Hnd as (_ & _ & Hnd).
      apply NoDup_cons in Hnd as (Hnd & _). apply Hnd. rewrite Heq. constructor. }
    assert (Hout : forall a, a ∈ g ++ l2 -> a <> p /\ a <> b).
    { intros a Ha. apply NoDup_app in Hnd as (_ & Hd & Hnd).
      apply NoDup_cons in Hnd as (Hp' & Hnd). apply NoDup_cons in Hnd as (Hb & _).
      apply elem_of_app in Ha as [Ha|Ha]; split; intros ->.
      - apply (Hd p Ha). constructor.
      - apply (Hd b Ha). right. constructor.
      - apply Hp'. by right.
      - auto. }
    exists st', g, [p], (p :: without p (without b fl)), p.
    split_and!; try assumption; try reflexivity.
    + rewrite Hfree. decide_hyps. exact Hpfree.
    + right. constructor.
    + constructor; [exact Hpfree|constructor].
    + intros a Ha. destruct (Hout a Ha) as (Hap & Hab).
      rewrite Hsz by exact Hap. rewrite Hfree. decide_hyps. auto.
    + intros Hadj h y ->. rewrite <- app_assoc in Hadj. cbn [app] in Hadj.
      apply adj_all_join in Hadj as (_ & Hyp & _).
      cbn [adj_all] in Hyp. destruct Hyp as (Hyp & _).
      unfold not_both_free in Hyp.
      destruct (is_free (hdr st y)); [exfalso; apply Hyp; auto|reflexivity].
    + rewrite Hsp, hdr_size_val.
      assert (0 <= size (hdr st b)); [|lia].
      apply (ok_size _ _ _ Hok), elem_of_app. right. constructor.
    + intros Hal. rewrite Hsp, hdr_size_val. unfold ALIGNMENT in *.
      pose proof (Hal b ltac:(apply elem_of_app; right; constructor)) as Hb16.
      pose proof (Hal p ltac:(apply elem_of_app; left; apply elem_of_app;
                              right; constructor)) as Hp16.
      rewrite <- Z.add_assoc, Z.add_mod, Hp16 by lia.
      rewrite (Z.add_mod 48), Hb16 by lia. reflexivity.
  - destruct Hp as (Hrun & Hlast).
    exists st, l1, [], fl, b. split_and!; try assumption; try reflexivity.
    + rewrite app_nil_r. reflexivity.
    + left. reflexivity.
    + constructor.
    + intros a Ha. auto.
    + intros _ h y ->. eapply Hlast. reflexivity.
    + intros Hal. apply Hal, elem_of_app. right. constructor.
Qed.

Section FreeHeap.

Variable pol : os_policy.

(** [mm_free] of a live heap block: the block is pushed on the free
    chain, merged with its free neighbours, and the free tail of the heap
    is given back. *)
Lemma mm_free_heap st l fl fuel p :
  heap_ok st l fl -> live st l (header_of p) -> (length l < fuel)%nat ->
  exists st' l' fl',
    mm_free pol fuel p st = Some (tt, st') /\
    heap_ok st' l' fl' /\
    (forall a, a ∈ l' -> a ∈ l) /\
    (forall a, live st l a -> a <> header_of p ->
       live st' l' a /\ size (hdr st' a) = size (hdr st a)) /\
    ~ live st' l' (header_of p) /\
    (no_adjacent_free st l -> no_adjacent_free st' l') /\
    (heap_aligned st l -> heap_aligned st' l') /\
    bytes st' = bytes st /\
    maps (os st') = maps (os st) /\
    cur_brk (os st') <= cur_brk (os st).
Proof.
  intros Hok (Hbl & Hblive) Hfuel.
  set (b := header_of p) in *.
  pose proof (ok_low _ _ _ Hok b Hbl) as Hblow.
  assert (Hp : nonnull p = true).
  { apply nonnull_true. unfold b, header_of, sizeof_block_hdr_t, NULL in *. lia. }
  pose proof (heap_ok_in_mem _ _ _ _ Hok Hbl) as Hinb.
  destruct (list_elem_of_split _ _ Hbl) as (l1 & l2 & Hl).
  pose proof (spatial_chain_NoDup _ _ (ok_spatial _ _ _ Hok)) as Hnd.
  rewrite Hl in Hnd.
  assert (Hb1 : b ∉ l1).
  { intros Hi. apply NoDup_app in Hnd as (_ & Hd & _). apply (Hd b Hi). constructor. }
  assert (Hb2 : b ∉ l2).
  { intros Hi. apply NoDup_app in Hnd as (_ & _ & Hnd').
    apply NoDup_cons in Hnd' as (Hnb & _). auto. }
  assert (H12 : forall a, a ∈ l1 -> a ∉ l2).
  { intros a H1 H2. apply NoDup_app in Hnd as (_ & Hd & _).
    apply (Hd a H1). by right. }
  (* push on the free chain *)
  destruct (insert_free_ok st l fl b Hok Hbl Hblive) as (stA & HrunA & HokA & HloA & HfreeA).
  rewrite Hl in HokA.
  assert (HbfreeA : is_free (hdr stA b) = true).
  { rewrite HfreeA. decide_hyps. reflexivity. }
  (* merge forwards, then backwards *)
  destruct (free_merge_next stA l1 b l2 (b :: fl) HokA HbfreeA)
    as (stB & r2 & g2 & flB & Hl2 & HrunB & HokB & HbfreeB & Hr2 & HframeB & HheadB
        & HosB & HbytesB & HgrowB & HalignB).
  destruct (free_merge_prev stB l1 b g2 flB HokB HbfreeB)
    as (stC & g1 & r1 & flC & x & Hl1 & HrunC & HokC & HxfreeC & Hx & Hr1 & HframeC
        & HlastC & HosC & HbytesC & HgrowC & HalignC).
  (* give the tail back *)
  assert (HlenC : (length (g1 ++ x :: g2) < fuel)%nat).
  { rewrite Hl, Hl1, Hl2 in Hfuel. rewrite !length_app in *. cbn [length] in *.
    rewrite !length_app in *. lia. }
  destruct (try_release_ok pol (g1 ++ x :: g2) stC flC fuel HokC HlenC)
    as (st' & keep & gone & fl' & Hkg & Hrun & Hok' & Hgone & Hkeep & Hsz' & Hfree'
        & Hbytes' & Hmaps' & Hbrk' & _ & Halign' & _).
  pose proof (spatial_chain_NoDup _ _ (ok_spatial _ _ _ HokC)) as HndC.
  rewrite Hkg in HndC.
  assert (Hkeep_gone : forall a, a ∈ keep -> a ∉ gone).
  { intros a Hk Hg. apply NoDup_app in HndC as (_ & Hd & _). exact (Hd a Hk Hg). }
  (* the flags and sizes of the blocks that stay *)
  assert (Hstay : forall a, a ∈ g1 ++ g2 ->
            size (hdr stC a) = size (hdr st a) /\
            is_free (hdr stC a) = is_free (hdr st a)).
  { intros a Ha.
    assert (Ha' : a ∈ l1 ++ g2).
    { rewrite Hl1. rewrite !elem_of_app in *. tauto. }
    assert (Hab : a <> b).
    { intros ->. apply elem_of_app in Ha' as [?|Hg]; [auto|].
      apply Hb2. rewrite Hl2. apply elem_of_app. auto. }
    destruct (HframeC a Ha) as (-> & ->).
    destruct (HframeB a Ha') as (-> & ->).
    rewrite (lo_size _ _ HloA), HfreeA. decide_hyps. auto. }
  assert (Hx_in : x ∈ l1 ++ [b]).
  { destruct Hx as [->|Hx]; apply elem_of_app; [right; constructor|left].
    rewrite Hl1. apply elem_of_app. auto. }
  assert (Hsub : forall a, a ∈ g1 ++ x :: g2 -> a ∈ l).
  { intros a Ha. rewrite Hl. rewrite Hl1, Hl2 in *.
    rewrite !elem_of_app, !elem_of_cons, ?elem_of_app in *.
    rewrite elem_of_nil in Hx_in.
    destruct Ha as [?|[->|?]]; tauto. }
  exists st', keep, fl'.
  split_and!.
  - unfold mm_free. rewrite Hp. cbn [negb]. fold b. run.
    rewrite (ok_unmapped _ _ _ Hok b Hbl).
    rewrite (bind_run _ _ _ _ _ HrunA), (bind_run _ _ _ _ _ HrunB),
      (bind_run _ _ _ _ _ HrunC).
    exact Hrun.
  - exact Hok'.
  - intros a Ha. apply Hsub. rewrite Hkg. apply elem_of_app. auto.
  - intros a (Hal & Halive) Hab.
    assert (Hag : a ∈ g1 ++ g2).
    { rewrite Hl in Hal. rewrite elem_of_app, elem_of_cons in Hal.
      destruct Hal as [H1|[?|H2]]; [|contradiction|].
      - (* before [b]: not an absorbed predecessor *)
        rewrite Hl1 in H1. apply elem_of_app in H1 as [?|Hr]; [apply elem_of_app; auto|].
        exfalso. rewrite Forall_forall in Hr1. specialize (Hr1 a Hr).
        destruct (HframeB a) as (_ & HfB).
        { apply elem_of_app. left. rewrite Hl1. apply elem_of_app. auto. }
        rewrite HfB, HfreeA in Hr1. revert Hr1. decide_hyps. congruence.
      - (* after [b]: not an absorbed successor *)
        rewrite Hl2 in H2. apply elem_of_app in H2 as [Hr|?]; [|apply elem_of_app; auto].
        exfalso. rewrite Forall_forall in Hr2. specialize (Hr2 a Hr).
        rewrite HfreeA in Hr2. revert Hr2. decide_hyps. congruence. }
    destruct (Hstay a Hag) as (HsC & HfC).
    assert (Hak : a ∈ keep).
    { assert (Hin : a ∈ keep ++ gone).
      { rewrite <- Hkg. rewrite !elem_of_app, elem_of_cons in *. tauto. }
      apply elem_of_app in Hin as [?|Hg]; [assumption|].
      exfalso. rewrite Forall_forall in Hgone. specialize (Hgone a Hg). congruence. }
    split; [split|].
    + exact Hak.
    + rewrite Hfree' by exact (Hkeep_gone a Hak). congruence.
    + rewrite Hsz'. exact HsC.
  - intros (Hbk & Hbf).
    assert (Hbx : b = x).
    { assert (Hin : b ∈ g1 ++ x :: g2) by (rewrite Hkg; apply elem_of_app; auto).
      rewrite elem_of_app, elem_of_cons in Hin. destruct Hin as [H1|[?|H2]]; [|assumption|].
      - exfalso. apply Hb1. rewrite Hl1. apply elem_of_app. auto.
      - exfalso. apply Hb2. rewrite Hl2. apply elem_of_app. auto. }
    rewrite Hfree' in Hbf by exact (Hkeep_gone b Hbk). congruence.
  - intros Hnaf. apply no_adjacent_free_adj_all.
    apply no_adjacent_free_adj_all in Hnaf. rewrite Hl in Hnaf.
    apply adj_all_mid in Hnaf as (Hn1 & Hn2 & _ & _).
    assert (Hn1A : adj_all (not_both_free stA) l1).
    { eapply adj_all_flags; [|exact Hn1]. intros a Ha. rewrite HfreeA.
      assert (a <> b) by congruence. decide_hyps. reflexivity. }
    assert (Hn2A : adj_all (not_both_free stA) l2).
    { eapply adj_all_flags; [|exact Hn2]. intros a Ha. rewrite HfreeA.
      assert (a <> b) by congruence. decide_hyps. reflexivity. }
    assert (Hn1B : adj_all (not_both_free stB) l1).
    { eapply adj_all_flags; [|exact Hn1A]. intros a Ha.
      apply HframeB, elem_of_app. auto. }
    pose proof (HheadB Hn2A) as Hhead.
    pose proof (HlastC Hn1B) as Hlast.
    (* the chain before the release *)
    assert (HnC : adj_all (not_both_free stC) (g1 ++ x :: g2)).
    { apply adj_all_mid. split_and!.
      - rewrite Hl1 in Hn1. apply adj_all_join in Hn1 as (Hg1 & _).
        eapply adj_all_flags; [|exact Hg1]. intros a Ha.
        apply Hstay, elem_of_app. auto.
      - rewrite Hl2 in Hn2. apply adj_all_join in Hn2 as (_ & Hg2 & _).
        eapply adj_all_flags; [|exact Hg2]. intros a Ha.
        apply Hstay, elem_of_app. auto.
      - intros h y Hg1 (Hy & _). specialize (Hlast h y Hg1).
        destruct (HframeC y) as (_ & HfC).
        { rewrite Hg1. apply elem_of_app. left. apply elem_of_app. right. constructor. }
        congruence.
      - intros y h Hg2 (_ & Hy). specialize (Hhead y h Hg2).
        assert (Hyg : y ∈ g1 ++ g2).
        { rewrite Hg2. apply elem_of_app. right. constructor. }
        destruct (HframeC y Hyg) as (_ & HfC).
        destruct (HframeB y) as (_ & HfB).
        { rewrite Hl1. rewrite !elem_of_app in *. tauto. }
        congruence. }
    rewrite Hkg in HnC. apply adj_all_join in HnC as (Hk & _).
    eapply adj_all_flags; [|exact Hk]. intros a Ha.
    apply Hfree', Hkeep_gone, Ha.
  - intros (Haddr & Hsizes & Hbrk16).
    assert (HxC : size (hdr stC x) mod ALIGNMENT = 0 /\ ALIGNMENT <= size (hdr stC x)).
    { split.
      - apply HalignC. intros a Ha. apply elem_of_app in Ha as [Ha|Ha].
        + destruct (HframeB a) as (-> & _); [apply elem_of_app; auto|].
          rewrite (lo_size _ _ HloA). apply Hsizes. rewrite Hl. apply elem_of_app. auto.
        + apply elem_of_cons in Ha as [->|Ha]; [|inversion Ha].
          apply HalignB. intros a Ha. rewrite (lo_size _ _ HloA).
          apply Hsizes. rewrite Hl. apply elem_of_app. auto.
      - etransitivity; [|exact HgrowC].
        destruct Hx as [->|Hx].
        + etransitivity; [|exact HgrowB]. rewrite (lo_size _ _ HloA).
          apply Hsizes, Hbl.
        + assert (Hx1 : x ∈ l1) by (rewrite Hl1; apply elem_of_app; auto).
          destruct (HframeB x) as (-> & _); [apply elem_of_app; auto|].
          rewrite (lo_size _ _ HloA). apply Hsizes. rewrite Hl. apply elem_of_app. auto. }
    assert (HsizeC : forall a, a ∈ g1 ++ x :: g2 ->
              size (hdr stC a) mod ALIGNMENT = 0 /\ ALIGNMENT <= size (hdr stC a)).
    { intros a Ha. destruct (decide (a = x)) as [->|Hax]; [exact HxC|].
      assert (Hag : a ∈ g1 ++ g2).
      { rewrite !elem_of_app, elem_of_cons in *. tauto. }
      destruct (Hstay a Hag) as (-> & _). apply Hsizes, Hsub, Ha. }
    split_and!.
    + intros a Ha. apply Haddr, Hsub. rewrite Hkg. apply elem_of_app. auto.
    + intros a Ha. rewrite Hsz'. apply HsizeC. rewrite Hkg. apply elem_of_app. auto.
    + apply Halign'.
      * rewrite HosC, HosB, (lo_os _ _ HloA). exact Hbrk16.
      * intros a Ha. split; [apply Haddr, Hsub, Ha|apply HsizeC, Ha].
  - rewrite Hbytes', HbytesC, HbytesB. apply (lo_bytes _ _ HloA).
  - rewrite Hmaps', HosC, HosB, (lo_os _ _ HloA). reflexivity.
  - rewrite HosC, HosB, (lo_os _ _ HloA) in Hbrk'. exact Hbrk'.
Qed.

End FreeHeap.

Lemma header_of_payload b : header_of (payload_of b) = b.
Proof. unfold header_of, payload_of. lia. Qed.

Lemma payload_of_header p : payload_of (header_of p) = p.
Proof. unfold header_of, payload_of. lia. Qed.

Lemma aligned_add x y :
  x mod ALIGNMENT = 0 -> y mod ALIGNMENT = 0 -> (x + y) mod ALIGNMENT = 0.
Proof.
  unfold ALIGNMENT. intros Hx Hy.
  rewrite Z.add_mod, Hx, Hy by lia. reflexivity.
Qed.

Lemma aligned_sub x y :
  x mod ALIGNMENT = 0 -> y mod ALIGNMENT = 0 -> (x - y) mod ALIGNMENT = 0.
Proof.
  unfold ALIGNMENT. intros Hx Hy.
  rewrite Zminus_mod, Hx, Hy by lia. reflexivity.
Qed.

Lemma ALIGN_UP_least n :
  0 < n -> n + 15 <= SIZE_MAX ->
  ALIGN_UP n mod ALIGNMENT = 0 /\ ALIGNMENT <= ALIGN_UP n /\ n <= ALIGN_UP n.
Proof.
  intros H0 H1. destruct (ALIGN_UP_nowrap n ltac:(lia) H1) as (Hm & Hle & _).
  unfold ALIGNMENT. split_and!; [exact Hm| |exact Hle].
  pose proof (Z.div_mod (ALIGN_UP n) 16). lia.
Qed.

Section MallocOk.

Variable pol : os_policy.

(** What [mm_malloc] guarantees on a well-formed heap, whatever the
    request and whatever the kernel answers. *)
Lemma mm_malloc_ok st l fl fuel n :
  heap_ok st l fl -> os_sane pol -> (length fl < fuel)%nat ->
  exists p st' l' fl',
    mm_malloc pol fuel n st = Some (p, st') /\
    heap_ok st' l' fl' /\
    (forall a, a ∈ l -> a ∈ l') /\
    (length l' <= S (length l))%nat /\
    (forall a, live st l a ->
       live st' l' a /\ size (hdr st' a) = size (hdr st a)) /\
    (no_adjacent_free st l -> no_adjacent_free st' l') /\
    (heap_aligned st l -> 0 < n -> n + 15 <= SIZE_MAX -> heap_aligned st' l') /\
    bytes st' = bytes st /\
    (p <> NULL ->
       p = payload_of (header_of p) /\
       in_mem st' (header_of p) /\
       is_free (hdr st' (header_of p)) = false /\
       ~ live st l (header_of p) /\
       if decide (ALIGN_UP n < MMAP_THRESHOLD)
       then live st' l' (header_of p) /\
            ALIGN_UP n <= size (hdr st' (header_of p))
       else (header_of p ∉ l') /\ l' = l /\
            is_mmap (hdr st' (header_of p)) = true /\
            size (hdr st' (header_of p)) = ALIGN_UP n /\
            cur_brk (os st) <= header_of p) /\
    (p = NULL ->
       l' = l /\ fl' = fl /\
       (st' = st \/ st' = with_os (tick (os st)) st)).
Proof.
  intros Hok Hsane Hfuel.
  destruct (Z.eq_dec n 0) as [->|Hn0].
  { exists NULL, st, l, fl. split_and!; auto; try tauto; try lia. }
  destruct (decide (ALIGN_UP n < MMAP_THRESHOLD)) as [Hsmall|Hbig].
  - (* served from the heap *)
    pose proof (mm_malloc_heap pol st l fl fuel n Hok Hsane Hfuel Hn0 Hsmall) as Hm.
    cbv zeta in Hm.
    set (sz := ALIGN_UP n) in *.
    set (b := first_fit st sz fl) in *.
    destruct (nonnull_case b) as [[Hb Hbn]|[Hb Hbn]]; rewrite Hbn in Hm.
    + (* no fit *)
      set (brk0 := cur_brk (os st)) in *.
      destruct (sbrk_ok pol (os st) (hdr_size + sz)).
      * destruct Hm as (st' & Hrun & Hok' & Hnew & Hsnew & Hfnew & Hframe & Hbytes
                        & Hmaps & Hbrk).
        assert (Hin' : brk0 ∈ l ++ [brk0]) by (apply elem_of_app; right; constructor).
        exists (payload_of brk0), st', (l ++ [brk0]), fl.
        split_and!; try assumption.
        -- intros a Ha. apply elem_of_app. auto.
        -- rewrite length_app. cbn [length]. lia.
        -- intros a (Ha & Hlive).
           assert (Hab : a <> brk0) by (intros ->; exact (Hnew Ha)).
           destruct (Hframe a Hab) as (-> & Hf).
           split; [split; [apply elem_of_app; auto|congruence]|reflexivity].
        -- intros Hnaf. apply no_adjacent_free_adj_all.
           apply no_adjacent_free_adj_all in Hnaf.
           apply adj_all_join. split_and!.
           ++ eapply adj_all_flags; [|exact Hnaf]. intros a Ha.
              apply Hframe. intros ->. exact (Hnew Ha).
           ++ cbn. auto.
           ++ intros g x y h _ [= <- <-] (_ & Hy). congruence.
        -- intros (Haddr & Hsizes & Hbrk16) Hpos Hnowrap.
           destruct (ALIGN_UP_least n Hpos Hnowrap) as (Hs16 & Hs1 & _). fold sz in Hs16, Hs1.
           split_and!.
           ++ intros a Ha. apply elem_of_app in Ha as [Ha|Ha]; [auto|].
              apply elem_of_cons in Ha as [->|Ha]; [exact Hbrk16|inversion Ha].
           ++ intros a Ha. apply elem_of_app in Ha as [Ha|Ha].
              ** destruct (Hframe a) as (-> & _); [intros ->; exact (Hnew Ha)|auto].
              ** apply elem_of_cons in Ha as [->|Ha]; [|inversion Ha].
                 rewrite Hsnew. auto.
           ++ rewrite Hbrk. apply aligned_add; [|exact Hs16].
              apply aligned_add; [exact Hbrk16|reflexivity].
        -- intros _. rewrite header_of_payload.
           split; [reflexivity|].
           split; [exact (heap_ok_in_mem _ _ _ _ Hok' Hin')|].
           split; [exact Hfnew|].
           split; [intros (Ha & _); exact (Hnew Ha)|].
           split; [split; assumption|rewrite Hsnew; apply Z.le_refl].
        -- intros Hp. exfalso. unfold payload_of, sizeof_block_hdr_t, NULL in Hp.
           pose proof (ok_top _ _ _ Hok). unfold brk0 in Hp. lia.
      * destruct Hm as (Hrun & Hok').
        exists NULL, (with_os (tick (os st)) st), l, fl.
        split_and!; auto; try tauto; try lia.
    + (* the first fit *)
      destruct Hm as (l1 & l2 & st' & Hl & Hrun & Hbfl & Hbsz & Hcase & Hfb & Hframe
                      & Hos & Hbytes).
      pose proof (heap_ok_free _ _ _ _ Hok Hbfl) as Hbfree.
      pose proof (heap_ok_sub _ _ _ _ Hok Hbfl) as Hbl.
      destruct (decide (sz + hdr_size + MIN_SPLIT_SIZE <= size (hdr st b))) as [Hsplit|Hfit].
      * (* split *)
        destruct Hcase as (Hok' & Hnew & Hsb & Hsnew & Hfnew).
        set (new_hdr := payload_of b + sz) in *.
        assert (Hin' : b ∈ l1 ++ b :: new_hdr :: l2).
        { apply elem_of_app. right. constructor. }
        exists (payload_of b), st', (l1 ++ b :: new_hdr :: l2), (new_hdr :: without b fl).
        split_and!; try assumption.
        -- intros a. rewrite Hl, !elem_of_app, !elem_of_cons. tauto.
        -- rewrite Hl, !length_app. cbn [length]. lia.
        -- intros a (Ha & Hlive).
           assert (Hab : a <> b) by congruence.
           assert (Han : a <> new_hdr) by (intros ->; exact (Hnew Ha)).
           destruct (Hframe a Hab Han) as (-> & Hf).
           split; [split; [|congruence]|reflexivity].
           rewrite Hl in Ha. rewrite !elem_of_app, !elem_of_cons in *. tauto.
        -- intros Hnaf. apply no_adjacent_free_adj_all.
           apply no_adjacent_free_adj_all in Hnaf. rewrite Hl in Hnaf.
           apply adj_all_mid in Hnaf as (Hn1 & Hn2 & Hn3 & Hn4).
           pose proof (spatial_chain_NoDup _ _ (ok_spatial _ _ _ Hok)) as Hnd.
           rewrite Hl in Hnd.
           assert (Hother : forall a, a ∈ l1 ++ l2 ->
                     is_free (hdr st' a) = is_free (hdr st a)).
           { intros a Ha. apply Hframe.
             - intros ->. apply NoDup_app in Hnd as (_ & Hd & Hnd).
               apply NoDup_cons in Hnd as (Hb2 & _).
               apply elem_of_app in Ha as [Ha|Ha]; [|auto].
               apply (Hd b Ha). constructor.
             - intros ->. apply Hnew. rewrite Hl.
               rewrite !elem_of_app, !elem_of_cons in *. tauto. }
           apply adj_all_mid. split_and!.
           ++ eapply adj_all_flags; [|exact Hn1]. intros a Ha.
              apply Hother, elem_of_app. auto.
           ++ apply adj_all_cons. split.
              ** intros y Hy (_ & Hyf). destruct l2 as [|z h]; [discriminate|].
                 injection Hy as <-.
                 rewrite Hother in Hyf by (apply elem_of_app; right; constructor).
                 apply (Hn4 z h eq_refl). auto.
              ** eapply adj_all_flags; [|exact Hn2]. intros a Ha.
                 apply Hother, elem_of_app. auto.
           ++ intros g x _ (_ & Hbf). congruence.
           ++ intros y h _ (Hbf & _). congruence.
        -- intros (Haddr & Hsizes & Hbrk16) Hpos Hnowrap.
           destruct (ALIGN_UP_least n Hpos Hnowrap) as (Hs16 & Hs1 & _). fold sz in Hs16, Hs1.
           destruct (Hsizes b Hbl) as (Hb16 & _).
           assert (Hnew16 : new_hdr mod ALIGNMENT = 0).
           { unfold new_hdr, payload_of, sizeof_block_hdr_t.
             apply aligned_add; [|exact Hs16].
             apply aligned_add; [exact (Haddr b Hbl)|reflexivity]. }
           split_and!.
           ++ intros a. rewrite !elem_of_app, !elem_of_cons.
              intros [Ha|[->|[->|Ha]]]; try assumption; apply Haddr; rewrite Hl;
                rewrite !elem_of_app, !elem_of_cons; tauto.
           ++ intros a Ha.
              destruct (decide (a = b)) as [->|Hab]; [rewrite Hsb; auto|].
              destruct (decide (a = new_hdr)) as [->|Han].
              { rewrite Hsnew, hdr_size_val. split.
                - apply aligned_sub; [|reflexivity]. apply aligned_sub; assumption.
                - unfold ALIGNMENT. rewrite hdr_size_val in Hsplit.
                  unfold MIN_SPLIT_SIZE in Hsplit. lia. }
              destruct (Hframe a Hab Han) as (-> & _). apply Hsizes. rewrite Hl.
              rewrite !elem_of_app, !elem_of_cons in *. tauto.
           ++ rewrite Hos. exact Hbrk16.
        -- intros _. rewrite header_of_payload.
           split; [reflexivity|].
           split; [exact (heap_ok_in_mem _ _ _ _ Hok' Hin')|].
           split; [exact Hfb|].
           split; [intros (_ & Hlive); congruence|].
           split; [split; assumption|rewrite Hsb; apply Z.le_refl].
        -- intros Hp. exfalso. unfold payload_of, sizeof_block_hdr_t, NULL in Hp.
           pose proof (ok_low _ _ _ Hok b Hbl). lia.
      * (* the whole block *)
        destruct Hcase as (Hok' & Hsb & Hframe').
        exists (payload_of b), st', l, (without b fl).
        split_and!; try assumption; auto.
        -- intros a (Ha & Hlive).
           assert (Hab : a <> b) by congruence.
           destruct (Hframe' a Hab) as (-> & Hf).
           split; [split; [assumption|congruence]|reflexivity].
        -- intros Hnaf. apply no_adjacent_free_adj_all.
           apply no_adjacent_free_adj_all in Hnaf.
           eapply adj_all_impl; [|exact Hnaf]. intros x y Hx Hy Hxy (Hxf & Hyf).
           apply Hxy.
           destruct (decide (x = b)) as [->|Hxb]; [congruence|].
           destruct (decide (y = b)) as [->|Hyb]; [congruence|].
           destruct (Hframe' x Hxb) as (_ & <-). destruct (Hframe' y Hyb) as (_ & <-).
           auto.
        -- intros (Haddr & Hsizes & Hbrk16) Hpos Hnowrap.
           split_and!; [exact Haddr| |rewrite Hos; exact Hbrk16].
           intros a Ha. destruct (decide (a = b)) as [->|Hab].
           ++ rewrite Hsb. auto.
           ++ destruct (Hframe' a Hab) as (-> & _). auto.
        -- intros _. rewrite header_of_payload.
           split; [reflexivity|].
           split; [exact (heap_ok_in_mem _ _ _ _ Hok' Hbl)|].
           split; [exact Hfb|].
           split; [intros (_ & Hlive); congruence|].
           split; [split; assumption|rewrite Hsb; exact Hbsz].
        -- intros Hp. exfalso. unfold payload_of, sizeof_block_hdr_t, NULL in Hp.
           pose proof (ok_low _ _ _ Hok b Hbl). lia.
  - (* served by a mapping *)
    pose proof (mm_malloc_mapped pol st l fl fuel n Hok Hsane Hn0 ltac:(lia)) as Hm.
    cbv zeta in Hm.
    destruct (mmap_pick pol (os st) (size_add hdr_size (ALIGN_UP n))) as [b|] eqn:Hpick.
    + destruct Hm as (st' & Hrun & Hok' & Hbl & Hinb & Hhdr & Hother & Hbytes & Hbrk
                      & Habove).
      assert (Hsame : forall a, a ∈ l -> hdr st' a = hdr st a).
      { intros a Ha. apply Hother. intros ->. exact (Hbl Ha). }
      exists (payload_of b), st', l, fl.
      split_and!; try assumption; auto.
      * intros a (Ha & Hlive). unfold live. rewrite (Hsame a Ha). auto.
      * intros Hnaf. apply no_adjacent_free_adj_all.
        apply no_adjacent_free_adj_all in Hnaf.
        eapply adj_all_flags; [|exact Hnaf]. intros a Ha. rewrite (Hsame a Ha). reflexivity.
      * intros (Haddr & Hsizes & Hbrk16) _ _.
        split_and!; [exact Haddr| |rewrite Hbrk; exact Hbrk16].
        intros a Ha. rewrite (Hsame a Ha). auto.
      * intros _. rewrite header_of_payload, Hhdr. cbn [is_free is_mmap size].
        split_and!; auto.
        intros (Ha & _). exact (Hbl Ha).
      * intros Hp. exfalso. unfold payload_of, sizeof_block_hdr_t, NULL in Hp.
        pose proof (mmap_above _ Hsane _ _ _ Hpick).
        pose proof (ok_top _ _ _ Hok). lia.
    + destruct Hm as (Hrun & Hok').
      exists NULL, (with_os (tick (os st)) st), l, fl.
      split_and!; auto; try tauto; try lia.
Qed.

End MallocOk.

(** * [mm_realloc] on a well-formed heap *)

Lemma heap_ok_free_length st l fl : heap_ok st l fl -> (length fl <= length l)%nat.
Proof.
  intros Hok. apply submseteq_length, NoDup_submseteq.
  - exact (free_chain_NoDup _ _ (ok_free _ _ _ Hok)).
  - intros a Ha. exact (heap_ok_sub _ _ _ _ Hok Ha).
Qed.

Section Realloc.

Variable pol : os_policy.

(** The entry of [mm_realloc] for a live heap block and a request that
    is not zero. *)
Lemma mm_realloc_entry st l fl fuel p n :
  heap_ok st l fl -> live st l (header_of p) -> n <> 0 ->
  mm_realloc pol fuel p n st =
  (let sz := ALIGN_UP n in
   let hdr := header_of p in
   let* hs := rd size hdr in
   if hs >=? sz then
     split_block hdr sz ;;
     ret p
   else
   let* nx := rd next hdr in
   let* absorb :=
     (if negb (nonnull nx) then ret false else
      let* nfree := rd is_free nx in
      if negb nfree then ret false else
      let* nmap := rd is_mmap nx in
      if nmap then ret false else
      let* hs := rd size hdr in
      let* ns := rd size nx in
      ret (size_add (size_add hs hdr_size) ns >=? sz)) in
   if absorb then
     remove_free nx ;;
     let* hs := rd size hdr in
     let* ns := rd size nx in
     wr (with_size (size_add hs (size_add hdr_size ns))) hdr ;;
     let* nn := rd next nx in
     wr (with_next nn) hdr ;;
     let* nn := rd next nx in
     (if nonnull nn
      then wr (with_prev hdr) nn
      else put (with_all_tail hdr)) ;;
     split_block hdr sz ;;
     ret p
   else
   let* newp := mm_malloc pol fuel sz in
   if negb (nonnull newp) then ret NULL else
   let* hs := rd size hdr in
   memcpy newp p hs ;;
   mm_free pol fuel p ;;
   ret newp) st.
Proof.
  intros Hok (Hbl & Hlive) Hn0.
  pose proof (ok_low _ _ _ Hok _ Hbl) as Hblow.
  assert (Hp : nonnull p = true).
  { apply nonnull_true. unfold header_of, sizeof_block_hdr_t, NULL in *. lia. }
  pose proof (heap_ok_in_mem _ _ _ _ Hok Hbl) as Hinb.
  unfold mm_realloc. rewrite Hp. cbn [negb].
  destruct (Z.eqb_spec n 0) as [?|_]; [contradiction|].
  cbv zeta. rewrite (bind_run _ _ _ _ _ (rd_run is_mmap _ _ Hinb)).
  rewrite (ok_unmapped _ _ _ Hok _ Hbl). reflexivity.
Qed.

(** The request fits the block: it is split in place. *)
Lemma mm_realloc_fit st l fl fuel p n :
  heap_ok st l fl -> live st l (header_of p) -> n <> 0 ->
  ALIGN_UP n <= size (hdr st (header_of p)) ->
  exists st' l' fl',
    mm_realloc pol fuel p n st = Some (p, st') /\
    heap_ok st' l' fl' /\
    (forall a, a ∈ l -> a ∈ l') /\
    live st' l' (header_of p) /\
    ALIGN_UP n <= size (hdr st' (header_of p)) <= size (hdr st (header_of p)) /\
    (forall a, live st l a -> a <> header_of p ->
       live st' l' a /\ size (hdr st' a) = size (hdr st a)) /\
    bytes st' = bytes st /\ os st' = os st.
Proof.
  intros Hok Hlv Hn0 Hfit.
  rewrite (mm_realloc_entry st l fl fuel p n Hok Hlv Hn0). cbv zeta.
  destruct Hlv as (Hbl & Hlive).
  set (b := header_of p) in *. set (sz := ALIGN_UP n) in *.
  pose proof (ALIGN_UP_range n) as Hszr. fold sz in Hszr.
  pose proof (heap_ok_in_mem _ _ _ _ Hok Hbl) as Hinb.
  destruct (list_elem_of_split _ _ Hbl) as (l1 & l2 & Hl).
  run. destruct (Z.geb_spec (size (hdr st b)) sz) as [_|?]; [|lia].
  rewrite Hl in Hok.
  pose proof (split_block_ok st l1 b l2 fl sz Hok ltac:(lia)) as Hsplit.
  cbv zeta in Hsplit.
  destruct (decide (sz + hdr_size + MIN_SPLIT_SIZE <= size (hdr st b))) as [Hbig|Hsmall].
  - destruct Hsplit as (st' & Hrun & Hok' & Hnew & Hsnew & Hfnew & Hsb & Hfb
                        & Hframe & Hos & Hbytes).
    rewrite (bind_run _ _ _ _ _ Hrun).
    exists st', (l1 ++ b :: (payload_of b + sz) :: l2), ((payload_of b + sz) :: fl).
    split_and!; try assumption; try reflexivity.
    + intros a. rewrite Hl, !elem_of_app, !elem_of_cons. tauto.
    + split; [apply elem_of_app; right; constructor|congruence].
    + rewrite Hsb. apply Z.le_refl.
    + rewrite Hsb. lia.
    + intros a (Ha & Halive) Hab. rewrite Hl in Ha.
      assert (Han : a <> payload_of b + sz) by (intros ->; exact (Hnew Ha)).
      destruct (Hframe a Hab Han) as (-> & Hf & _).
      split; [split; [|congruence]|reflexivity].
      rewrite !elem_of_app, !elem_of_cons in *. tauto.
  - rewrite (bind_run _ _ _ _ _ Hsplit).
    exists st, l, fl. rewrite <- Hl in Hok.
    split_and!; try assumption; try reflexivity; try lia; auto.
    split; assumption.
Qed.

(** The request does not fit, but the block and its free successor
    together do: the successor is absorbed, and the result split. *)
Lemma mm_realloc_absorb st l1 nb g fl fuel p n :
  heap_ok st (l1 ++ header_of p :: nb :: g) fl ->
  is_free (hdr st (header_of p)) = false -> n <> 0 ->
  is_free (hdr st nb) = true ->
  size (hdr st (header_of p)) < ALIGN_UP n ->
  ALIGN_UP n <= size (hdr st (header_of p)) + hdr_size + size (hdr st nb) ->
  exists st' l' fl',
    mm_realloc pol fuel p n st = Some (p, st') /\
    heap_ok st' l' fl' /\
    (forall a, a ∈ l1 ++ header_of p :: g -> a ∈ l') /\
    live st' l' (header_of p) /\
    ALIGN_UP n <= size (hdr st' (header_of p)) /\
    ~ live st' l' nb /\
    (forall a, live st (l1 ++ header_of p :: nb :: g) a -> a <> header_of p ->
       live st' l' a /\ size (hdr st' a) = size (hdr st a)) /\
    bytes st' = bytes st /\ os st' = os st.
Proof.
  intros Hok Hlive Hn0 Hnfree Hsmall Hroom.
  set (b := header_of p) in *. set (sz := ALIGN_UP n) in *.
  assert (Hbl : b ∈ l1 ++ b :: nb :: g) by (apply elem_of_app; right; constructor).
  assert (Hnl : nb ∈ l1 ++ b :: nb :: g).
  { apply elem_of_app; right; right; constructor. }
  rewrite (mm_realloc_entry st _ fl fuel p n Hok (conj Hbl Hlive) Hn0). cbv zeta.
  fold b sz.
  pose proof (ALIGN_UP_range n) as Hszr. fold sz in Hszr.
  pose proof (heap_ok_in_mem _ _ _ _ Hok Hbl) as Hinb.
  pose proof (heap_ok_in_mem _ _ _ _ Hok Hnl) as Hinn.
  destruct (heap_ok_size_bound _ _ _ _ Hok Hbl) as (Hb0 & Hb1).
  destruct (heap_ok_size_bound _ _ _ _ Hok Hnl) as (Hn0' & Hn1).
  pose proof (ok_low _ _ _ Hok b Hbl) as Hblow.
  pose proof (ok_low _ _ _ Hok nb Hnl) as Hnlow.
  run. destruct (Z.geb_spec (size (hdr st b)) sz) as [?|_]; [lia|].
  run.
  assert (Hnx : next (hdr st b) = nb).
  { destruct (ok_spatial _ _ _ Hok) as (Hseg & _).
    rewrite (seg_next_hd _ _ _ _ _ Hseg). reflexivity. }
  rewrite Hnx.
  assert (Hnn : nonnull nb = true) by (apply nonnull_true; unfold NULL; lia).
  rewrite Hnn. cbn [negb]. run. rewrite Hnfree. cbn [negb]. run.
  rewrite (ok_unmapped _ _ _ Hok nb Hnl). run.
  assert (Hsum : size_add (size_add (size (hdr st b)) hdr_size) (size (hdr st nb))
                 = size (hdr st b) + hdr_size + size (hdr st nb)).
  { unfold size_add. rewrite hdr_size_val, SSIZE_MAX_val in *.
    rewrite (wrap_small (size (hdr st b) + 48)) by (rewrite SIZE_MAX_val; lia).
    apply wrap_small. rewrite SIZE_MAX_val. lia. }
  rewrite Hsum.
  destruct (Z.geb_spec (size (hdr st b) + hdr_size + size (hdr st nb)) sz) as [_|?]; [|lia].
  destruct (merge_next_ok st l1 b nb g fl Hok Hnfree)
    as (st1 & Hk & _ & Hok1 & Hsb1 & Hsz1 & Hfree1 & Hos1 & Hbytes1).
  rewrite Hk.
  pose proof (split_block_ok st1 l1 b g (without nb fl) sz Hok1 ltac:(lia)) as Hsplit.
  cbv zeta in Hsplit.
  assert (Hother : forall a, live st (l1 ++ b :: nb :: g) a -> a <> b ->
            a ∈ l1 ++ b :: g /\ is_free (hdr st1 a) = false /\
            size (hdr st1 a) = size (hdr st a)).
  { intros a (Ha & Halive) Hab.
    assert (Han : a <> nb) by congruence.
    rewrite Hfree1, Hsz1 by exact Hab. decide_hyps.
    split_and!; auto. rewrite !elem_of_app, !elem_of_cons in *. tauto. }
  assert (Hbfree1 : is_free (hdr st1 b) = false).
  { rewrite Hfree1. destruct (decide (b = nb)); [reflexivity|exact Hlive]. }
  assert (Hn_out : nb ∉ l1 ++ b :: g).
  { pose proof (spatial_chain_NoDup _ _ (ok_spatial _ _ _ Hok)) as Hnd.
    intros Hin. apply NoDup_app in Hnd as (_ & Hd & Hnd).
    apply NoDup_cons in Hnd as (Hb & Hnd). apply NoDup_cons in Hnd as (Hn & _).
    rewrite elem_of_app, elem_of_cons in Hin. destruct Hin as [H1|[Heq|Hg]].
    - apply (Hd nb H1). right. constructor.
    - apply Hb. rewrite <- Heq. constructor.
    - exact (Hn Hg). }
  destruct (decide (sz + hdr_size + MIN_SPLIT_SIZE <= size (hdr st1 b))) as [Hbig|Hfit].
  - destruct Hsplit as (st' & Hrun & Hok' & Hnew & Hsnew & Hfnew & Hsb & Hfb
                        & Hframe & Hos & Hbytes).
    rewrite (bind_run _ _ _ _ _ Hrun).
    exists st', (l1 ++ b :: (payload_of b + sz) :: g), ((payload_of b + sz) :: without nb fl).
    split_and!; try assumption; try reflexivity.
    + intros a. rewrite !elem_of_app, !elem_of_cons. tauto.
    + split; [apply elem_of_app; right; constructor|congruence].
    + rewrite Hsb. apply Z.le_refl.
    + intros (Hnl' & Hnlive).
      destruct (decide (nb = payload_of b + sz)) as [Heq|Hne]; [congruence|].
      apply Hn_out. rewrite !elem_of_app, !elem_of_cons in *. tauto.
    + intros a Ha Hab. destruct (Hother a Ha Hab) as (Hal & Haf & Has).
      assert (Han : a <> payload_of b + sz) by (intros ->; exact (Hnew Hal)).
      destruct (Hframe a Hab Han) as (Hs' & Hf' & _).
      split; [split; [|congruence]|congruence].
      rewrite !elem_of_app, !elem_of_cons in *. tauto.
    + congruence.
    + congruence.
  - rewrite (bind_run _ _ _ _ _ Hsplit).
    exists st1, (l1 ++ b :: g), (without nb fl).
    split_and!; try assumption; try reflexivity; auto.
    + split; [apply elem_of_app; right; constructor|exact Hbfree1].
    + lia.
    + intros (Hnl' & _). exact (Hn_out Hnl').
    + intros a Ha Hab. destruct (Hother a Ha Hab) as (Hal & Haf & Has).
      split; [split|]; assumption.
Qed.

Lemma ALIGN_UP_idem n : ALIGN_UP (ALIGN_UP n) = ALIGN_UP n.
Proof.
  pose proof (ALIGN_UP_range n) as Hr. pose proof (ALIGN_UP_mod n) as Hm.
  rewrite SIZE_MAX_val in Hr.
  rewrite (ALIGN_UP_eq (ALIGN_UP n)).
  pose proof (Z.div_mod (ALIGN_UP n) 16).
  rewrite wrap_small by (rewrite SIZE_MAX_val; lia).
  replace (ALIGN_UP n + 15) with (15 + (ALIGN_UP n / 16) * 16) by lia.
  rewrite Z.mod_add by lia. change (15 mod 16) with 15. lia.
Qed.

(** The test of [mm_realloc] for growing in place. *)
Lemma realloc_guard_run st l1 b l2 fl sz :
  heap_ok st (l1 ++ b :: l2) fl ->
  (let* absorb :=
     (if negb (nonnull (next (hdr st b))) then ret false else
      let* nfree := rd is_free (next (hdr st b)) in
      if negb nfree then ret false else
      let* nmap := rd is_mmap (next (hdr st b)) in
      if nmap then ret false else
      let* hs := rd size b in
      let* ns := rd size (next (hdr st b)) in
      ret (size_add (size_add hs hdr_size) ns >=? sz)) in
   ret absorb) st =
  Some (match l2 with
        | [] => false
        | nb :: _ =>
            is_free (hdr st nb) &&
            (size (hdr st b) + hdr_size + size (hdr st nb) >=? sz)
        end, st).
Proof.
  intros Hok.
  assert (Hbl : b ∈ l1 ++ b :: l2) by (apply elem_of_app; right; constructor).
  pose proof (heap_ok_in_mem _ _ _ _ Hok Hbl) as Hinb.
  destruct (ok_spatial _ _ _ Hok) as (Hseg & _).
  destruct l2 as [|nb g].
  - rewrite (seg_next_hd _ _ _ _ _ Hseg). reflexivity.
  - rewrite (seg_next_hd _ _ _ _ _ Hseg). cbn [List.hd].
    assert (Hnl : nb ∈ l1 ++ b :: nb :: g).
    { apply elem_of_app; right; right; constructor. }
    pose proof (heap_ok_in_mem _ _ _ _ Hok Hnl) as Hinn.
    pose proof (ok_low _ _ _ Hok nb Hnl) as Hnlow.
    destruct (heap_ok_size_bound _ _ _ _ Hok Hbl) as (Hb0 & Hb1).
    destruct (heap_ok_size_bound _ _ _ _ Hok Hnl) as (Hn0' & Hn1).
    pose proof (ok_low _ _ _ Hok b Hbl) as Hblow.
    assert (Hnn : nonnull nb = true) by (apply nonnull_true; unfold NULL; lia).
    rewrite Hnn. cbn [negb]. run.
    destruct (is_free (hdr st nb)); cbn [negb andb]; [|reflexivity].
    run. rewrite (ok_unmapped _ _ _ Hok nb Hnl). run.
    assert (Hsum : size_add (size_add (size (hdr st b)) hdr_size) (size (hdr st nb))
                   = size (hdr st b) + hdr_size + size (hdr st nb)).
    { unfold size_add. rewrite hdr_size_val, SSIZE_MAX_val in *.
      rewrite (wrap_small (size (hdr st b) + 48)) by (rewrite SIZE_MAX_val; lia).
      apply wrap_small. rewrite SIZE_MAX_val. lia. }
    rewrite Hsum. reflexivity.
Qed.

(** Neither the block nor the block with its successor can hold the
    request: a new block is allocated, the payload copied, and the old
    block freed.  When the allocation fails the old block stays as it
    is. *)
Lemma mm_realloc_move st l fl fuel p n :
  heap_ok st l fl -> os_sane pol -> live st l (header_of p) -> n <> 0 ->
  (S (length l) < fuel)%nat ->
  size (hdr st (header_of p)) < ALIGN_UP n ->
  (forall l1 nb g, l = l1 ++ header_of p :: nb :: g ->
     is_free (hdr st nb) = true ->
     size (hdr st (header_of p)) + hdr_size + size (hdr st nb) < ALIGN_UP n) ->
  exists r st' l' fl',
    mm_realloc pol fuel p n st = Some (r, st') /\
    heap_ok st' l' fl' /\
    (forall a, live st l a -> a <> header_of p ->
       live st' l' a /\ size (hdr st' a) = size (hdr st a)) /\
    (r = NULL ->
       l' = l /\ live st' l' (header_of p) /\
       size (hdr st' (header_of p)) = size (hdr st (header_of p)) /\
       bytes st' = bytes st) /\
    (r <> NULL ->
       r <> p /\ ~ live st' l' (header_of p) /\ ~ live st l (header_of r) /\
       (forall i, 0 <= i < size (hdr st (header_of p)) ->
          bytes st' (r + i) = bytes st (p + i)) /\
       (forall a, ~ (r <= a < r + size (hdr st (header_of p))) ->
          bytes st' a = bytes st a) /\
       (ALIGN_UP n < MMAP_THRESHOLD ->
          live st' l' (header_of r) /\
          ALIGN_UP n <= size (hdr st' (header_of r)))).
Proof.
  intros Hok Hsane Hlv Hn0 Hfuel Hsmall Hnoroom.
  rewrite (mm_realloc_entry st l fl fuel p n Hok Hlv Hn0). cbv zeta.
  pose proof Hlv as (Hbl & Hlive).
  set (b := header_of p) in *. set (sz := ALIGN_UP n) in *.
  pose proof (heap_ok_in_mem _ _ _ _ Hok Hbl) as Hinb.
  destruct (list_elem_of_split _ _ Hbl) as (l1 & l2 & Hl).
  run. destruct (Z.geb_spec (size (hdr st b)) sz) as [?|_]; [lia|].
  run.
  (* the test for growing in place fails *)
  pose proof Hok as Hok0. rewrite Hl in Hok0.
  pose proof (realloc_guard_run st l1 b l2 fl sz Hok0) as Hguard.
  apply bind_Some in Hguard as (v & stg & Hguard & Hret).
  injection Hret as Hv Hstg. subst stg.
  rewrite (bind_run _ _ _ _ _ Hguard).
  assert (Hvf : v = false).
  { rewrite Hv. destruct l2 as [|nb g]; [reflexivity|].
    destruct (is_free (hdr st nb)) eqn:Hnf; cbn [andb]; [|reflexivity].
    specialize (Hnoroom l1 nb g Hl Hnf).
    destruct (Z.geb_spec (size (hdr st b) + hdr_size + size (hdr st nb)) sz); [lia|reflexivity]. }
  rewrite Hvf.
  (* the new block *)
  pose proof (heap_ok_free_length _ _ _ Hok) as Hfl.
  destruct (mm_malloc_ok pol st l fl fuel sz Hok Hsane ltac:(lia))
    as (r & st1 & l1' & fl1' & Hrun1 & Hok1 & Hsub1 & Hlen1 & Hframe1 & _ & _ & Hbytes1
        & Hsome & Hnone).
  rewrite (bind_run _ _ _ _ _ Hrun1).
  destruct (Hframe1 b Hlv) as (Hlv1 & Hsb1).
  destruct (nonnull_case r) as [[Hr Hrn]|[Hr Hrn]]; rewrite Hrn; cbn [negb].
  - (* no memory *)
    destruct (Hnone Hr) as (-> & -> & _).
    exists r, st1, l, fl. split_and!; try assumption; try reflexivity; try tauto.
    + rewrite Hr. reflexivity.
    + intros a Ha _. apply Hframe1, Ha.
  - (* copy and free *)
    destruct (Hsome Hr) as (Hrp & Hinr & Hfr & Hnotlive & Hkind).
    assert (Hinb1 : in_mem st1 b) by (apply (heap_ok_in_mem _ _ _ _ Hok1), Hlv1).
    run. rewrite Hsb1.
    set (st2 := with_bytes
           (fun a => if (r <=? a) && (a <? r + size (hdr st b))
                     then bytes st1 (p + (a - r)) else bytes st1 a) st1).
    assert (Hok2 : heap_ok st2 l1' fl1').
    { eapply heap_ok_frame; [exact Hok1|..]; try reflexivity; auto. }
    destruct (mm_free_heap pol st2 l1' fl1' fuel p Hok2 Hlv1 ltac:(lia))
      as (st' & l' & fl' & Hrun' & Hok' & Hsub' & Hframe' & Hgone & _ & _ & Hbytes'
          & _ & _).
    unfold memcpy. run. fold st2.
    rewrite (bind_run _ _ _ _ _ Hrun').
    assert (Hrb : header_of r <> b) by (intros Heq; apply Hnotlive; rewrite Heq; exact Hlv).
    exists r, st', l', fl'. split_and!; try assumption; try reflexivity; try tauto.
    + intros a Ha Hab. destruct (Hframe1 a Ha) as (Ha1 & Hs1).
      destruct (Hframe' a Ha1 Hab) as (Ha' & Hs'). split; [exact Ha'|].
      rewrite Hs'. exact Hs1.
    + intros _. split_and!; try assumption.
      * intros ->. apply Hrb. reflexivity.
      * intros i Hi. rewrite Hbytes'. unfold st2. cbn [bytes with_bytes].
        destruct (Z.leb_spec r (r + i)); [|lia].
        destruct (Z.ltb_spec (r + i) (r + size (hdr st b))); [|lia].
        cbn [andb]. rewrite Hbytes1. f_equal. lia.
      * intros a Ha. rewrite Hbytes'. unfold st2. cbn [bytes with_bytes].
        destruct (Z.leb_spec r a); destruct (Z.ltb_spec a (r + size (hdr st b)));
          cbn [andb]; try (rewrite Hbytes1; reflexivity).
        exfalso. apply Ha. lia.
      * intros Hheap. unfold sz in Hkind. rewrite ALIGN_UP_idem in Hkind.
        destruct (decide (ALIGN_UP n < MMAP_THRESHOLD)) as [_|?]; [|contradiction].
        destruct Hkind as (Hlvr & Hszr).
        destruct (Hframe' (header_of r) Hlvr Hrb) as (Hlvr' & Hs').
        split; [exact Hlvr'|]. rewrite Hs'. exact Hszr.
Qed.

End Realloc.

(** * Debug output *)

Lemma print_all_loop_run st l :
  forall fuel p,
  seg (fun a => next (hdr st a)) p l NULL ->
  Forall (in_mem st) l ->
  (length l < fuel)%nat ->
  print_all_loop fuel p st = Some (List.map (block_line st) l, st).
Proof.
  induction l as [|a l IH]; intros fuel p Hseg Hmem Hfuel.
  - simpl in Hseg. subst p. destruct fuel as [|fuel]; [simpl in Hfuel; lia|].
    reflexivity.
  - destruct fuel as [|fuel]; [simpl in Hfuel; lia|].
    simpl in Hseg. destruct Hseg as (-> & Ha & Hseg).
    apply Forall_cons in Hmem as (Hina & Hmem).
    cbn [print_all_loop]. rewrite (proj2 (nonnull_true a) Ha). cbn [negb]. run.
    rewrite (bind_run _ _ _ _ _ (IH fuel _ Hseg Hmem ltac:(simpl in Hfuel; lia))).
    reflexivity.
Qed.

Lemma print_free_loop_run st l :
  forall fuel p,
  seg (fun a => next_free (hdr st a)) p l NULL ->
  Forall (in_mem st) l ->
  (length l < fuel)%nat ->
  print_free_loop fuel p st = Some (List.map (free_line st) l, st).
Proof.
  induction l as [|a l IH]; intros fuel p Hseg Hmem Hfuel.
  - simpl in Hseg. subst p. destruct fuel as [|fuel]; [simpl in Hfuel; lia|].
    reflexivity.
  - destruct fuel as [|fuel]; [simpl in Hfuel; lia|].
    simpl in Hseg. destruct Hseg as (-> & Ha & Hseg).
    apply Forall_cons in Hmem as (Hina & Hmem).
    cbn [print_free_loop]. rewrite (proj2 (nonnull_true a) Ha). cbn [negb]. run.
    rewrite (bind_run _ _ _ _ _ (IH fuel _ Hseg Hmem ltac:(simpl in Hfuel; lia))).
    reflexivity.
Qed.

(** * The helpers, one by one *)

(** X1: without wrap-around, that is for [0 <= x <= SIZE_MAX - 15],
    [ALIGN_UP x] is the least multiple of [ALIGNMENT] that is not below
    [x]. *)
Theorem ALIGN_UP_least_multiple x :
  0 <= x -> x + 15 <= SIZE_MAX ->
  ALIGN_UP x mod ALIGNMENT = 0 /\ x <= ALIGN_UP x /\
  forall m, m mod ALIGNMENT = 0 -> x <= m -> ALIGN_UP x <= m.
Proof.
  intros H0 H1. destruct (ALIGN_UP_nowrap x H0 H1) as (Hm & Hle & Hlt).
  unfold ALIGNMENT. split_and!; [exact Hm|exact Hle|].
  intros m Hm16 Hxm.
  pose proof (Z.div_mod (ALIGN_UP x) 16). pose proof (Z.div_mod m 16). lia.
Qed.

(** X2: rounding twice is rounding once, for every [size_t]; so the size
    that [mm_realloc] rounds and hands to [mm_malloc], which rounds it
    again, is the size [mm_realloc] works with. *)
Theorem ALIGN_UP_idempotent x : ALIGN_UP (ALIGN_UP x) = ALIGN_UP x.
Proof.
  pose proof (ALIGN_UP_range x) as Hr. pose proof (ALIGN_UP_mod x) as Hm.
  rewrite SIZE_MAX_val in Hr.
  (* a multiple of 16 below 2^64 is at most 2^64 - 16: adding 15 does not wrap *)
  rewrite (ALIGN_UP_eq (ALIGN_UP x)).
  pose proof (Z.div_mod (ALIGN_UP x) 16).
  rewrite wrap_small by (rewrite SIZE_MAX_val; lia).
  replace (ALIGN_UP x + 15) with (15 + (ALIGN_UP x / 16) * 16) by lia.
  rewrite Z.mod_add by lia. change (15 mod 16) with 15. lia.
Qed.

(** X3: [insert_free b], for a block [b] that is not on the free chain,
    pushes [b] at the head of the chain and sets its flag; the flag of
    every other block, the spatial links, the sizes, the payload bytes
    and the kernel state stay as they are. *)
Theorem insert_free_pushes_front st fl b :
  free_chain st fl -> b ∉ fl -> b <> NULL ->
  exists st', insert_free b st = Some (tt, st') /\
    free_chain st' (b :: fl) /\
    free_head st' = b /\
    is_free (hdr st' b) = true /\
    (forall a, a <> b -> is_free (hdr st' a) = is_free (hdr st a)) /\
    links_only st st'.
Proof.
  intros Hfc Hb Hb0.
  destruct (free_chain_insert st fl b Hfc Hb Hb0) as (st' & Hrun & Hfc' & Hlo & Hfree).
  exists st'. split_and!; try assumption.
  - destruct Hfc' as (Hseg & _). cbn [seg] in Hseg. tauto.
  - rewrite Hfree. decide_hyps. reflexivity.
  - intros a Ha. rewrite Hfree. decide_hyps. reflexivity.
Qed.

(** X4: [remove_free b] takes a block out of the free chain wherever it
    stands, head, middle or end: the chain closes over the gap, [b] has
    its flag and both free links cleared, and nothing else than the
    free-chain bookkeeping changes. *)
Theorem remove_free_unlinks st fl b :
  free_chain st fl -> b ∈ fl ->
  exists st', remove_free b st = Some (tt, st') /\
    free_chain st' (without b fl) /\
    is_free (hdr st' b) = false /\
    next_free (hdr st' b) = NULL /\ prev_free (hdr st' b) = NULL /\
    (forall a, a <> b -> is_free (hdr st' a) = is_free (hdr st a)) /\
    links_only st st'.
Proof.
  intros Hfc Hin. pose proof (free_chain_NoDup _ _ Hfc) as Hnd.
  apply list_elem_of_split in Hin as (f1 & f2 & ->).
  rewrite without_split by exact Hnd.
  destruct (free_chain_remove _ _ _ _ Hfc) as (st' & Hrun & Hfc' & Hlo & Hfree & Hnf & Hpf).
  exists st'. split_and!; try assumption.
  - rewrite Hfree. decide_hyps. reflexivity.
  - intros a Ha. rewrite Hfree. decide_hyps. reflexivity.
Qed.

(** X5: pushing a block onto the free chain and taking it off again is a
    round trip: the free chain and its head are as before and the header
    of every other block is the same, field by field.  The block itself
    ends with its flag and free links cleared. *)
Theorem insert_then_remove_free st fl b :
  free_chain st fl -> b ∉ fl -> b <> NULL ->
  exists st', (insert_free b ;; remove_free b) st = Some (tt, st') /\
    free_chain st' fl /\
    free_head st' = free_head st /\
    (forall a, a <> b -> hdr st' a = hdr st a) /\
    is_free (hdr st' b) = false /\
    next_free (hdr st' b) = NULL /\ prev_free (hdr st' b) = NULL /\
    links_only st st'.
Proof.
  intros Hfc Hb Hb0.
  destruct (insert_free_effect st b)
    as (st1 & Hrun1 & Hlo1 & Hin1 & Hfh1 & Hfree1 & Hnf1 & Hpf1).
  destruct (free_chain_insert st fl b Hfc Hb Hb0) as (st1' & Hrun1' & Hfc1 & _).
  assert (st1' = st1) by congruence. subst st1'.
  destruct (remove_free_effect st1 b Hb0 Hin1)
    as (st2 & Hrun2 & Hlo2 & Hfh2 & Hfree2 & Hnf2 & Hpf2).
  destruct (free_chain_remove st1 [] b fl Hfc1) as (st2' & Hrun2' & Hfc2 & _).
  assert (st2' = st2) by congruence. subst st2'.
  (* the old head is not [b], and its back link is [NULL] *)
  assert (Hhead : free_head st <> NULL ->
            free_head st <> b /\ prev_free (hdr st (free_head st)) = NULL).
  { intros Hnn. destruct Hfc as (Hseg & Hback & _).
    destruct fl as [|x fl']; [simpl in Hseg; contradiction|].
    cbn [seg back] in *. destruct Hseg as (-> & _). destruct Hback as (Hpx & _).
    split; [|exact Hpx]. intros ->. apply Hb. constructor. }
  assert (Hpb1 : prev_free (hdr st1 b) = NULL).
  { rewrite Hpf1.
    destruct (decide (b = free_head st /\ free_head st <> NULL)) as [(Heq & Hnn)|Hc].
    - destruct (Hhead Hnn) as (Hne & _). congruence.
    - decide_hyps. reflexivity. }
  assert (Hnb1 : next_free (hdr st1 b) = free_head st).
  { rewrite Hnf1. decide_hyps. reflexivity. }
  exists st2. split_and!.
  - rewrite (bind_run _ _ _ _ _ Hrun1). exact Hrun2.
  - exact Hfc2.
  - rewrite Hfh2, Hpb1, Hnb1. reflexivity.
  - intros a Hab. destruct (hdr st a) as [s f m nx pv nf pf] eqn:Hh.
    apply hdr_ext.
    + rewrite (lo_size _ _ Hlo2), (lo_size _ _ Hlo1), Hh. reflexivity.
    + rewrite Hfree2, Hfree1. decide_hyps. rewrite Hh. reflexivity.
    + rewrite (lo_is_mmap _ _ Hlo2), (lo_is_mmap _ _ Hlo1), Hh. reflexivity.
    + rewrite (lo_next _ _ Hlo2), (lo_next _ _ Hlo1), Hh. reflexivity.
    + rewrite (lo_prev _ _ Hlo2), (lo_prev _ _ Hlo1), Hh. reflexivity.
    + rewrite Hnf2, Hpb1. decide_hyps.
      rewrite decide_False by (unfold NULL; tauto).
      rewrite Hnf1. decide_hyps. rewrite Hh. reflexivity.
    + rewrite Hpf2, Hnb1, Hpb1. decide_hyps.
      destruct (decide (a = free_head st /\ free_head st <> NULL)) as [(Heq & Hnn)|Hc].
      * destruct (Hhead Hnn) as (_ & Hp). subst a.
        rewrite Hh in Hp. symmetry. exact Hp.
      * rewrite Hpf1. rewrite (decide_False (P := _ /\ _)) by exact Hc.
        decide_hyps. rewrite Hh. reflexivity.
  - rewrite Hfree2. decide_hyps. reflexivity.
  - rewrite Hnf2. decide_hyps. reflexivity.
  - rewrite Hpf2. decide_hyps. reflexivity.
  - split.
    + rewrite (lo_all_head _ _ Hlo2). apply (lo_all_head _ _ Hlo1).
    + rewrite (lo_all_tail _ _ Hlo2). apply (lo_all_tail _ _ Hlo1).
    + rewrite (lo_bytes _ _ Hlo2). apply (lo_bytes _ _ Hlo1).
    + rewrite (lo_os _ _ Hlo2). apply (lo_os _ _ Hlo1).
    + intros a. rewrite (lo_size _ _ Hlo2). apply (lo_size _ _ Hlo1).
    + intros a. rewrite (lo_is_mmap _ _ Hlo2). apply (lo_is_mmap _ _ Hlo1).
    + intros a. rewrite (lo_next _ _ Hlo2). apply (lo_next _ _ Hlo1).
    + intros a. rewrite (lo_prev _ _ Hlo2). apply (lo_prev _ _ Hlo1).
    + intros a Ha. apply (lo_in_mem _ _ Hlo2), (lo_in_mem _ _ Hlo1), Ha.
Qed.

(** X6: [coalesce_with_next b].  When the spatial successor [n] of [b]
    exists, is free and is not mapped, [n] leaves the free chain and the
    spatial chain (the tail becoming [b] when [n] was last) and [b] grows
    by [hdr_size + n->size]; the flags of [b] and of every other block
    that stays are as before.  Otherwise nothing changes. *)
Theorem coalesce_with_next_spec st b l1 l2 fl :
  spatial_chain st (l1 ++ b :: l2) ->
  free_chain st fl ->
  let n := next (hdr st b) in
  if nonnull n && is_free (hdr st n) && negb (is_mmap (hdr st n)) then
    n ∈ fl ->
    exists st' g, l2 = n :: g /\
      coalesce_with_next b st = Some (tt, st') /\
      free_chain st' (without n fl) /\
      spatial_chain st' (l1 ++ b :: g) /\
      size (hdr st' b) = wrap (size (hdr st b) + hdr_size + size (hdr st n)) /\
      (forall a, a <> b -> size (hdr st' a) = size (hdr st a)) /\
      (forall a, is_mmap (hdr st' a) = is_mmap (hdr st a)) /\
      (forall a, is_free (hdr st' a) =
         if decide (a = n) then false else is_free (hdr st a)) /\
      all_head st' = all_head st /\ os st' = os st /\ bytes st' = bytes st
  else coalesce_with_next b st = Some (tt, st).
Proof.
  intros Hsc Hfc n.
  pose proof (coalesce_next_run st l1 b l2 Hsc) as Hrun. cbv zeta in Hrun.
  fold n in Hrun.
  destruct (nonnull n && is_free (hdr st n) && negb (is_mmap (hdr st n)));
    [|exact Hrun].
  intros Hnfl. destruct Hrun as (g & -> & Hrun).
  destruct (merge_next_chains st l1 b n g fl Hsc Hfc Hnfl)
    as (st' & _ & Hplain & Hrest).
  exists st', g. split; [reflexivity|]. split; [rewrite Hrun; exact Hplain|exact Hrest].
Qed.

Section HelpersOs.

Variable pol : os_policy.

(** X7: [request_space_sbrk sz], for a payload size whose total with
    the header is a valid [sbrk] increment.  When the kernel grants the
    [sbrk], a live, unmapped block of size [sz] is written at the old
    break and appended to the spatial chain, after the old tail; the
    break moves up by the header and the payload; no other block changes
    in size, flags or free links.  When the kernel refuses, [NULL] is
    returned and only the count of system calls changes. *)
Theorem request_space_sbrk_appends st l sz :
  spatial_chain st l ->
  cur_brk (os st) ∉ l -> cur_brk (os st) <> NULL ->
  0 <= sz -> hdr_size + sz <= SSIZE_MAX ->
  let b := cur_brk (os st) in
  if sbrk_ok pol (os st) (hdr_size + sz) then
    exists st', request_space_sbrk pol sz st = Some (b, st') /\
      spatial_chain st' (l ++ [b]) /\
      hdr st' b = mk_hdr sz false false NULL (List.last l NULL) NULL NULL /\
      (forall a, a <> b ->
         size (hdr st' a) = size (hdr st a) /\
         is_free (hdr st' a) = is_free (hdr st a) /\
         is_mmap (hdr st' a) = is_mmap (hdr st a) /\
         next_free (hdr st' a) = next_free (hdr st a) /\
         prev_free (hdr st' a) = prev_free (hdr st a)) /\
      free_head st' = free_head st /\ bytes st' = bytes st /\
      cur_brk (os st') = b + hdr_size + sz /\ maps (os st') = maps (os st)
  else request_space_sbrk pol sz st = Some (NULL, with_os (tick (os st)) st).
Proof.
  intros Hsc Hbl Hb0 Hsz0 Hsz1 b.
  assert (Htotal : size_add hdr_size sz = hdr_size + sz).
  { unfold size_add. apply wrap_small.
    rewrite hdr_size_val, SSIZE_MAX_val, SIZE_MAX_val in *. lia. }
  pose proof (request_space_sbrk_chains pol st l sz Hsc Hbl Hb0) as H.
  cbv zeta in H. rewrite Htotal in H. fold b in H.
  destruct (sbrk_ok pol (os st) (hdr_size + sz)); [|exact H].
  destruct H as (st' & Hrun & Hsc' & Hhdr & Hframe & _ & Hfh & Hbytes & Hos).
  exists st'. split_and!; try assumption; rewrite Hos; cbn [cur_brk maps]; [lia|reflexivity].
Qed.

(** X8: the loop of [try_release_memory_to_os], given fuel for the
    length of the heap, ends; it gives back exactly the longest run of
    free blocks at the end of the heap, [gone], and keeps the rest,
    [keep], whose last block is live; the heap stays well-formed, no size
    changes, the break does not rise, and when the kernel grants every
    [brk] the break ends at the first block given back. *)
Theorem try_release_gives_back_free_tail st l fl fuel :
  heap_ok st l fl -> (length l < fuel)%nat ->
  exists st' keep gone fl',
    l = keep ++ gone /\
    try_release_memory_to_os pol fuel st = Some (tt, st') /\
    heap_ok st' keep fl' /\
    Forall (fun a => is_free (hdr st a) = true) gone /\
    (forall g x, keep = g ++ [x] -> is_free (hdr st' x) = false) /\
    (forall a, size (hdr st' a) = size (hdr st a)) /\
    (forall a, a ∈ keep -> is_free (hdr st' a) = is_free (hdr st a)) /\
    bytes st' = bytes st /\
    cur_brk (os st') <= cur_brk (os st) /\
    ((forall o a, brk_ok pol o a = true) ->
     forall t g, gone = t :: g -> cur_brk (os st') = t).
Proof.
  intros Hok Hfuel.
  destruct (try_release_ok pol l st fl fuel Hok Hfuel)
    as (st' & keep & gone & fl' & Hl & Hrun & Hok' & Hgone & Hkeep & Hsz & Hfree
        & Hbytes & _ & Hbrk & _ & _ & Hfirst).
  pose proof (spatial_chain_NoDup _ _ (ok_spatial _ _ _ Hok)) as Hnd.
  rewrite Hl in Hnd.
  assert (Hkg : forall a, a ∈ keep -> a ∉ gone).
  { intros a Hk Hg. apply NoDup_app in Hnd as (_ & Hd & _). exact (Hd a Hk Hg). }
  exists st', keep, gone, fl'. split_and!; try assumption.
  - intros g x Hg. rewrite Hfree; [exact (Hkeep g x Hg)|].
    apply Hkg. rewrite Hg. apply elem_of_app. right. constructor.
  - intros a Ha. apply Hfree, Hkg, Ha.
Qed.

End HelpersOs.

(** * The interface on a well-formed heap *)


Section Interface.

Variable pol : os_policy.

(** Every path of [mm_realloc] for a live heap block and a request that
    is not zero. *)
Lemma mm_realloc_ok st l fl fuel p n :
  heap_ok st l fl -> os_sane pol -> live st l (header_of p) -> n <> 0 ->
  (S (length l) < fuel)%nat ->
  exists r st' l' fl',
    mm_realloc pol fuel p n st = Some (r, st') /\
    heap_ok st' l' fl' /\
    (forall a, live st l a -> a <> header_of p ->
       live st' l' a /\ size (hdr st' a) = size (hdr st a)) /\
    (r = NULL ->
       l' = l /\ live st' l' (header_of p) /\
       size (hdr st' (header_of p)) = size (hdr st (header_of p)) /\
       bytes st' = bytes st) /\
    (r = p -> live st' l' (header_of p) /\ bytes st' = bytes st /\
              ALIGN_UP n <= size (hdr st' (header_of p))) /\
    (r <> NULL -> r <> p -> ~ live st' l' (header_of p)).
Proof.
  intros Hok Hsane Hlv Hn0 Hfuel.
  pose proof Hlv as (Hbl & Hlive).
  assert (Hp0 : p <> NULL).
  { pose proof (ok_low _ _ _ Hok _ Hbl).
    unfold header_of, sizeof_block_hdr_t, NULL in *. lia. }
  destruct (Z_le_gt_dec (ALIGN_UP n) (size (hdr st (header_of p)))) as [Hfit|Hbig].
  { destruct (mm_realloc_fit pol st l fl fuel p n Hok Hlv Hn0 Hfit)
      as (st' & l' & fl' & Hrun & Hok' & _ & Hlv' & (Hsz & _) & Hframe & Hbytes & _).
    exists p, st', l', fl'. split_and!; try assumption; try tauto. }
  destruct (list_elem_of_split _ _ Hbl) as (l1 & l2 & Hl).
  assert (Hcase :
    (exists nb g, l2 = nb :: g /\ is_free (hdr st nb) = true /\
       ALIGN_UP n <= size (hdr st (header_of p)) + hdr_size + size (hdr st nb)) \/
    (forall l1' nb g, l = l1' ++ header_of p :: nb :: g ->
       is_free (hdr st nb) = true ->
       size (hdr st (header_of p)) + hdr_size + size (hdr st nb) < ALIGN_UP n)).
  { assert (Hnext : forall l1' nb g, l = l1' ++ header_of p :: nb :: g ->
              List.hd NULL l2 = nb /\ nb <> NULL).
    { intros l1' nb g Hl'.
      destruct (ok_spatial _ _ _ Hok) as (Hseg & _).
      pose proof Hseg as Hseg'. rewrite Hl in Hseg. rewrite Hl' in Hseg'.
      pose proof (seg_next_hd _ _ _ _ _ Hseg) as H1.
      pose proof (seg_next_hd _ _ _ _ _ Hseg') as H2.
      cbn [List.hd] in H2. split; [congruence|].
      apply (seg_not_null _ _ _ _ _ Hseg'), elem_of_app. right. right. constructor. }
    destruct l2 as [|nb g].
    - right. intros l1' nb g Hl' _. destruct (Hnext l1' nb g Hl') as (Hhd & Hnn).
      cbn [List.hd] in Hhd. congruence.
    - destruct (is_free (hdr st nb)) eqn:Hnf.
      + destruct (Z_le_gt_dec (ALIGN_UP n)
                    (size (hdr st (header_of p)) + hdr_size + size (hdr st nb)))
          as [Hroom|Hnoroom].
        * left. exists nb, g. auto.
        * right. intros l1' nb' g' Hl' Hnf'.
          destruct (Hnext l1' nb' g' Hl') as (Hhd & _). cbn [List.hd] in Hhd.
          subst nb'. lia.
      + right. intros l1' nb' g' Hl' Hnf'.
        destruct (Hnext l1' nb' g' Hl') as (Hhd & _). cbn [List.hd] in Hhd.
        subst nb'. congruence. }
  destruct Hcase as [(nb & g & -> & Hnf & Hroom)|Hnoroom].
  - subst l.
    destruct (mm_realloc_absorb pol st l1 nb g fl fuel p n Hok Hlive Hn0 Hnf
                ltac:(lia) Hroom)
      as (st' & l' & fl' & Hrun & Hok' & _ & Hlv' & Hsz & _ & Hframe & Hbytes & _).
    exists p, st', l', fl'. split_and!; try assumption; try tauto.
  - destruct (mm_realloc_move pol st l fl fuel p n Hok Hsane Hlv Hn0 Hfuel
                ltac:(lia) Hnoroom)
      as (r & st' & l' & fl' & Hrun & Hok' & Hframe & Hnull & Hsome).
    exists r, st', l', fl'. split_and!; try assumption.
    + intros ->. destruct (Hsome Hp0) as (Hne & _). contradiction.
    + intros Hr _. apply (Hsome Hr).
Qed.

(** X9: [mm_malloc] keeps the heap well-formed, whatever the request and
    whatever the kernel answers: it returns, both chains stay
    well-formed doubly-linked lists, the free chain holds exactly the
    blocks flagged free, blocks stay in address order below the break
    without overlapping, and no block leaves the heap.  It also keeps
    invariant I4: when no two neighbours were both free before, none are
    after. *)
Theorem mm_malloc_keeps_heap st l fl fuel n :
  heap_ok st l fl -> os_sane pol -> (length fl < fuel)%nat ->
  exists p st' l' fl',
    mm_malloc pol fuel n st = Some (p, st') /\
    heap_ok st' l' fl' /\
    (forall a, a ∈ l -> a ∈ l') /\
    (no_adjacent_free st l -> no_adjacent_free st' l').
Proof.
  intros Hok Hsane Hfuel.
  destruct (mm_malloc_ok pol st l fl fuel n Hok Hsane Hfuel)
    as (p & st' & l' & fl' & Hrun & Hok' & Hsub & _ & _ & Hnaf & _).
  exists p, st', l', fl'. auto.
Qed.

(** X10: [mm_malloc] keeps invariant I6 and the alignment of the heap:
    for a request [0 < n] whose rounding does not wrap, when every block
    address, every block size and the break are multiples of
    [ALIGNMENT], with sizes of at least [ALIGNMENT], they still are
    after the call. *)
Theorem mm_malloc_keeps_aligned st l fl fuel n :
  heap_ok st l fl -> os_sane pol -> (length fl < fuel)%nat ->
  heap_aligned st l -> 0 < n -> n + 15 <= SIZE_MAX ->
  exists p st' l' fl',
    mm_malloc pol fuel n st = Some (p, st') /\
    heap_ok st' l' fl' /\
    heap_aligned st' l'.
Proof.
  intros Hok Hsane Hfuel Hal Hn0 Hn1.
  destruct (mm_malloc_ok pol st l fl fuel n Hok Hsane Hfuel)
    as (p & st' & l' & fl' & Hrun & Hok' & _ & _ & _ & _ & Hal' & _).
  exists p, st', l', fl'. auto.
Qed.


(** X12: a failed [mm_malloc] changes nothing but the count of system
    calls: when it returns [NULL], memory, both chains, the payload
    bytes, the break and the mappings are as before. *)
Theorem mm_malloc_null_keeps_state st l fl fuel n st' :
  heap_ok st l fl -> os_sane pol -> (length fl < fuel)%nat ->
  mm_malloc pol fuel n st = Some (NULL, st') ->
  st' = st \/ st' = with_os (tick (os st)) st.
Proof.
  intros Hok Hsane Hfuel Hrun.
  destruct (mm_malloc_ok pol st l fl fuel n Hok Hsane Hfuel)
    as (p & st1 & l' & fl' & Hrun1 & _ & _ & _ & _ & _ & _ & _ & _ & Hnone).
  rewrite Hrun in Hrun1. injection Hrun1 as <- <-.
  destruct (Hnone eq_refl) as (_ & _ & H). exact H.
Qed.


(** X14: [mm_free] of a live heap block keeps the heap well-formed, adds
    no block to it, and keeps invariants I4 and I6: when no two
    neighbours were both free before, none are after (the freed block is
    merged with its free neighbours), and addresses, sizes and the break
    stay multiples of [ALIGNMENT]. *)
Theorem mm_free_keeps_heap st l fl fuel p :
  heap_ok st l fl -> live st l (header_of p) -> (length l < fuel)%nat ->
  exists st' l' fl',
    mm_free pol fuel p st = Some (tt, st') /\
    heap_ok st' l' fl' /\
    (forall a, a ∈ l' -> a ∈ l) /\
    (no_adjacent_free st l -> no_adjacent_free st' l') /\
    (heap_aligned st l -> heap_aligned st' l').
Proof.
  intros Hok Hlv Hfuel.
  destruct (mm_free_heap pol st l fl fuel p Hok Hlv Hfuel)
    as (st' & l' & fl' & Hrun & Hok' & Hsub & _ & _ & Hnaf & Hal & _).
  exists st', l', fl'. auto.
Qed.

(** X15: [mm_free] of a live heap block frees that block and only it:
    afterwards the block is not a live block of the heap, every other
    live block is still live with its size, no payload byte and no
    mapping has changed, and the break has not risen. *)
Theorem mm_free_frees_only_its_block st l fl fuel p :
  heap_ok st l fl -> live st l (header_of p) -> (length l < fuel)%nat ->
  exists st' l' fl',
    mm_free pol fuel p st = Some (tt, st') /\
    heap_ok st' l' fl' /\
    ~ live st' l' (header_of p) /\
    (forall a, live st l a -> a <> header_of p ->
       live st' l' a /\ size (hdr st' a) = size (hdr st a)) /\
    bytes st' = bytes st /\
    maps (os st') = maps (os st) /\
    cur_brk (os st') <= cur_brk (os st).
Proof.
  intros Hok Hlv Hfuel.
  destruct (mm_free_heap pol st l fl fuel p Hok Hlv Hfuel)
    as (st' & l' & fl' & Hrun & Hok' & _ & Hframe & Hgone & _ & _ & Hbytes & Hmaps & Hbrk).
  exists st', l', fl'. auto 10.
Qed.




(** X19: a failed [mm_realloc] leaves the block it was given allocated
    and unchanged: when a request that is not zero returns [NULL] for a
    live heap block, the block is still a live block of the same heap,
    with its size, and no payload byte has changed. *)
Theorem mm_realloc_failure_keeps_block st l fl fuel p n st' :
  heap_ok st l fl -> os_sane pol -> live st l (header_of p) -> n <> 0 ->
  (S (length l) < fuel)%nat ->
  mm_realloc pol fuel p n st = Some (NULL, st') ->
  (exists fl', heap_ok st' l fl') /\
  live st' l (header_of p) /\
  size (hdr st' (header_of p)) = size (hdr st (header_of p)) /\
  bytes st' = bytes st.
Proof.
  intros Hok Hsane Hlv Hn0 Hfuel Hrun.
  destruct (mm_realloc_ok st l fl fuel p n Hok Hsane Hlv Hn0 Hfuel)
    as (r & st1 & l' & fl' & Hrun1 & Hok' & _ & Hnull & _).
  rewrite Hrun in Hrun1. injection Hrun1 as <- <-.
  destruct (Hnull eq_refl) as (-> & Hlv' & Hsz & Hbytes).
  split_and!; try assumption. exists fl'. exact Hok'.
Qed.



End Interface.

(** X21: [mm_print_state], given fuel for the longer of the two chains,
    prints the heading of the block list, one line for each block of
    the spatial chain in chain order, the heading of the free list and
    one line for each block of the free chain in chain order, each line
    with the fields as they are in memory; it changes nothing. *)
Theorem mm_print_state_lists_chains st l fl fuel :
  spatial_chain st l -> free_chain st fl ->
  (length l < fuel)%nat -> (length fl < fuel)%nat ->
  mm_print_state fuel st =
  Some (out_all_blocks :: List.map (block_line st) l
          ++ out_free_list :: List.map (free_line st) fl, st).
Proof.
  intros (Hseg & _ & _ & Hmem) (Hfseg & _ & Hfmem) Hl Hfl.
  unfold mm_print_state. run.
  rewrite (bind_run _ _ _ _ _ (print_all_loop_run st l fuel _ Hseg Hmem Hl)). run.
  rewrite (bind_run _ _ _ _ _ (print_free_loop_run st fl fuel _ Hfseg Hfmem Hfl)).
  reflexivity.
Qed.

(** * Instances on concrete heaps *)

Lemma pol_sane_ok : os_sane pol_sane.
Proof.
  split.
  - intros o d H _. cbn in H. apply andb_true_iff in H as (_ & H).
    apply Z.leb_le in H. exact H.
  - intros o len a H. cbn in H. injection H as <-. lia.
Qed.

Lemma pol_none_ok : os_sane pol_none.
Proof. split; intros; discriminate. Qed.

Ltac each_elem :=
  repeat match goal with
  | H : _ \/ _ |- _ => destruct H as [H|H]
  | H : False |- _ => destruct H
  end.

(** The invariant on a concrete heap, by evaluation. *)
Ltac heap_tac :=
  split;
  [ chain_tac
  | chain_tac
  | intros ?a; elems; split;
    [ intros ?Ha; each_elem; subst; (split; [tauto|vm_compute; reflexivity])
    | intros (?Ha & ?Hf); each_elem; subst; try tauto;
      vm_compute in Hf; discriminate ]
  | intros ?a; elems; intros ?Ha; each_elem; subst; vm_compute; reflexivity
  | intros ?a; elems; intros ?Ha; each_elem; subst; vm_compute; discriminate
  | intros ?a; elems; intros ?Ha; each_elem; subst; vm_compute; reflexivity
  | cbn [adj_all]; repeat split; vm_compute; discriminate
  | intros ?a; elems; intros ?Ha; each_elem; subst; vm_compute; discriminate
  | split; [vm_compute; reflexivity|vm_compute; discriminate] ].

Ltac live_tac := split; [elems; tauto|vm_compute; reflexivity].

Ltac aligned_tac :=
  split; [|split];
  [ intros ?a; elems; intros ?Ha; each_elem; subst; vm_compute; reflexivity
  | intros ?a; elems; intros ?Ha; each_elem; subst;
    (split; [vm_compute; reflexivity|vm_compute; discriminate])
  | vm_compute; reflexivity ].

Example st_heap3_ok : heap_ok st_heap3 [4096; 4304; 4368] [4304].
Proof. heap_tac. Qed.
Example st_two_free_ok : heap_ok st_two_free [4096; 4208; 4272; 4352] [4096; 4272].
Proof. heap_tac. Qed.
Example st_merge_ok : heap_ok st_merge [4096; 4160; 4224] [4160; 4096].
Proof. heap_tac. Qed.
Example st_free_tail_ok : heap_ok st_free_tail [4096; 4160] [4160].
Proof. heap_tac. Qed.
Example st_empty_ok : heap_ok st_empty [] [].
Proof. heap_tac. Qed.
Example st_heap3_aligned : heap_aligned st_heap3 [4096; 4304; 4368].
Proof. aligned_tac. Qed.

(* X1 witness: a request of 100 bytes is rounded to 112. *)
Lemma ALIGN_UP_least_multiple_witness :
  0 <= 100 /\ 100 + 15 <= SIZE_MAX /\
  ALIGN_UP 100 = 112 /\
  ALIGN_UP 100 mod ALIGNMENT = 0 /\ 100 <= ALIGN_UP 100 /\
  forall m, m mod ALIGNMENT = 0 -> 100 <= m -> ALIGN_UP 100 <= m.
Proof.
  split; [lia|]. split; [vm_compute; discriminate|].
  split; [vm_compute; reflexivity|].
  apply (ALIGN_UP_least_multiple 100); [lia|vm_compute; discriminate].
Defined.

(* X3 witness: the live block at 4096 of [st_heap3] is pushed in front
   of the free block at 4304. *)
Lemma insert_free_pushes_front_witness :
  free_chain st_heap3 [4304] /\ (4096 ∉ [4304]) /\ 4096 <> NULL /\
  exists st', insert_free 4096 st_heap3 = Some (tt, st') /\
    free_chain st' [4096; 4304] /\
    free_head st' = 4096 /\
    is_free (hdr st' 4096) = true /\
    (forall a, a <> 4096 -> is_free (hdr st' a) = is_free (hdr st_heap3 a)) /\
    links_only st_heap3 st'.
Proof.
  split; [chain_tac|]. split; [elems; lia|]. split; [vm_compute; discriminate|].
  apply (insert_free_pushes_front st_heap3 [4304] 4096).
  - chain_tac.
  - elems. lia.
  - vm_compute. discriminate.
Defined.

(* X4 witness: the last block of the free chain of [st_two_free] is
   taken off. *)
Lemma remove_free_unlinks_witness :
  free_chain st_two_free [4096; 4272] /\ 4272 ∈ [4096; 4272] /\
  exists st', remove_free 4272 st_two_free = Some (tt, st') /\
    free_chain st' (without 4272 [4096; 4272]) /\
    is_free (hdr st' 4272) = false /\
    next_free (hdr st' 4272) = NULL /\ prev_free (hdr st' 4272) = NULL /\
    (forall a, a <> 4272 -> is_free (hdr st' a) = is_free (hdr st_two_free a)) /\
    links_only st_two_free st'.
Proof.
  split; [chain_tac|]. split; [elems; auto|].
  apply (remove_free_unlinks st_two_free [4096; 4272] 4272).
  - chain_tac.
  - elems. auto.
Defined.

(* X5 witness: pushing the live block at 4096 of [st_heap3] and taking
   it off again. *)
Lemma insert_then_remove_free_witness :
  free_chain st_heap3 [4304] /\ (4096 ∉ [4304]) /\ 4096 <> NULL /\
  exists st', (insert_free 4096 ;; remove_free 4096) st_heap3 = Some (tt, st') /\
    free_chain st' [4304] /\
    free_head st' = free_head st_heap3 /\
    (forall a, a <> 4096 -> hdr st' a = hdr st_heap3 a) /\
    is_free (hdr st' 4096) = false /\
    next_free (hdr st' 4096) = NULL /\ prev_free (hdr st' 4096) = NULL /\
    links_only st_heap3 st'.
Proof.
  split; [chain_tac|]. split; [elems; lia|]. split; [vm_compute; discriminate|].
  apply (insert_then_remove_free st_heap3 [4304] 4096).
  - chain_tac.
  - elems. lia.
  - vm_compute. discriminate.
Defined.

(* X6 witness: the first block of [st_merge] absorbs the free block
   behind it and grows to 16 + 48 + 16. *)
Lemma coalesce_with_next_spec_witness :
  spatial_chain st_merge [4096; 4160; 4224] /\
  free_chain st_merge [4160; 4096] /\
  exists st', coalesce_with_next 4096 st_merge = Some (tt, st') /\
    free_chain st' [4096] /\
    spatial_chain st' [4096; 4224] /\
    size (hdr st' 4096) = 80.
Proof.
  split; [chain_tac|]. split; [chain_tac|].
  pose proof (coalesce_with_next_spec st_merge 4096 [] [4160; 4224] [4160; 4096]) as H.
  cbv zeta in H.
  assert (Hn : next (hdr st_merge 4096) = 4160) by (vm_compute; reflexivity).
  rewrite Hn in H.
  assert (Hc : nonnull 4160 && is_free (hdr st_merge 4160)
               && negb (is_mmap (hdr st_merge 4160)) = true)
    by (vm_compute; reflexivity).
  rewrite Hc in H.
  destruct H as (st' & g & Hg & Hrun & Hfc & Hsc & Hs & _).
  - chain_tac.
  - chain_tac.
  - elems. auto.
  - injection Hg as <-.
    exists st'. split_and!; [exact Hrun|exact Hfc|exact Hsc|].
    rewrite Hs. vm_compute. reflexivity.
Defined.

(* X7 witness: a block of 32 bytes is appended to [st_heap3] at the
   break, 4432. *)
Lemma request_space_sbrk_appends_witness :
  spatial_chain st_heap3 [4096; 4304; 4368] /\
  cur_brk (os st_heap3) = 4432 /\
  exists st', request_space_sbrk pol_ok 32 st_heap3 = Some (4432, st') /\
    spatial_chain st' [4096; 4304; 4368; 4432] /\
    hdr st' 4432 = mk_hdr 32 false false NULL 4368 NULL NULL /\
    cur_brk (os st') = 4432 + 80.
Proof.
  split; [chain_tac|]. split; [vm_compute; reflexivity|].
  pose proof (request_space_sbrk_appends pol_ok st_heap3 [4096; 4304; 4368] 32) as H.
  cbv zeta in H.
  assert (Hb : cur_brk (os st_heap3) = 4432) by (vm_compute; reflexivity).
  rewrite Hb in H. cbn [sbrk_ok pol_ok] in H.
  destruct H as (st' & Hrun & Hsc & Hh & _ & _ & _ & Hbrk & _).
  - chain_tac.
  - elems. lia.
  - vm_compute. discriminate.
  - lia.
  - vm_compute. discriminate.
  - exists st'. split_and!; [exact Hrun|exact Hsc|exact Hh|].
    rewrite Hbrk. vm_compute. reflexivity.
Defined.

(* X8 witness: the free tail of [st_free_tail] is given back and the
   break is lowered to its header, 4160. *)
Lemma try_release_gives_back_free_tail_witness :
  heap_ok st_free_tail [4096; 4160] [4160] /\
  exists st' keep gone fl',
    [4096; 4160] = keep ++ gone /\
    try_release_memory_to_os pol_ok 3 st_free_tail = Some (tt, st') /\
    heap_ok st' keep fl' /\
    Forall (fun a => is_free (hdr st_free_tail a) = true) gone /\
    (forall g x, keep = g ++ [x] -> is_free (hdr st' x) = false) /\
    (forall a, size (hdr st' a) = size (hdr st_free_tail a)) /\
    (forall a, a ∈ keep -> is_free (hdr st' a) = is_free (hdr st_free_tail a)) /\
    bytes st' = bytes st_free_tail /\
    cur_brk (os st') <= cur_brk (os st_free_tail) /\
    ((forall o a, brk_ok pol_ok o a = true) ->
     forall t g, gone = t :: g -> cur_brk (os st') = t).
Proof.
  split; [heap_tac|].
  apply (try_release_gives_back_free_tail pol_ok st_free_tail [4096; 4160] [4160] 3).
  - heap_tac.
  - simpl. lia.
Defined.

(* X9 witness: a request of 16 bytes on [st_heap3]. *)
Lemma mm_malloc_keeps_heap_witness :
  heap_ok st_heap3 [4096; 4304; 4368] [4304] /\ os_sane pol_sane /\
  exists p st' l' fl',
    mm_malloc pol_sane 2 16 st_heap3 = Some (p, st') /\
    heap_ok st' l' fl' /\
    (forall a, a ∈ [4096; 4304; 4368] -> a ∈ l') /\
    (no_adjacent_free st_heap3 [4096; 4304; 4368] -> no_adjacent_free st' l').
Proof.
  split; [heap_tac|]. split; [exact pol_sane_ok|].
  apply (mm_malloc_keeps_heap pol_sane st_heap3 [4096; 4304; 4368] [4304] 2 16).
  - heap_tac.
  - exact pol_sane_ok.
  - simpl. lia.
Defined.

(* X10 witness: a request of 100 bytes on [st_heap3], which grows the
   heap by a block of 112 bytes. *)
Lemma mm_malloc_keeps_aligned_witness :
  heap_ok st_heap3 [4096; 4304; 4368] [4304] /\ os_sane pol_sane /\
  heap_aligned st_heap3 [4096; 4304; 4368] /\
  exists p st' l' fl',
    mm_malloc pol_sane 2 100 st_heap3 = Some (p, st') /\
    heap_ok st' l' fl' /\
    heap_aligned st' l'.
Proof.
  split; [heap_tac|]. split; [exact pol_sane_ok|]. split; [aligned_tac|].
  apply (mm_malloc_keeps_aligned pol_sane st_heap3 [4096; 4304; 4368] [4304] 2 100).
  - heap_tac.
  - exact pol_sane_ok.
  - simpl. lia.
  - aligned_tac.
  - lia.
  - vm_compute. discriminate.
Defined.


(* X12 witness: the kernel refuses to grow the empty heap. *)
Lemma mm_malloc_null_keeps_state_witness :
  heap_ok st_empty [] [] /\ os_sane pol_none /\
  mm_malloc pol_none 1 100 st_empty
    = Some (NULL, with_os (tick (os st_empty)) st_empty) /\
  (with_os (tick (os st_empty)) st_empty = st_empty \/
   with_os (tick (os st_empty)) st_empty = with_os (tick (os st_empty)) st_empty).
Proof.
  split; [heap_tac|]. split; [exact pol_none_ok|].
  split; [vm_compute; reflexivity|].
  apply (mm_malloc_null_keeps_state pol_none st_empty [] [] 1 100).
  - heap_tac.
  - exact pol_none_ok.
  - simpl. lia.
  - vm_compute. reflexivity.
Defined.


(* X14 witness: the 160-byte block of [st_heap3] is freed. *)
Lemma mm_free_keeps_heap_witness :
  heap_ok st_heap3 [4096; 4304; 4368] [4304] /\
  live st_heap3 [4096; 4304; 4368] (header_of 4144) /\
  exists st' l' fl',
    mm_free pol_ok 4 4144 st_heap3 = Some (tt, st') /\
    heap_ok st' l' fl' /\
    (forall a, a ∈ l' -> a ∈ [4096; 4304; 4368]) /\
    (no_adjacent_free st_heap3 [4096; 4304; 4368] -> no_adjacent_free st' l') /\
    (heap_aligned st_heap3 [4096; 4304; 4368] -> heap_aligned st' l').
Proof.
  split; [heap_tac|]. split; [live_tac|].
  apply (mm_free_keeps_heap pol_ok st_heap3 [4096; 4304; 4368] [4304] 4 4144).
  - heap_tac.
  - live_tac.
  - simpl. lia.
Defined.

(* X15 witness: the last block of [st_heap3] is freed. *)
Lemma mm_free_frees_only_its_block_witness :
  heap_ok st_heap3 [4096; 4304; 4368] [4304] /\
  live st_heap3 [4096; 4304; 4368] (header_of 4416) /\
  exists st' l' fl',
    mm_free pol_ok 4 4416 st_heap3 = Some (tt, st') /\
    heap_ok st' l' fl' /\
    ~ live st' l' (header_of 4416) /\
    (forall a, live st_heap3 [4096; 4304; 4368] a -> a <> header_of 4416 ->
       live st' l' a /\ size (hdr st' a) = size (hdr st_heap3 a)) /\
    bytes st' = bytes st_heap3 /\
    maps (os st') = maps (os st_heap3) /\
    cur_brk (os st') <= cur_brk (os st_heap3).
Proof.
  split; [heap_tac|]. split; [live_tac|].
  apply (mm_free_frees_only_its_block pol_ok st_heap3 [4096; 4304; 4368] [4304] 4 4416).
  - heap_tac.
  - live_tac.
  - simpl. lia.
Defined.




(* X19 witness: the kernel refuses the memory for moving the last block
   of [st_heap3]. *)
Lemma mm_realloc_failure_keeps_block_witness :
  heap_ok st_heap3 [4096; 4304; 4368] [4304] /\ os_sane pol_none /\
  live st_heap3 [4096; 4304; 4368] (header_of 4416) /\
  mm_realloc pol_none 5 4416 100 st_heap3
    = Some (NULL, with_os (tick (os st_heap3)) st_heap3) /\
  (exists fl', heap_ok (with_os (tick (os st_heap3)) st_heap3) [4096; 4304; 4368] fl') /\
  live (with_os (tick (os st_heap3)) st_heap3) [4096; 4304; 4368] (header_of 4416) /\
  size (hdr (with_os (tick (os st_heap3)) st_heap3) (header_of 4416))
    = size (hdr st_heap3 (header_of 4416)) /\
  bytes (with_os (tick (os st_heap3)) st_heap3) = bytes st_heap3.
Proof.
  split; [heap_tac|]. split; [exact pol_none_ok|]. split; [live_tac|].
  split; [vm_compute; reflexivity|].
  apply (mm_realloc_failure_keeps_block pol_none st_heap3 [4096; 4304; 4368] [4304]
           5 4416 100).
  - heap_tac.
  - exact pol_none_ok.
  - live_tac.
  - lia.
  - simpl. lia.
  - vm_compute. reflexivity.
Defined.


(* X21 witness: the three blocks of [st_heap3] and its free block. *)
Lemma mm_print_state_lists_chains_witness :
  spatial_chain st_heap3 [4096; 4304; 4368] /\ free_chain st_heap3 [4304] /\
  mm_print_state 4 st_heap3 =
  Some ([out_all_blocks;
         out_block 4096 160 false false 4304 NULL;
         out_block 4304 16 true false 4368 4096;
         out_block 4368 16 false false NULL 4304;
         out_free_list;
         out_free_block 4304 16], st_heap3).
Proof.
  split; [chain_tac|]. split; [chain_tac|].
  rewrite (mm_print_state_lists_chains st_heap3 [4096; 4304; 4368] [4304] 4).
  - vm_compute. reflexivity.
  - chain_tac.
  - chain_tac.
  - simpl. lia.
  - simpl. lia.
Defined.

